(** * gen_conf_downloader: a shallow embedding of the conference downloader

    The development follows [gen_conf_downloader.py] function by function.
    Python values are modelled as follows.

    - A [str] is a list of Unicode code points ([N]); [bytes] share the
      representation.  Literals are written [py "..."]; [q "..."] is the
      same except that a backquote stands for the double-quote character,
      which occurs all over the markup the script scans.
    - A float (a duration in seconds) is an exact rational ([Q]); the
      rounding of IEEE arithmetic is not modelled.
    - The functions of Python's standard library and of mutagen that the
      script calls but that are not part of it are the fields of the class
      [PyLib]; the regular expressions, [str] methods and the small pieces
      of [re] the script needs are defined here and run.
    - The file system, the remote site and the progress window form the
      [World] threaded through the monad [M]; [SystemExit] and uncaught
      exceptions are outcomes of a computation. *)

From Stdlib Require Import ZArith QArith Qround List String Ascii Lia Bool Sorted.
From Stdlib Require DecimalString.
From stdpp Require Import base option gmap.
Import ListNotations.

Open Scope Z_scope.

(* ================================================================== *)
(** * Python text                                                      *)
(* ================================================================== *)

Definition char := N.
Definition str := list N.

Definition py (s : string) : str := List.map N_of_ascii (list_ascii_of_string s).

(** The double-quote character, and literals in which a backquote stands
    for it. *)
Definition dquote : char := 34%N.
Definition backquote : char := 96%N.
Definition q (s : string) : str :=
  List.map (fun c => if (c =? backquote)%N then dquote else c) (py s).

Definition ch (s : string) : char := hd 0%N (py s).

Fixpoint str_eqb (a b : str) : bool :=
  match a, b with
  | [], [] => true
  | c :: a', d :: b' => (c =? d)%N && str_eqb a' b'
  | _, _ => false
  end.

(** [s.startswith(p)] *)
Fixpoint startswith (s p : str) : bool :=
  match p, s with
  | [], _ => true
  | c :: p', d :: s' => (c =? d)%N && startswith s' p'
  | _ :: _, [] => false
  end.

(** [s.endswith(p)] *)
Definition endswith (s p : str) : bool := startswith (rev s) (rev p).

(** [s.find(p)], counting from [i]: the first index at which [p] occurs,
    [-1] when it does not. *)
Fixpoint find_from (i : Z) (s p : str) : Z :=
  if startswith s p then i
  else match s with
       | [] => -1
       | _ :: s' => find_from (i + 1) s' p
       end.

Definition find (s p : str) : Z := find_from 0 s p.

(** [s.replace(a, b)] for a one-character [a]. *)
Definition replace_char (a : char) (b : str) (s : str) : str :=
  flat_map (fun c => if (c =? a)%N then b else [c]) s.

(** [str.isspace] on one character: the code points Python treats as
    white space. *)
Definition isspace (c : char) : bool :=
  ((9 <=? c) && (c <=? 13) || (28 <=? c) && (c <=? 32)
   || (c =? 133) || (c =? 160) || (c =? 5760)
   || (8192 <=? c) && (c <=? 8202)
   || (c =? 8232) || (c =? 8233) || (c =? 8239) || (c =? 8287)
   || (c =? 12288))%N.

(** [s.rstrip()]: the trailing white space goes. *)
Fixpoint rstrip (s : str) : str :=
  match s with
  | [] => []
  | c :: s' =>
      match rstrip s' with
      | [] => if isspace c then [] else [c]
      | r => c :: r
      end
  end.

(** [str(n)] / [f'{n}'] for an integer. *)
Definition str_of_Z (n : Z) : str :=
  py (DecimalString.NilZero.string_of_int (Z.to_int n)).

(** [f'{n:02d}'] *)
Definition str_of_Z_02d (n : Z) : str :=
  let s := str_of_Z n in
  if (length s <? 2)%nat then ch "0" :: s else s.

Definition ascii_digit (c : char) : bool := ((48 <=? c) && (c <=? 57))%N.
Definition ascii_upper (c : char) : bool := ((65 <=? c) && (c <=? 90))%N.
Definition ascii_lower (c : char) : bool := ((97 <=? c) && (c <=? 122))%N.

(* ================================================================== *)
(** * The library the script stands on                                 *)
(* ================================================================== *)

(** What the script imports and this development does not define:
    the Unicode tables behind [str.isalnum] and [\d] outside ASCII,
    [html.unescape], [urllib.parse.quote_plus] and [unquote_plus], the
    text an [HTMLParser] with [convert_charrefs] hands to [handle_data]
    for one [feed], [str(base64.b64decode(s))] ([None] when the decoder
    raises), and the length mutagen reads from an MP3 stream ([None] when
    it raises). *)
Class PyLib := {
  uni_alnum : char -> bool;
  uni_decimal : char -> option Z;
  html_unescape : str -> str;
  quote_plus : str -> str;
  unquote_plus : str -> str;
  html_data : str -> str;
  b64decode_str : str -> option str;
  mp3_length : str -> option Q
}.

Section Text.
Context `{PyLib}.

(** [c.isalnum()] *)
Definition isalnum (c : char) : bool :=
  if (c <? 128)%N then ascii_digit c || ascii_upper c || ascii_lower c
  else uni_alnum c.

(** The value of a decimal digit, as [\d] and [int] see it. *)
Definition decimal (c : char) : option Z :=
  if (c <? 128)%N then (if ascii_digit c then Some (Z.of_N c - 48) else None)
  else uni_decimal c.

(** [int(s)] for a string of decimal digits (the script applies it to
    groups matched by [\d{n}] only). *)
Definition int_of_str (s : str) : Z :=
  fold_left (fun acc c => acc * 10 + default 0 (decimal c)) s 0.

End Text.

(* ================================================================== *)
(** * The fragment of [re] the script uses                             *)
(* ================================================================== *)

Module re.

(** One-character matchers. *)
Inductive cls :=
| Any
| Digit
| Chars (negated : bool) (ranges : list (char * char))
| Lit (c : char).

(** The script's patterns are sequences of single characters, starred or
    counted single characters, and unnested groups. *)
Inductive atom :=
| One (k : cls)
| Star (greedy : bool) (k : cls)
| Rep (n : nat) (k : cls)
| Open
| Close.

Definition regex := list atom.

(** ** Reading a pattern *)

Fixpoint parse_set (s : str) (acc : list (char * char))
  : list (char * char) * str :=
  match s with
  | [] => (rev acc, [])
  | a :: rest =>
      if (a =? ch "]")%N then (rev acc, rest)
      else match rest with
           | d :: b :: rest' =>
               if (d =? ch "-")%N && negb (b =? ch "]")%N
               then parse_set rest' ((a, b) :: acc)
               else parse_set rest ((a, a) :: acc)
           | _ => parse_set rest ((a, a) :: acc)
           end
  end.

Fixpoint parse_count (s : str) (acc : option nat) : option (nat * str) :=
  match s with
  | [] => None
  | c :: rest =>
      if (c =? ch "}")%N then option_map (fun n => (n, rest)) acc
      else if ascii_digit c
           then parse_count rest
                  (Some (default 0 acc * 10 + N.to_nat (c - 48)))%nat
           else None
  end.

Definition parse_cls (c : char) (rest : str) : cls * str :=
  if (c =? ch "\")%N then
    match rest with
    | x :: r => if (x =? ch "d")%N then (Digit, r) else (Lit x, r)
    | [] => (Lit c, [])
    end
  else if (c =? ch "[")%N then
    match rest with
    | x :: r =>
        if (x =? ch "^")%N
        then let '(rs, r') := parse_set r [] in (Chars true rs, r')
        else let '(rs, r') := parse_set rest [] in (Chars false rs, r')
    | [] => (Lit c, [])
    end
  else if (c =? ch ".")%N then (Any, rest)
  else (Lit c, rest).

Fixpoint parse (fuel : nat) (s : str) : regex :=
  match fuel, s with
  | O, _ | _, [] => []
  | S fuel', c :: rest =>
      if (c =? ch "(")%N then Open :: parse fuel' rest
      else if (c =? ch ")")%N then Close :: parse fuel' rest
      else
        let '(k, rest1) := parse_cls c rest in
        match rest1 with
        | x :: r =>
            if (x =? ch "*")%N then
              match r with
              | y :: r' =>
                  if (y =? ch "?")%N then Star false k :: parse fuel' r'
                  else Star true k :: parse fuel' r
              | [] => [Star true k]
              end
            else if (x =? ch "{")%N then
              match parse_count r None with
              | Some (n, r') => Rep n k :: parse fuel' r'
              | None => One k :: parse fuel' rest1
              end
            else One k :: parse fuel' rest1
        | [] => [One k]
        end
  end.

Definition compile (pattern : str) : regex := parse (length pattern) pattern.

(** ** Matching

    A backtracking matcher in the order Python's engine explores: a greedy
    star takes as much as it can and gives back, a lazy one takes as
    little as it can and asks for more.  [dotall] is the flag [re.S]. *)

Section Matching.
Context `{PyLib}.
Variable dotall : bool.

Definition in_range (c : char) (r : char * char) : bool :=
  ((fst r <=? c) && (c <=? snd r))%N.

Definition accepts (k : cls) (c : char) : bool :=
  match k with
  | Any => dotall || negb (c =? 10)%N
  | Digit => match decimal c with Some _ => true | None => false end
  | Chars negated rs => xorb negated (existsb (in_range c) rs)
  | Lit d => (c =? d)%N
  end.

(** Groups closed so far (latest first) and the text of the open one
    (latest character first). *)
Record groups := Groups { closed : list str; opened : option str }.

Definition no_groups : groups := Groups [] None.

Definition take_char (c : char) (g : groups) : groups :=
  match opened g with
  | Some t => Groups (closed g) (Some (c :: t))
  | None => g
  end.

Definition open_group (g : groups) : groups := Groups (closed g) (Some []).

Definition close_group (g : groups) : groups :=
  match opened g with
  | Some t => Groups (rev t :: closed g) None
  | None => g
  end.

(** [run r s g]: match [r] at the head of [s]; the groups of the first
    match found, in order, and the text left after it. *)
Fixpoint run (r : regex) : str -> groups -> option (list str * str) :=
  match r with
  | [] => fun s g => Some (rev (closed g), s)
  | One k :: r' =>
      fun s g =>
        match s with
        | c :: s' => if accepts k c then run r' s' (take_char c g) else None
        | [] => None
        end
  | Rep n k :: r' =>
      (fix rep (n : nat) (s : str) (g : groups) {struct n} :=
         match n with
         | O => run r' s g
         | S n' =>
             match s with
             | c :: s' => if accepts k c then rep n' s' (take_char c g) else None
             | [] => None
             end
         end) n
  | Star true k :: r' =>
      fix star (s : str) (g : groups) {struct s} :=
        match s with
        | c :: s' =>
            if accepts k c then
              match star s' (take_char c g) with
              | Some m => Some m
              | None => run r' s g
              end
            else run r' s g
        | [] => run r' s g
        end
  | Star false k :: r' =>
      fix star (s : str) (g : groups) {struct s} :=
        match run r' s g with
        | Some m => Some m
        | None =>
            match s with
            | c :: s' => if accepts k c then star s' (take_char c g) else None
            | [] => None
            end
        end
  | Open :: r' => fun s g => run r' s (open_group g)
  | Close :: r' => fun s g => run r' s (close_group g)
  end.

(** [re.match(pattern, s)]: the groups, when the pattern matches at the
    start of [s]. *)
Definition match_ (r : regex) (s : str) : option (list str) :=
  option_map fst (run r s no_groups).

(** [re.search(pattern, s)]: the groups of the leftmost match. *)
Fixpoint search (r : regex) (s : str) : option (list str) :=
  match run r s no_groups with
  | Some (gs, _) => Some gs
  | None => match s with
            | [] => None
            | _ :: s' => search r s'
            end
  end.

(** [re.findall(pattern, s)]: the groups of the successive matches, left
    to right, none overlapping the one before.  The scan resumes where a
    match ended, and one character further after a failure (or after a
    match that consumed nothing, which the script's patterns never do). *)
Fixpoint findall_from (fuel : nat) (r : regex) (s : str) : list (list str) :=
  match fuel with
  | O => []
  | S fuel' =>
      match run r s no_groups with
      | Some (gs, rest) =>
          gs :: (if (length rest <? length s)%nat
                 then findall_from fuel' r rest
                 else match s with
                      | [] => []
                      | _ :: s' => findall_from fuel' r s'
                      end)
      | None =>
          match s with
          | [] => []
          | _ :: s' => findall_from fuel' r s'
          end
      end
  end.

Definition findall (r : regex) (s : str) : list (list str) :=
  findall_from (S (length s)) r s.

End Matching.

(** [m.group(i)] for [i >= 1]. *)
Definition group (m : list str) (i : nat) : str := nth (i - 1) m [].

End re.

(* ================================================================== *)
(** * Records and constants of the script                              *)
(* ================================================================== *)

Module Conference.
Record t := mk { link : str; title : str; year : Z; month : Z }.
End Conference.

Module Session.
Record t := mk { conference : Conference.t; link : str; title : str; number : Z }.
End Session.

Module Talk.
Record t := mk { session : Session.t; link : str; title : str;
                 speaker : str; topics : list str }.
End Talk.

Module Audio.
Record t := mk { link : str; file : str }.
End Audio.

Module Topic.
Record t := mk { link : str; topic : str }.
End Topic.

Module TalkByTopic.
Record t := mk { link : str; speaker : str; title : str; topic : str }.
End TalkByTopic.

Definition LDS_ORG_URL := py "https://www.churchofjesuschrist.org".
Definition ALL_CONFERENCES_URL := LDS_ORG_URL ++ py "/study/general-conference".
Definition ALL_TOPICS_URL := LDS_ORG_URL ++ py "/study/general-conference/topics".

Definition GET_LANGS_REGEX :=
  re.compile (q "data-lang=`.*?` data-clang=`(.*?)`>(.*?)</a>").
Definition CONFERENCES_REGEX :=
  re.compile (q "<a[^>]*href=`([^`]*)`[^>]*><div[^>]*><img[^>]*></div><span[^>]*>([A-Z][a-z]* \d{4})</span></a>").
Definition CONFERENCE_GROUPS_REGEX :=
  re.compile (q "<a[^>]*href=`([^`]*)`[^>]*><div[^>]*><img[^>]*></div><span[^>]*>(\d{4}.\d{4})</span></a>").
Definition CONFERENCE_GROUPS_RANGE_REGEX :=
  re.compile (py ".*/(\d{4})(\d{4})\?lang=.*").
Definition CONFERENCE_LINK_YEAR_MONTH_REGEX :=
  re.compile (py ".*(\d{4})/(\d{2})\?lang=.*").

Definition SCRIPT_BASE64_REGEX :=
  re.compile (q "<script>window.__INITIAL_STATE__[^`]*`([^`]*)`;</script>").
Definition MP3_DOWNLOAD_REGEX :=
  re.compile (q "<a[^>]*href=`([^`]*)`[^>]*>This Page \(MP3\).*?</a>").
Definition MP3_DOWNLOAD_FILENAME_REGEX :=
  re.compile (py ".*/(.*\.mp3)\?lang=.*").
Definition MP3_MEDIAURL_REGEX :=
  re.compile (q "{`mediaUrl`:`([^`]*)`,`variant`:`audio`}").
Definition MP3_MEDIAURL_FILENAME_REGEX :=
  re.compile (py ".*/(.*\.mp3)").

Definition SESSIONS_REGEX :=
  re.compile (q "<a[^>]*href=`([^`]*)`[^>]*><div[^>]*><p><span[^>]*>([^<]*)</span></p></div></a><ul[^>]*>(.*?)</ul>").
Definition SESSION_TALKS_REGEX :=
  re.compile (q "<a[^>]*href=`([^`]*)`[^>]*><div[^>]*><p><span[^>]*>([^<]*)</span></p><p[^>]*>([^<]*)</p></div></a>").

Definition TOPICS_REGEX :=
  re.compile (q "<a[^>]*href=`([^`]*)`[^>]*><div[^>]*><div[^>]*><div[^>]*><h4[^>]*>([^<]*)</h4></div></div></div><hr[^>]*></a>").
Definition TOPIC_TALKS_REGEX :=
  re.compile (q "<a href=`([^`]*)`[^>]*><div[^>]*><div[^>]*><div[^>]*><div[^>]*><h6[^>]*>[^>]*><h6[^>]*>([^<]*)</h6></div></div><div[^>]*><h4[^>]*>([^<]*)</h4>").

(** Which progress bar the name [tqdm] is bound to when the script runs:
    the library's own, [DummyTqdm] or [GuiTqdm]. *)
Inductive bar := LibTqdm | DummyTqdm | GuiTqdm.

(** The argument namespace, with the fields the main block adds. *)
Record Args := {
  lang : str;
  speaker_min : Z;
  start : Z;
  end_ : Z;
  dest : str;
  nocleanup : bool;
  verbose : bool;
  nonumbers : bool;
  noplaylists : bool;
  min_year : Z;
  max_year : Z;
  cache_home : str;
  tqdm : bar
}.

(* ================================================================== *)
(** * The world                                                        *)
(* ================================================================== *)

(** A file: its text or audio stream, and the ID3 frames stamped on it. *)
Record file := File { content : str; id3 : list (str * str) }.

Inductive event :=
| HttpGet (url : str)
| CacheRead (path : str)
| CacheWrite (path : str).

(** [web] answers a page request with the document (unzipped and decoded)
    or fails; [media] does the same for an audio link.  [clicks] are the
    answers the progress window will give to the polls to come ([true]:
    Cancel was pressed or the window closed).  [running] is the flag of
    the [GuiTqdm] in use.  [log] records the accesses to cache and site,
    oldest first. *)
Record World := {
  web : str -> option str;
  media : str -> option str;
  clicks : list bool;
  fs : gmap str file;
  running : bool;
  log : list event
}.

Definition set_fs (f : gmap str file -> gmap str file) (w : World) : World :=
  {| web := web w; media := media w; clicks := clicks w; fs := f (fs w);
     running := running w; log := log w |}.

Definition set_running (b : bool) (w : World) : World :=
  {| web := web w; media := media w; clicks := clicks w; fs := fs w;
     running := b; log := log w |}.

Definition set_clicks (l : list bool) (w : World) : World :=
  {| web := web w; media := media w; clicks := l; fs := fs w;
     running := running w; log := log w |}.

Definition add_log (e : event) (w : World) : World :=
  {| web := web w; media := media w; clicks := clicks w; fs := fs w;
     running := running w; log := log w ++ [e] |}.

(** How a computation ends: with a value, by [sys.exit], or by an
    exception nobody catches. *)
Inductive outcome (A : Type) :=
| Ret (a : A)
| Exit (code : Z)
| Raise (what : str).
Arguments Ret {A} a.
Arguments Exit {A} code.
Arguments Raise {A} what.

Definition M (A : Type) : Type := World -> outcome A * World.

Definition ret {A} (a : A) : M A := fun w => (Ret a, w).

Definition bind {A B} (m : M A) (k : A -> M B) : M B :=
  fun w =>
    match m w with
    | (Ret a, w') => k a w'
    | (Exit c, w') => (Exit c, w')
    | (Raise e, w') => (Raise e, w')
    end.

Notation "'do' x <- m ; k" := (bind m (fun x => k))
  (at level 10, x name, m at level 100, k at level 200, only parsing).

Definition get {A} (f : World -> A) : M A := fun w => (Ret (f w), w).
Definition modify (f : World -> World) : M unit := fun w => (Ret tt, f w).
Definition raise {A} (what : string) : M A := fun w => (Raise (py what), w).

(** [for x in xs: ...] over an accumulator that the body may change; the
    body answers [true] to [break]. *)
Fixpoint for_each {X S} (body : X -> S -> M (S * bool)) (xs : list X) (s : S)
  : M S :=
  match xs with
  | [] => ret s
  | x :: xs' =>
      do r <- body x s;
      if snd r then ret (fst r) else for_each body xs' (fst r)
  end.

(** [for x in xs: ...] without [break]. *)
Definition for_in {X S} (body : X -> S -> M S) (xs : list X) (s : S) : M S :=
  for_each (fun x s => do s' <- body x s; ret (s', false)) xs s.

(** A value or an exception computed without touching the world. *)
Definition lift {A} (o : outcome A) : M A := fun w => (o, w).

(* ================================================================== *)
(** * Progress bars                                                    *)
(* ================================================================== *)

(** [GuiTqdm._check_events]: one poll of the window. *)
Definition _check_events : M unit :=
  fun w =>
    match clicks w with
    | [] => (Ret tt, w)
    | c :: rest =>
        (Ret tt, set_clicks rest (if c then set_running false w else w))
    end.

(** [progress_bar.set_description_str(desc)] *)
Definition set_description_str (args : Args) (desc : str) : M unit :=
  match tqdm args with
  | GuiTqdm => _check_events
  | _ => ret tt
  end.

(** [progress_bar.update(n)] *)
Definition update (args : Args) (n : Z) : M unit :=
  match tqdm args with
  | GuiTqdm => _check_events
  | _ => ret tt
  end.

(** [progress_bar.write(string)]: a title or a line of output, whatever
    the bar; no poll. *)
Definition write (args : Args) (s : str) : M unit := ret tt.

(** [hasattr(progress_bar, 'running') and not progress_bar.running] *)
Definition stopped (args : Args) : M bool :=
  match tqdm args with
  | GuiTqdm => get (fun w => negb (running w))
  | _ => ret false
  end.

(** [with tqdm(total=..., unit=...) as progress_bar: body].  A new
    [GuiTqdm] is running; when the block is left, however it is left,
    [GuiTqdm.__exit__] calls [sys.exit(2)] if it no longer is. *)
Definition with_tqdm {A} (args : Args) (body : M A) : M A :=
  fun w =>
    match tqdm args with
    | GuiTqdm =>
        let '(o, w') := body (set_running true w) in
        if running w' then (o, w') else (Exit 2, w')
    | _ => body w
    end.

(* ================================================================== *)
(** * The script                                                       *)
(* ================================================================== *)

(** A playlist entry: the dictionary [update_playlists] builds.  [year]
    is read with [.get('year')]. *)
Record entry := Entry {
  duration : Q;
  path : str;
  title : str;
  year : option Z
}.

(** The dictionary of playlists: keys in insertion order. *)
Definition playlists_t := list (str * list entry).

Definition has_key (k : str) (d : playlists_t) : bool :=
  existsb (fun kv => str_eqb k (fst kv)) d.

(** [d.setdefault(k, [])] *)
Definition setdefault (k : str) (d : playlists_t) : playlists_t :=
  if has_key k d then d else d ++ [(k, [])].

(** [d.get(k)] *)
Fixpoint lookup_key (k : str) (d : playlists_t) : option (list entry) :=
  match d with
  | [] => None
  | (k', v) :: d' => if str_eqb k k' then Some v else lookup_key k d'
  end.

(** The list [d[k]] changed in place. *)
Fixpoint change_key (k : str) (f : list entry -> list entry) (d : playlists_t)
  : playlists_t :=
  match d with
  | [] => []
  | (k', v) :: d' =>
      if str_eqb k k' then (k', f v) :: d' else (k', v) :: change_key k f d'
  end.

(** [d[k].append(e)] or [d[k].insert(0, e)]: [KeyError] without the key. *)
Definition in_place (k : str) (f : list entry -> list entry) (d : playlists_t)
  : M playlists_t :=
  if has_key k d then ret (change_key k f d) else raise "KeyError".

(** A truthy [int] or [None]. *)
Definition truthy (y : option Z) : bool :=
  match y with
  | Some n => negb (n =? 0)
  | None => false
  end.

(** [int(x)] for a float: towards zero. *)
Definition int_of_float (x : Q) : Z := Z.quot (Qnum x) (Zpos (Qden x)).

(** [x % m] for floats, [m] positive. *)
Definition float_mod (x m : Q) : Q := (x - m * inject_Z (Qfloor (x / m)))%Q.

Section Program.
Context `{PyLib}.

Definition decode (text : str) : str := unquote_plus text.

Definition get_cache_filename (args : Args) (url : str) : str :=
  cache_home args ++ py "/" ++ lang args ++ py "/" ++ url.

Definition add_to_cache (args : Args) (html : str) (url : str) : M unit :=
  let url := html_unescape url in
  let url := quote_plus url in
  let path := get_cache_filename args url in
  modify (fun w => add_log (CacheWrite path) (set_fs (insert path (File html [])) w)).

Definition get_from_cache (args : Args) (url : str) : M (option str) :=
  let url := html_unescape url in
  let url := quote_plus url in
  let path := get_cache_filename args url in
  do _ <- modify (add_log (CacheRead path));
  get (fun w => option_map content (fs w !! path)).

(** [urllib.request.urlopen] on a page, unzipped and decoded, inside the
    [try] of [get_html]. *)
Definition urlopen_html (url : str) : M (option str) :=
  do _ <- modify (add_log (HttpGet url));
  get (fun w => web w url).

(** The request headers play no part here.  Any failure of the request,
    of the unzipping or of the decoding is [None] from [web], and the
    empty text for the caller. *)
Definition get_html (args : Args) (url : str) (nocache : bool) : M str :=
  let url := html_unescape url in
  do cached <- (if negb nocache then get_from_cache args url else ret None);
  match cached with
  | Some (c :: cs) => ret (c :: cs)
  | _ =>
      do response <- urlopen_html url;
      match response with
      | Some html =>
          do _ <- (if negb nocache then add_to_cache args html url else ret tt);
          ret html
      | None => ret []
      end
  end.

Definition keepcharacters : list char := [ch " "; ch "-"; ch "_"; ch "."].

Definition clean_title (title : str) : str :=
  rstrip (List.filter (fun c => isalnum c || existsb (N.eqb c) keepcharacters)
            (html_data title)).

Definition get_conferences (args : Args) (conferences_html : str)
  : list Conference.t :=
  let conferences := re.findall true CONFERENCES_REGEX conferences_html in
  flat_map
    (fun conference =>
       match re.match_ false CONFERENCE_LINK_YEAR_MONTH_REGEX (nth 0 conference []) with
       | None => []
       | Some m =>
           let year := int_of_str (re.group m 1) in
           if (year <? start args) || (year >? end_ args) then []
           else
             let month := int_of_str (re.group m 2) in
             [Conference.mk (nth 0 conference []) (nth 1 conference []) year month]
       end)
    conferences.

(** One turn of the loop of [get_range_conferences]. *)
Definition scan_group (args : Args) (conference_group : list str)
    (result : list Conference.t) : M (list Conference.t) :=
  match re.match_ false CONFERENCE_GROUPS_RANGE_REGEX (nth 0 conference_group []) with
  | None => ret result
  | Some m =>
      let end_year := int_of_str (re.group m 2) in
      let start_year := int_of_str (re.group m 1) in
      if (end_year <? start args) || (start_year >? end_ args) then ret result
      else
        do conference_group_html <-
          get_html args (LDS_ORG_URL ++ decode (nth 0 conference_group [])) false;
        match conference_group_html with
        | [] => ret result
        | _ => ret (result ++ get_conferences args conference_group_html)
        end
  end.

Definition get_range_conferences (args : Args) (conferences_html : str)
  : M (list Conference.t) :=
  let conference_groups :=
    re.findall true CONFERENCE_GROUPS_REGEX conferences_html in
  for_in (scan_group args) conference_groups [].

Definition get_all_conferences (args : Args) : M (list Conference.t) :=
  do all_conferences_html <-
    get_html args (ALL_CONFERENCES_URL ++ py "?lang=" ++ lang args) (nocleanup args);
  let all_conferences := get_conferences args all_conferences_html in
  do ranged <- get_range_conferences args all_conferences_html;
  let all_conferences := all_conferences ++ ranged in
  ret (rev all_conferences).

(** [dict(pairs)]: a later pair replaces an earlier one with its key. *)
Definition dict_of_pairs (l : list (list str)) : gmap str str :=
  fold_left (fun d kv => <[nth 0 kv [] := nth 1 kv []]> d) l ∅.

Definition get_all_languages_map (args : Args) : M (gmap str str) :=
  do all_languages_html <-
    get_html args (LDS_ORG_URL ++ py "/languages") (nocleanup args);
  let all_languages_list := re.findall true GET_LANGS_REGEX all_languages_html in
  ret (dict_of_pairs all_languages_list).

Definition get_all_topics (args : Args) : M (list Topic.t) :=
  do all_topics_html <-
    get_html args (ALL_TOPICS_URL ++ py "?lang=" ++ lang args) (nocleanup args);
  ret (List.map (fun topic => Topic.mk (nth 0 topic []) (nth 1 topic []))
         (re.findall true TOPICS_REGEX all_topics_html)).

Definition get_all_talks_by_topic (args : Args) : M (list TalkByTopic.t) :=
  do all_topics <- get_all_topics args;
  with_tqdm args
    (do _ <- write args (py "Retrieving all topics");
     for_each
       (fun topic topic_talks =>
          do _ <- set_description_str args (Topic.topic topic);
          do topic_html <-
            get_html args (LDS_ORG_URL ++ decode (Topic.link topic)) (nocleanup args);
          let topic_talks :=
            topic_talks ++
            List.map (fun tt => TalkByTopic.mk (nth 0 tt []) (nth 1 tt [])
                                  (clean_title (nth 2 tt [])) (Topic.topic topic))
              (re.findall true TOPIC_TALKS_REGEX topic_html) in
          do _ <- update args 1;
          do stop <- stopped args;
          ret (topic_talks, stop))
       all_topics []).

(** The title of a sustaining or of a church audit report. *)
Definition sustaining_or_audit (title : str) : bool :=
  negb (find title (py "Sustaining of") =? -1)
  || startswith title (py "Church Auditing").

(** The [with] block of [get_all_talks]: the conferences are read one
    after the other, their sessions numbered by tens, and the talks kept
    that are neither a sustaining nor an audit report. *)
Definition collect_talks (args : Args) (all_conferences : list Conference.t)
    (all_talks_by_topic : list TalkByTopic.t) : M (list Talk.t) :=
  with_tqdm args
    (do _ <- write args
         (py "Retrieving all general conference sessions and talk links and titles");
     for_each
       (fun conference all_talks =>
          do conference_html <-
            get_html args (LDS_ORG_URL ++ decode (Conference.link conference))
              (nocleanup args);
          let sessions := re.findall true SESSIONS_REGEX conference_html in
          do all_talks <-
            for_each
              (fun numbered all_talks =>
                 let num := fst numbered in
                 let session_info := snd numbered in
                 do _ <- set_description_str args
                      (Conference.title conference ++ py "-" ++ nth 1 session_info []);
                 let session :=
                   Session.mk conference (nth 0 session_info [])
                     (nth 1 session_info []) (Z.of_nat num * 10) in
                 let talks :=
                   re.findall true SESSION_TALKS_REGEX (nth 2 session_info []) in
                 do all_talks <-
                   for_each
                     (fun talk_info all_talks =>
                        let title := clean_title (nth 1 talk_info []) in
                        let speaker := nth 2 talk_info [] in
                        let topics :=
                          List.map TalkByTopic.topic
                            (List.filter
                               (fun tbt =>
                                  str_eqb (TalkByTopic.title tbt) title
                                  && str_eqb (TalkByTopic.speaker tbt) speaker)
                               all_talks_by_topic) in
                        let all_talks :=
                          if (find title (py "Sustaining of") =? -1)
                             && negb (startswith title (py "Church Auditing"))
                          then all_talks ++
                               [Talk.mk session (nth 0 talk_info []) title speaker topics]
                          else all_talks in
                        do stop <- stopped args;
                        ret (all_talks, stop))
                     talks all_talks;
                 do stop <- stopped args;
                 ret (all_talks, stop))
              (combine (seq 1 (length sessions)) sessions) all_talks;
          do _ <- update args 1;
          do stop <- stopped args;
          ret (all_talks, stop))
       all_conferences []).

Definition get_all_talks (args : Args) : M (list Talk.t) :=
  do all_conferences <- get_all_conferences args;
  do all_talks_by_topic <-
    (if noplaylists args then ret [] else get_all_talks_by_topic args);
  collect_talks args all_conferences all_talks_by_topic.

(** What [get_audio] makes of the talk's page once it has it. *)
Definition audio_of_html (link_html : str) : outcome (option Audio.t) :=
  let mp3_link := re.search false MP3_DOWNLOAD_REGEX link_html in
  let match_ := re.search false SCRIPT_BASE64_REGEX link_html in
  match mp3_link with
  | Some mp3_link =>
      match re.match_ false MP3_DOWNLOAD_FILENAME_REGEX (re.group mp3_link 1) with
      | Some mp3_file => Ret (Some (Audio.mk (re.group mp3_link 1) (re.group mp3_file 1)))
      | None => Ret None
      end
  | None =>
      match match_ with
      | None => Ret None
      | Some match_ =>
          match b64decode_str (re.group match_ 1) with
          | None => Raise (py "binascii.Error")
          | Some script_data =>
              match re.search false MP3_MEDIAURL_REGEX script_data with
              | None => Ret None
              | Some mp3_link =>
                  match re.match_ false MP3_MEDIAURL_FILENAME_REGEX (re.group mp3_link 1) with
                  | Some mp3_file =>
                      Ret (Some (Audio.mk (re.group mp3_link 1) (re.group mp3_file 1)))
                  | None => Ret None
                  end
              end
          end
      end
  end.

Definition get_audio (args : Args) (talk : Talk.t) : M (option Audio.t) :=
  do link_html <- get_html args (LDS_ORG_URL ++ decode (Talk.link talk)) false;
  lift (audio_of_html link_html).

Definition isfile (p : str) : M bool :=
  get (fun w => match fs w !! p with Some _ => true | None => false end).

Definition write_mp3_to_disk (data : str) (filename : str) : M unit :=
  modify (set_fs (insert filename (File data []))).

(** [progress_bar.write(err, file=sys.stderr)] in the handler of
    [download_audio]: what is written is the exception, not a text.  The
    window shows it as its title; the library's bar hands it to
    [sys.stderr.write] and [DummyTqdm] adds a line end to it, and both of
    these raise [TypeError]. *)
Definition write_exception (args : Args) : M unit :=
  match tqdm args with
  | GuiTqdm => ret tt
  | _ => raise "TypeError"
  end.

(** The result is the truth value of what the script returns: [True]
    for a file already there, the bytes just fetched (false when there
    are none), [False] for a failed request, once the handler has gone
    through. *)
Definition download_audio (args : Args) (file_path : str) (audio : Audio.t)
  : M bool :=
  do present <- isfile file_path;
  if negb present then
    do response <- get (fun w => media w (Audio.link audio));
    match response with
    | Some data =>
        do _ <- write_mp3_to_disk data file_path;
        ret (match data with [] => false | _ => true end)
    | None =>
        do _ <- write_exception args;
        ret false
    end
  else ret true.

Definition get_month_path (args : Args) (conference : Conference.t) : str :=
  if Conference.month conference =? 4 then py "April" else py "October".

Definition get_output_dir (args : Args) : str :=
  dest args ++ py "/GeneralConference (" ++ lang args ++ py ")".

Definition get_session_path (args : Args) (session : Session.t) (no_numbers : bool)
  : str :=
  if nonumbers args || no_numbers then Session.title session
  else str_of_Z (Session.number session) ++ py "-" ++ Session.title session.

Definition get_year_path (args : Args) (conference : Conference.t) : str :=
  str_of_Z (Conference.year conference).

Definition get_relative_path (args : Args) (session : Session.t) : str :=
  py "MP3/" ++ get_year_path args (Session.conference session) ++ py "/"
  ++ get_month_path args (Session.conference session) ++ py "/"
  ++ get_session_path args session false.

Definition get_duration_text (duration_secs : Q) : str :=
  let mins := int_of_float (float_mod (duration_secs / 60) 60) in
  let hours := int_of_float (float_mod (duration_secs / (60 * 60)) 24) in
  let days := int_of_float (float_mod (duration_secs / (60 * 60 * 24)) 7) in
  let weeks := int_of_float (duration_secs / (60 * 60 * 24 * 7)) in
  let text := [] in
  let text := if negb (weeks =? 0) then text ++ str_of_Z weeks ++ py "w" else text in
  let text := if negb (days =? 0) then text ++ str_of_Z days ++ py "d" else text in
  let text := if negb (hours =? 0) then text ++ str_of_Z hours ++ py "h" else text in
  let text := if negb (mins =? 0) then text ++ str_of_Z mins ++ py "m" else text in
  text.

Definition str_of_year (y : option Z) : str :=
  match y with
  | Some n => str_of_Z n
  | None => py "None"
  end.

Definition get_playlist_info (first last : option Z) (count : Z) (duration_secs : Q)
  : str :=
  let text :=
    if truthy first && truthy last
    then str_of_year first ++ py "-" ++ str_of_year last ++ py ", "
    else [] in
  let text := if negb (count =? 0) then text ++ str_of_Z count ++ py ", " else text in
  text ++ get_duration_text duration_secs.

Definition create_playlists (args : Args) (all_talks : list Talk.t) : playlists_t :=
  fold_left
    (fun playlists talk =>
       let playlists := setdefault (py "Conferences/GC-All") playlists in
       let playlists :=
         setdefault (py "Speakers/GC-S-" ++ Talk.speaker talk) playlists in
       fold_left
         (fun playlists topic => setdefault (py "Topics/GC-T-" ++ topic) playlists)
         (Talk.topics talk) playlists)
    all_talks [].

(** [MP3(file_path).info.length]; mutagen raises on a missing file or on
    a stream it cannot read. *)
Definition MP3 (file_path : str) : M Q :=
  do f <- get (fun w => fs w !! file_path);
  match f with
  | Some f =>
      match mp3_length (content f) with
      | Some seconds => ret seconds
      | None => raise "mutagen.mp3.HeaderNotFoundError"
      end
  | None => raise "mutagen.MutagenError"
  end.

Fixpoint set_tag (k v : str) (tags : list (str * str)) : list (str * str) :=
  match tags with
  | [] => [(k, v)]
  | (k', v') :: tags' =>
      if str_eqb k k' then (k, v) :: tags' else (k', v') :: set_tag k v tags'
  end.

Definition the_church := py "The Church of Jesus Christ of Latter-day Saints".

(** The ID3 frames [download_all_content] sets on a file it has. *)
Definition stamp (args : Args) (talk : Talk.t) (file_path : str) : M unit :=
  do _ <- MP3 file_path;
  let talk_year := Conference.year (Session.conference (Talk.session talk)) in
  let talk_month := Conference.month (Session.conference (Talk.session talk)) in
  let relevant_years := 5 in
  let album :=
    if talk_year <? max_year args - relevant_years
    then py "GC " ++ str_of_Z (max_year args - relevant_years) ++ py "-"
         ++ str_of_Z (min_year args)
    else py "GC " ++ str_of_Z talk_year ++ py "-" ++ str_of_Z_02d talk_month in
  modify (set_fs (alter
    (fun f => File (content f)
       (set_tag (py "title") (Talk.title talk)
          (set_tag (py "composer") the_church
             (set_tag (py "organization") the_church
                (set_tag (py "albumartist") the_church
                   (set_tag (py "album") album (id3 f)))))))
    file_path)).

Definition update_playlists (args : Args) (playlists : playlists_t)
    (talk : Talk.t) (audio : Audio.t) : M playlists_t :=
  let relative_path := get_relative_path args (Talk.session talk) in
  do duration <-
    MP3 (get_output_dir args ++ py "/" ++ relative_path ++ py "/" ++ Audio.file audio);
  let item :=
    Entry duration (py "../" ++ relative_path ++ py "/" ++ Audio.file audio)
      (Talk.title talk)
      (Some (Conference.year (Session.conference (Talk.session talk)))) in
  do playlists <-
    in_place (py "Conferences/GC-All") (fun l => l ++ [item]) playlists;
  do playlists <-
    for_in (fun topic playlists =>
              in_place (py "Topics/GC-T-" ++ topic) (cons item) playlists)
      (Talk.topics talk) playlists;
  if negb (find (Talk.title talk) (py "Sustaining of") =? -1)
     || startswith (Talk.title talk) (py "Church Auditing")
  then ret playlists
  else in_place (py "Speakers/GC-S-" ++ Talk.speaker talk) (cons item) playlists.

(** [fnmatch], as [fnmatch.translate] of CPython reads a pattern.  A star
    stands for any run of characters, a question mark for any one
    character, a bracket that is closed further on for a class of
    characters, anything else for itself. *)
Inductive member : Type :=
  | One (c : char)
  | Range (lo hi : char).

Inductive piece : Type :=
  | Star
  | Class (negated : bool) (members : list member)
  | Lit (c : char).

(** The text up to the bracket that closes a class, and what follows it. *)
Fixpoint until_bracket (s : str) : option (str * str) :=
  match s with
  | [] => None
  | c :: s' =>
      if (c =? ch "]")%N then Some ([], s')
      else
        match until_bracket s' with
        | Some (body, rest) => Some (c :: body, rest)
        | None => None
        end
  end.

(** What follows an opening bracket: whether the class is negated, its
    text and the rest of the pattern.  A closing bracket that comes first
    belongs to the class. *)
Definition class_text (s : str) : option (bool * str * str) :=
  let '(negated, s1) :=
    match s with
    | c :: s' => if (c =? ch "!")%N then (true, s') else (false, s)
    | [] => (false, s)
    end in
  let '(lead, s2) :=
    match s1 with
    | c :: s' => if (c =? ch "]")%N then ([c], s') else ([], s1)
    | [] => ([], s1)
    end in
  match until_bracket s2 with
  | Some (body, rest) => Some (negated, lead ++ body, rest)
  | None => None
  end.

(** The members of a class.  A hyphen between two characters makes a range
    (an empty one is dropped); the first character, the one after a range
    and a hyphen at the end stand for themselves. *)
Fixpoint class_members (s : str) : list member :=
  match s with
  | [] => []
  | c :: rest =>
      match rest with
      | [] => [One c]
      | d :: s' =>
          if (d =? ch "-")%N then
            match s' with
            | [] => [One c; One d]
            | hi :: s'' =>
                (if (c <=? hi)%N then [Range c hi] else []) ++ class_members s''
            end
          else One c :: class_members rest
      end
  end.

(** The class a text between brackets stands for.  [fnmatch.translate]
    looks for the exclamation mark once the empty ranges are dropped, so a
    class that is not negated becomes so when one is then the first
    character left. *)
Definition class_piece (negated : bool) (body : str) : piece :=
  let members := class_members body in
  if negated then Class true members
  else
    match members with
    | One c :: rest =>
        if (c =? ch "!")%N then Class true rest else Class false members
    | Range lo hi :: rest =>
        if (lo =? ch "!")%N then Class true (One (ch "-") :: One hi :: rest)
        else Class false members
    | [] => Class false []
    end.

Fixpoint translate (fuel : nat) (pat : str) : list piece :=
  match fuel, pat with
  | S fuel', c :: pat' =>
      if (c =? ch "*")%N then Star :: translate fuel' pat'
      else if (c =? ch "?")%N then Class true [] :: translate fuel' pat'
      else if (c =? ch "[")%N then
        match class_text pat' with
        | Some (negated, body, rest) =>
            class_piece negated body :: translate fuel' rest
        | None => Lit c :: translate fuel' pat'
        end
      else Lit c :: translate fuel' pat'
  | _, _ => []
  end.

Definition accepts (p : piece) (x : char) : bool :=
  match p with
  | Star => true
  | Class negated members =>
      xorb negated
        (existsb (fun m => match m with
                           | One c => (x =? c)%N
                           | Range lo hi => (lo <=? x)%N && (x <=? hi)%N
                           end) members)
  | Lit c => (x =? c)%N
  end.

Fixpoint matches (pieces : list piece) : str -> bool :=
  match pieces with
  | [] => fun name => match name with [] => true | _ => false end
  | Star :: pieces' =>
      fix star (name : str) : bool :=
        matches pieces' name
        || match name with
           | _ :: name' => star name'
           | [] => false
           end
  | p :: pieces' =>
      fun name =>
        match name with
        | x :: name' => accepts p x && matches pieces' name'
        | [] => false
        end
  end.

Definition fnmatch (name pat : str) : bool :=
  matches (translate (length pat) pat) name.

Definition has_magic (s : str) : bool :=
  existsb (fun c => (c =? ch "*")%N || (c =? ch "?")%N || (c =? ch "[")%N) s.

Definition ishidden (s : str) : bool :=
  match s with
  | c :: _ => (c =? ch ".")%N
  | [] => false
  end.

(** The components of a path, between the slashes. *)
Fixpoint components (s : str) : list str :=
  match s with
  | [] => [[]]
  | c :: s' =>
      if (c =? ch "/")%N then [] :: components s'
      else
        match components s' with
        | first :: others => (c :: first) :: others
        | [] => [[c]]
        end
  end.

(** One component of a path against one component of the pattern: a
    component without wildcard is the name itself; one with a wildcard is
    matched by [fnmatch], and a name that begins with a dot only when the
    component does. *)
Definition component_match (pat name : str) : bool :=
  if has_magic pat then
    (ishidden pat || negb (ishidden name)) && fnmatch name pat
  else bool_decide (name = pat).

Fixpoint components_match (pats names : list str) : bool :=
  match pats, names with
  | [], [] => true
  | pat :: pats', name :: names' =>
      component_match pat name && components_match pats' names'
  | _, _ => false
  end.

(** [glob.glob] on the paths of the file system: the paths that match the
    pattern component by component. *)
Definition glob_match (pattern name : str) : bool :=
  components_match (components pattern) (components name).

Definition remove_playlist_files (file_pattern : str) : M unit :=
  modify (set_fs (filter (fun kv : str * file => glob_match file_pattern (fst kv) = false))).

Definition remove_cached_files (args : Args) : M unit :=
  modify (set_fs (filter (fun kv : str * file =>
    startswith (fst kv) (cache_home args ++ py "/" ++ lang args ++ py "/") = false))).

Definition newline : str := [10%N].

Definition sum_durations (playlist_data : list entry) : Q :=
  fold_left (fun total audio_info => (total + duration audio_info)%Q) playlist_data 0%Q.

(** The text of a playlist file. *)
Definition m3u (playlist_data : list entry) : str :=
  py "#EXTM3U" ++ newline ++ newline ++
  flat_map
    (fun audio_info =>
       (py "#EXTINF:" ++ get_duration_text (duration audio_info) ++ py ", "
        ++ title audio_info ++ newline)
       ++ replace_char (ch "/") (py "\") (path audio_info)
       ++ newline ++ newline)
    playlist_data.

Definition write_playlist_file (args : Args) (playlist_path : str)
    (playlist_data : list entry) : M unit :=
  do _ <- remove_playlist_files
            (get_output_dir args ++ py "/" ++ playlist_path ++ py "*.m3u");
  match playlist_data with
  | [] => ret tt
  | item0 :: _ =>
      let first := year item0 in
      let last := year (List.last playlist_data item0) in
      if negb (truthy first) || negb (truthy last)
         || (speaker_min args <=? Z.of_nat (length playlist_data))
      then
        let count := Z.of_nat (length playlist_data) in
        let playlist_info :=
          get_playlist_info first last count (sum_durations playlist_data) in
        let file_path :=
          get_output_dir args ++ py "/" ++ playlist_path ++ py "-("
          ++ playlist_info ++ py ").m3u" in
        modify (set_fs (insert file_path (File (m3u playlist_data) [])))
      else ret tt
  end.

Definition write_playlists (args : Args) (playlists : playlists_t) : M unit :=
  with_tqdm args
    (do _ <- write args (py "Writing playlists");
     for_each
       (fun kv (_ : unit) =>
          do _ <- set_description_str args (fst kv ++ py ".m3u");
          do _ <- write_playlist_file args (fst kv) (snd kv);
          do _ <- update args 1;
          do stop <- stopped args;
          ret (tt, stop))
       playlists tt).

(** One turn of the loop of [download_all_content]: the talk's page, its
    audio file, the ID3 frames and the playlists; the result also says
    whether the loop breaks. *)
Definition download_talk (args : Args) (talk : Talk.t) (playlists : playlists_t)
  : M (playlists_t * bool) :=
  do _ <- set_description_str args (Talk.title talk);
  do audio <- get_audio args talk;
  do playlists <-
    match audio with
    | Some audio =>
        let relpath := get_relative_path args (Talk.session talk) in
        let file_path :=
          get_output_dir args ++ py "/" ++ relpath ++ py "/" ++ Audio.file audio in
        do downloaded <- download_audio args file_path audio;
        if downloaded then
          do _ <- stamp args talk file_path;
          if negb (noplaylists args)
          then update_playlists args playlists talk audio
          else ret playlists
        else ret playlists
    | None => ret playlists
    end;
  do _ <- update args 1;
  do stop <- stopped args;
  ret (playlists, stop).

(** The [with] block of [download_all_content]. *)
Definition download_talks (args : Args) (all_talks : list Talk.t)
    (playlists : playlists_t) : M playlists_t :=
  with_tqdm args
    (do _ <- write args
         (if noplaylists args then py "Retrieving talk audio files"
          else py "Retrieving talk audio files and updating playlists");
     for_each (download_talk args) all_talks playlists).

Definition download_all_content (args : Args) : M unit :=
  do all_talks <- get_all_talks args;
  let playlists :=
    if negb (noplaylists args) then create_playlists args all_talks else [] in
  do playlists <- download_talks args all_talks playlists;
  do _ <- (if negb (noplaylists args) then write_playlists args playlists else ret tt);
  if negb (nocleanup args) then remove_cached_files args else ret tt.

(** [args] with its first year, and with its last year, replaced. *)
Definition set_start (y : Z) (args : Args) : Args :=
  {| lang := lang args; speaker_min := speaker_min args; start := y;
     end_ := end_ args; dest := dest args; nocleanup := nocleanup args;
     verbose := verbose args; nonumbers := nonumbers args;
     noplaylists := noplaylists args; min_year := min_year args;
     max_year := max_year args; cache_home := cache_home args; tqdm := tqdm args |}.

Definition set_end (y : Z) (args : Args) : Args :=
  {| lang := lang args; speaker_min := speaker_min args; start := start args;
     end_ := y; dest := dest args; nocleanup := nocleanup args;
     verbose := verbose args; nonumbers := nonumbers args;
     noplaylists := noplaylists args; min_year := min_year args;
     max_year := max_year args; cache_home := cache_home args; tqdm := tqdm args |}.

(** [validate_args].  The script updates the namespace in place; here the
    updated namespace is handed over, with the map of the languages.  What
    is written to the standard error before [sys.exit(1)] is left out. *)
Definition validate_args (args : Args) : M (Args * gmap str str) :=
  do lang_map <- get_all_languages_map args;
  match lang_map !! lang args with
  | None => lift (Exit 1)
  | Some _ =>
      let args :=
        if start args >? max_year args then set_start (max_year args) args else args in
      let args :=
        if start args <? min_year args then set_start (min_year args) args else args in
      let args :=
        if end_ args >? max_year args then set_end (max_year args) args else args in
      let args :=
        if end_ args <? min_year args then set_end (min_year args) args else args in
      let args :=
        if start args >? end_ args
        then set_end (start args) (set_start (end_ args) args)
        else args in
      ret (args, lang_map)
  end.

End Program.

(* ================================================================== *)
(** * A library instance and a small site to run the script on         *)
(* ================================================================== *)

Module Sample.

(** ** The library on ASCII text

    These functions agree with Python's on the texts used below: ASCII,
    without character references, with well-formed base64. *)

Definition hex_digit (n : N) : char :=
  (if n <? 10 then 48 + n else 55 + n)%N.

Definition percent (b : N) : str :=
  [ch "%"; hex_digit (b / 16); hex_digit (b mod 16)].

(** UTF-8 *)
Definition encode (c : char) : list N :=
  (if c <? 128 then [c]
   else if c <? 2048 then [192 + c / 64; 128 + c mod 64]
   else if c <? 65536 then [224 + c / 4096; 128 + (c / 64) mod 64; 128 + c mod 64]
   else [240 + c / 262144; 128 + (c / 4096) mod 64; 128 + (c / 64) mod 64;
         128 + c mod 64])%N.

Definition unreserved (c : char) : bool :=
  ascii_digit c || ascii_upper c || ascii_lower c
  || existsb (N.eqb c) [ch "_"; ch "."; ch "-"; ch "~"].

Definition quote_plus_ascii (s : str) : str :=
  flat_map (fun c => if unreserved c then [c]
                     else if (c =? 32)%N then [ch "+"]
                     else flat_map percent (encode c)) s.

Definition hex_value (c : char) : option N :=
  if ascii_digit c then Some (c - 48)%N
  else if ((65 <=? c) && (c <=? 70))%N then Some (c - 55)%N
  else if ((97 <=? c) && (c <=? 102))%N then Some (c - 87)%N
  else None.

(** [%XX] below 128 is decoded; everything else is left as it stands. *)
Fixpoint unquote (s : str) : str :=
  match s with
  | [] => []
  | c :: s' =>
      match s' with
      | a :: b :: rest =>
          match hex_value a, hex_value b with
          | Some x, Some y =>
              if (c =? ch "%")%N && (x <? 8)%N
              then (x * 16 + y)%N :: unquote rest
              else c :: unquote s'
          | _, _ => c :: unquote s'
          end
      | _ => c :: unquote s'
      end
  end.

Definition unquote_plus_ascii (s : str) : str :=
  unquote (replace_char (ch "+") (py " ") s).

(** Markup goes, text stays: what lies between [<] and the next [>] is
    dropped. *)
Fixpoint strip_tags (inside : bool) (s : str) : str :=
  match s with
  | [] => []
  | c :: s' =>
      if inside then strip_tags (negb (c =? ch ">")%N) s'
      else if (c =? ch "<")%N then strip_tags true s'
      else c :: strip_tags false s'
  end.

Definition b64_value (c : char) : option N :=
  if ascii_upper c then Some (c - 65)%N
  else if ascii_lower c then Some (c - 71)%N
  else if ascii_digit c then Some (c + 4)%N
  else if (c =? ch "+")%N then Some 62%N
  else if (c =? ch "/")%N then Some 63%N
  else None.

Fixpoint b64_bytes (sextets : list N) : list N :=
  match sextets with
  | a :: b :: c :: d :: rest =>
      (a * 4 + b / 16)%N :: ((b mod 16) * 16 + c / 4)%N
      :: ((c mod 4) * 64 + d)%N :: b64_bytes rest
  | [a; b; c] => [(a * 4 + b / 16)%N; ((b mod 16) * 16 + c / 4)%N]
  | [a; b] => [(a * 4 + b / 16)%N]
  | _ => []
  end.

Fixpoint sextets (s : str) : option (list N) :=
  match s with
  | [] => Some []
  | c :: s' =>
      if (c =? ch "=")%N then Some []
      else match b64_value c, sextets s' with
           | Some v, Some vs => Some (v :: vs)
           | _, _ => None
           end
  end.

(** [repr] of a bytes object. *)
Definition repr_byte (quote : char) (b : N) : str :=
  if (b =? ch "\")%N then py "\\"
  else if (b =? quote)%N then [ch "\"; b]
  else if (b =? 9)%N then py "\t"
  else if (b =? 10)%N then py "\n"
  else if (b =? 13)%N then py "\r"
  else if ((32 <=? b) && (b <? 127))%N then [b]
  else py "\x" ++ [hex_digit (b / 16) + (if (b / 16 <? 10)%N then 0 else 32);
                   hex_digit (b mod 16) + (if (b mod 16 <? 10)%N then 0 else 32)]%N.

Definition repr_bytes (bs : list N) : str :=
  let quote :=
    if existsb (N.eqb (ch "'")) bs && negb (existsb (N.eqb dquote) bs)
    then dquote else ch "'" in
  ch "b" :: quote :: flat_map (repr_byte quote) bs ++ [quote].

Definition b64decode_repr (s : str) : option str :=
  option_map (fun v => repr_bytes (b64_bytes v)) (sextets s).

(** A stand-in for mutagen: a stream that begins [ID3] plays ten seconds
    for each of its bytes. *)
Definition seconds_of (data : str) : option Q :=
  if startswith data (py "ID3") then Some (inject_Z (10 * Z.of_nat (length data)))
  else None.

#[export] Instance lib : PyLib := {|
  uni_alnum := fun _ => false;
  uni_decimal := fun _ => None;
  html_unescape := fun s => s;
  quote_plus := quote_plus_ascii;
  unquote_plus := unquote_plus_ascii;
  html_data := strip_tags false;
  b64decode_str := b64decode_repr;
  mp3_length := seconds_of
|}.


(** ** A site

    An index with one conference of its own (April 2021) and one group
    (2010-2019) whose page lists October 2019 and April 2018; a topic
    index with one topic; the pages of five talks. *)

Definition index_html : str := q
  "<ul><li><a class=`c` href=`/study/general-conference/2021/04?lang=eng`><div class=`i`><img src=`a.jpg`></div><span class=`t`>April 2021</span></a></li><li><a class=`c` href=`/study/general-conference/20102019?lang=eng`><div class=`i`><img src=`b.jpg`></div><span class=`t`>2010-2019</span></a></li></ul>".

Definition group_html : str := q
  "<ul><li><a class=`c` href=`/study/general-conference/2019/10?lang=eng`><div class=`i`><img src=`c.jpg`></div><span class=`t`>October 2019</span></a></li><li><a class=`c` href=`/study/general-conference/2018/04?lang=eng`><div class=`i`><img src=`d.jpg`></div><span class=`t`>April 2018</span></a></li></ul>".

Definition conference_2021_04 : str := q
  "<nav><a href=`/study/general-conference/2021/04/saturday-morning-session?lang=eng`><div class=`s`><p><span class=`n`>Saturday Morning Session</span></p></div></a><ul class=`l`><li><a href=`/study/general-conference/2021/04/11nelson?lang=eng`><div class=`k`><p><span class=`n`>Welcome Message</span></p><p class=`a`>Russell M. Nelson</p></div></a></li><li><a href=`/study/general-conference/2021/04/21oaks?lang=eng`><div class=`k`><p><span class=`n`>Sustaining of General Authorities</span></p><p class=`a`>Dallin H. Oaks</p></div></a></li></ul></nav>".

Definition conference_2019_10 : str := q
  "<nav><a href=`/study/general-conference/2019/10/saturday-morning-session?lang=eng`><div class=`s`><p><span class=`n`>Saturday Morning Session</span></p></div></a><ul class=`l`><li><a href=`/study/general-conference/2019/10/11holland?lang=eng`><div class=`k`><p><span class=`n`>The Message</span></p><p class=`a`>Jeffrey R. Holland</p></div></a></li></ul></nav>".

Definition conference_2018_04 : str := q
  "<nav><a href=`/study/general-conference/2018/04/saturday-afternoon-session?lang=eng`><div class=`s`><p><span class=`n`>Saturday Afternoon Session</span></p></div></a><ul class=`l`><li><a href=`/study/general-conference/2018/04/audit?lang=eng`><div class=`k`><p><span class=`n`>Church Auditing Department Report</span></p><p class=`a`>Kevin R. Jergensen</p></div></a></li><li><a href=`/study/general-conference/2018/04/small?lang=eng`><div class=`k`><p><span class=`n`>Small and Simple Things</span></p><p class=`a`>Dallin H. Oaks</p></div></a></li></ul></nav>".

Definition topics_html : str := q
  "<main><a href=`/study/general-conference/topics/faith?lang=eng`><div class=`a`><div class=`b`><div class=`c`><h4 class=`d`>Faith</h4></div></div></div><hr class=`e`></a></main>".

Definition topic_faith_html : str := q
  "<main><a href=`/study/general-conference/2021/04/21oaks?lang=eng` class=`r`><div class=`a`><div class=`b`><div class=`c`><div class=`d`><h6 class=`e`>April 2021</h6><h6 class=`f`>Dallin H. Oaks</h6></div></div><div class=`g`><h4 class=`h`>Sustaining of General Authorities</h4></div></div></div></a><a href=`/study/general-conference/2018/04/small?lang=eng` class=`r`><div class=`a`><div class=`b`><div class=`c`><div class=`d`><h6 class=`e`>April 2018</h6><h6 class=`f`>Dallin H. Oaks</h6></div></div><div class=`g`><h4 class=`h`>Small and Simple Things</h4></div></div></div></a></main>".

(** A talk page with the download anchor. *)
Definition talk_html (file : string) : str :=
  q "<html><body><a class=`dl` href=`https://media.example/" ++ py file
  ++ q ".mp3?lang=eng` download>This Page (MP3)</a></body></html>".

(** A talk page with the page state only; the blob is the base64 of
    [{"mediaUrl":"https://media.example/2019-10-1010-holland.mp3","variant":"audio"}]. *)
Definition talk_2019_html : str := q
  "<html><head><script>window.__INITIAL_STATE__=`eyJtZWRpYVVybCI6Imh0dHBzOi8vbWVkaWEuZXhhbXBsZS8yMDE5LTEwLTEwMTAtaG9sbGFuZC5tcDMiLCJ2YXJpYW50IjoiYXVkaW8ifQ==`;</script></head><body></body></html>".

(** A page with neither. *)
Definition music_html : str := q
  "<html><body><p>The choir sang.</p></body></html>".

Definition pages : list (str * str) :=
  [ (ALL_CONFERENCES_URL ++ py "?lang=eng", index_html);
    (LDS_ORG_URL ++ py "/study/general-conference/20102019?lang=eng", group_html);
    (LDS_ORG_URL ++ py "/study/general-conference/2021/04?lang=eng", conference_2021_04);
    (LDS_ORG_URL ++ py "/study/general-conference/2019/10?lang=eng", conference_2019_10);
    (LDS_ORG_URL ++ py "/study/general-conference/2018/04?lang=eng", conference_2018_04);
    (ALL_TOPICS_URL ++ py "?lang=eng", topics_html);
    (LDS_ORG_URL ++ py "/study/general-conference/topics/faith?lang=eng", topic_faith_html);
    (LDS_ORG_URL ++ py "/study/general-conference/2021/04/11nelson?lang=eng",
     talk_html "2021-04-1010-nelson");
    (LDS_ORG_URL ++ py "/study/general-conference/2021/04/21oaks?lang=eng",
     talk_html "2021-04-1020-oaks");
    (LDS_ORG_URL ++ py "/study/general-conference/2019/10/11holland?lang=eng",
     talk_2019_html);
    (LDS_ORG_URL ++ py "/study/general-conference/2018/04/audit?lang=eng",
     talk_html "2018-04-2010-audit");
    (LDS_ORG_URL ++ py "/study/general-conference/2018/04/small?lang=eng",
     talk_html "2018-04-2020-oaks") ].

Fixpoint assoc (k : str) (l : list (str * str)) : option str :=
  match l with
  | [] => None
  | (k', v) :: l' => if str_eqb k k' then Some v else assoc k l'
  end.

(** Every audio link answers with a short stream. *)
Definition audio_server (url : str) : option str :=
  if endswith url (py ".mp3") || negb (find url (py ".mp3?") =? -1)
  then Some (py "ID3 audio") else None.

(** The world before the first run: an empty disk, nobody at the window. *)
Definition world (clicks : list bool) : World :=
  {| web := fun url => assoc url pages;
     media := audio_server;
     clicks := clicks;
     fs := ∅;
     running := true;
     log := [] |}.

(** The defaults of the command line, for the years 2015 to 2021, with
    the first year, the bar and two of the flags left open. *)
Definition settings (first_year : Z) (b : bar) (keep_cache no_playlists : bool)
  : Args :=
  {| lang := py "eng"; speaker_min := 3; start := first_year; end_ := 2021;
     dest := py "/music"; nocleanup := keep_cache; verbose := false;
     nonumbers := false; noplaylists := no_playlists; min_year := 1971;
     max_year := 2021; cache_home := py "/home/.lds_gc_cache";
     tqdm := b |}.

Definition args : Args := settings 2015 LibTqdm false false.

(** The page of the languages, with two of them. *)
Definition languages_html : str := q
  "<ul><li><a href=`?lang=eng` data-lang=`en` data-clang=`eng`>English</a></li><li><a href=`?lang=spa` data-lang=`es` data-clang=`spa`>Espanol</a></li></ul>".

(** The world before the first run, the page of the languages within
    reach. *)
Definition world_with_languages : World :=
  {| web := fun url =>
       assoc url ((LDS_ORG_URL ++ py "/languages", languages_html) :: pages);
     media := audio_server;
     clicks := [];
     fs := ∅;
     running := true;
     log := [] |}.

(** A talk of the sample site, its recording, and a disk that holds the
    recording. *)
Definition small_talk : Talk.t :=
  Talk.mk
    (Session.mk
       (Conference.mk (py "/study/general-conference/2018/04?lang=eng")
          (py "April 2018") 2018 4)
       (py "/study/general-conference/2018/04/saturday-afternoon-session?lang=eng")
       (py "Saturday Afternoon Session") 10)
    (py "/study/general-conference/2018/04/small?lang=eng")
    (py "Small and Simple Things") (py "Dallin H. Oaks") [py "Faith"].

Definition small_audio : Audio.t :=
  Audio.mk (py "https://media.example/2018-04-2020-oaks.mp3?lang=eng")
    (py "2018-04-2020-oaks.mp3").

Definition world_with_recording : World :=
  {| web := fun _ => None;
     media := fun _ => None;
     clicks := [];
     fs := {[ get_output_dir args ++ py "/"
              ++ get_relative_path args (Talk.session small_talk) ++ py "/"
              ++ Audio.file small_audio
              := File (py "ID3 audio") [] ]};
     running := true;
     log := [] |}.

End Sample.


(* ================================================================== *)
(** * Notions used in the statements                                   *)
(* ================================================================== *)

(** One component of a duration text: the number and its unit, nothing
    for zero. *)
Definition component (n : Z) (unit : string) : str :=
  if n =? 0 then [] else str_of_Z n ++ py unit.

Section Notions.
Context `{PyLib}.

(** The characters [clean_title] keeps. *)
Definition kept (c : char) : bool :=
  isalnum c || existsb (N.eqb c) keepcharacters.

(** The path of the cache file of a page. *)
Definition cache_path (args : Args) (url : str) : str :=
  get_cache_filename args (quote_plus (html_unescape (html_unescape url))).

(** What the standard parser does with a text that has no markup in it:
    it hands the text over as it is. *)
Definition parser_passes_plain_text : Prop :=
  forall s : str,
    Forall (fun c => c <> ch "<" /\ c <> ch "&") s -> html_data s = s.

(** A talk's topics, joined from the talks by topic on title and speaker. *)
Definition joined_topics (all_talks_by_topic : list TalkByTopic.t)
    (title speaker : str) : list str :=
  List.map TalkByTopic.topic
    (List.filter
       (fun tbt => str_eqb (TalkByTopic.title tbt) title
                   && str_eqb (TalkByTopic.speaker tbt) speaker)
       all_talks_by_topic).

(** A computation that can only hand over values with [P]. *)
Definition yields {A} (m : M A) (P : A -> Prop) : Prop :=
  forall w a w', m w = (Ret a, w') -> P a.

(** A computation whose every run, however it ends, takes the world to
    one related by [R]. *)
Definition respects {A} (R : World -> World -> Prop) (m : M A) : Prop :=
  forall w o w', m w = (o, w') -> R w w'.

(** What [get_all_talks] guarantees of a talk it keeps: its topics are
    those joined on its title and speaker, and its title is that of
    neither a sustaining nor an audit report. *)
Definition well_formed_talk (all_talks_by_topic : list TalkByTopic.t)
    (T : Talk.t) : Prop :=
  Talk.topics T = joined_topics all_talks_by_topic (Talk.title T) (Talk.speaker T)
  /\ sustaining_or_audit (Talk.title T) = false.

(** Order of conferences by year, then month. *)
Definition earlier (a b : Conference.t) : Prop :=
  Conference.year a < Conference.year b
  \/ (Conference.year a = Conference.year b
      /\ Conference.month a < Conference.month b).

Definition oldest_first (l : list Conference.t) : Prop :=
  StronglySorted earlier l.

Definition newest_first (l : list Conference.t) : Prop :=
  StronglySorted (fun a b => earlier b a) l.

Definition in_requested_range (args : Args) (c : Conference.t) : Prop :=
  start args <= Conference.year c <= end_ args.

(** Accesses to the cache, as opposed to requests to the site. *)
Definition is_cache_event (e : event) : bool :=
  match e with
  | CacheRead _ | CacheWrite _ => true
  | HttpGet _ => false
  end.

(** From [w] to [w'] the cache was left alone: no file changed, and
    whatever was logged is a request to the site. *)
Definition bypassed (w w' : World) : Prop :=
  fs w' = fs w
  /\ exists requests,
       log w' = log w ++ requests
       /\ Forall (fun e => is_cache_event e = false) requests.

(** The value a computation handed over, if it did. *)
Definition returned {A} (r : outcome A * World) : option A :=
  match fst r with
  | Ret a => Some a
  | _ => None
  end.

Definition year_month (c : Conference.t) : Z * Z :=
  (Conference.year c, Conference.month c).

(** No entry of any playlist is a sustaining or an audit report. *)
Definition no_sustaining (playlists : playlists_t) : Prop :=
  Forall
    (fun kv =>
       Forall (fun item => sustaining_or_audit (title item) = false) (snd kv))
    playlists.

(** The playlists [download_all_content] starts the download with. *)
Definition initial_playlists (args : Args) (all_talks : list Talk.t) : playlists_t :=
  if negb (noplaylists args) then create_playlists args all_talks else [].

(** Whether the years in the link of a group of conferences overlap the
    requested years. *)
Definition overlaps (args : Args) (conference_group : list str) : bool :=
  match re.match_ false CONFERENCE_GROUPS_RANGE_REGEX (nth 0 conference_group []) with
  | Some m =>
      negb ((int_of_str (re.group m 2) <? start args)
            || (int_of_str (re.group m 1) >? end_ args))
  | None => false
  end.

(** The conferences a document lists, whatever the years asked for:
    the entries whose link gives a year and a month, in the order of the
    document. *)
Definition listed_conferences (html : str) : list Conference.t :=
  flat_map
    (fun conference =>
       match re.match_ false CONFERENCE_LINK_YEAR_MONTH_REGEX (nth 0 conference []) with
       | None => []
       | Some m =>
           [Conference.mk (nth 0 conference []) (nth 1 conference [])
              (int_of_str (re.group m 1)) (int_of_str (re.group m 2))]
       end)
    (re.findall true CONFERENCES_REGEX html).

(** Whether the year of a conference is one of the years asked for. *)
Definition requested (args : Args) (c : Conference.t) : bool :=
  negb ((Conference.year c <? start args) || (Conference.year c >? end_ args)).

(** The pages of the groups that overlap the requested years, fetched
    (through the cache) one after the other in the order of [groups], and
    the world after the last of them.  [get_html] always returns a page
    (a failed request gives the empty one), so the other branch is never
    taken. *)
Fixpoint group_pages (args : Args) (groups : list (list str)) (w : World)
  : list str * World :=
  match groups with
  | [] => ([], w)
  | g :: gs =>
      if overlaps args g then
        match get_html args (LDS_ORG_URL ++ decode (nth 0 g [])) false w with
        | (Ret page, w1) =>
            let '(pages, w') := group_pages args gs w1 in (page :: pages, w')
        | (_, w1) => ([], w1)
        end
      else group_pages args gs w
  end.

(** Where the recording of a talk is stored. *)
Definition audio_path (args : Args) (talk : Talk.t) (audio : Audio.t) : str :=
  get_output_dir args ++ py "/" ++ get_relative_path args (Talk.session talk)
  ++ py "/" ++ Audio.file audio.

(** What one turn of the download loop that goes through has done with
    the playlists: they are as they were unless the talk has a recording,
    the recording is on the disk or could be fetched, its file has been
    tagged and playlists are wanted; then they are what [update_playlists]
    made of them. *)
Definition carried_through (args : Args) (talk : Talk.t)
    (playlists playlists' : playlists_t) (wa : World) : Prop :=
  exists (audio : option Audio.t) (w0 w1 : World),
    set_description_str args (Talk.title talk) wa = (Ret tt, w0)
    /\ get_audio args talk w0 = (Ret audio, w1)
    /\ match audio with
       | None => playlists' = playlists
       | Some audio =>
           exists (downloaded : bool) (w2 : World),
             download_audio args (audio_path args talk audio) audio w1
               = (Ret downloaded, w2)
             /\ if downloaded then
                  exists w3 : World,
                    stamp args talk (audio_path args talk audio) w2 = (Ret tt, w3)
                    /\ if noplaylists args then playlists' = playlists
                       else exists w4 : World,
                              update_playlists args playlists talk audio w3
                                = (Ret playlists', w4)
                else playlists' = playlists
       end.

(** From [w] to [w'] the window was polled and answered [seen]; the bar
    is no longer running as soon as one answer was Cancel. *)
Definition polled (w w' : World) : Prop :=
  exists seen : list bool,
    clicks w = seen ++ clicks w'
    /\ running w' = if existsb (fun c => c) seen then false else running w.

(** The namespace [args] with its two years replaced. *)
Definition with_years (args : Args) (s e : Z) : Args := set_end e (set_start s args).

(** The keys of the dictionary of playlists, in insertion order. *)
Definition keys (d : playlists_t) : list str := List.map fst d.

(** The keys [create_playlists] makes for a talk, and [update_playlists]
    uses for it. *)
Definition playlist_keys (talk : Talk.t) : list str :=
  py "Conferences/GC-All"
  :: (py "Speakers/GC-S-" ++ Talk.speaker talk)
  :: List.map (fun topic => py "Topics/GC-T-" ++ topic) (Talk.topics talk).

(** How many of [topics] have the playlist [k]. *)
Definition topic_count (k : str) (topics : list str) : nat :=
  length (List.filter (fun topic => str_eqb k (py "Topics/GC-T-" ++ topic)) topics).

(** The entry [update_playlists] makes of a talk whose file plays for
    [seconds]. *)
Definition playlist_item (args : Args) (talk : Talk.t) (audio : Audio.t)
    (seconds : Q) : entry :=
  Entry seconds
    (py "../" ++ get_relative_path args (Talk.session talk) ++ py "/" ++ Audio.file audio)
    (Talk.title talk)
    (Some (Conference.year (Session.conference (Talk.session talk)))).

(** [triple P m Q X E]: run from a world with [P], the computation [m]
    hands over a value and a world with [Q], or exits with a status in
    [X], or raises an exception in [E]. *)
Definition triple {A} (P : World -> Prop) (m : M A) (Q : A -> World -> Prop)
    (X : Z -> Prop) (E : str -> Prop) : Prop :=
  forall w o w',
    P w -> m w = (o, w') ->
    match o with
    | Ret a => Q a w'
    | Exit c => X c
    | Raise e => E e
    end.

(** [calm X E m]: [m] exits with a status in [X] or raises in [E] only. *)
Definition calm {A} (X : Z -> Prop) (E : str -> Prop) (m : M A) : Prop :=
  triple (fun _ => True) m (fun _ _ => True) X E.

(** From [w] to [w'] no file went away, and no file that was not empty
    changed but for its tags. *)
Definition keeps (w w' : World) : Prop :=
  forall p f,
    fs w !! p = Some f ->
    exists f', fs w' !! p = Some f' /\ (content f <> [] -> content f' = content f).

(** The file a playlist entry points at from the directory of its
    playlist is on the disk. *)
Definition on_disk (args : Args) (w : World) (item : entry) : Prop :=
  exists rel,
    path item = py "../" ++ rel
    /\ is_Some (fs w !! (get_output_dir args ++ py "/" ++ rel)).

(** Every entry of every playlist points at a file on the disk. *)
Definition entries_on_disk (args : Args) (d : playlists_t) (w : World) : Prop :=
  Forall (fun kv => Forall (on_disk args w) (snd kv)) d.

(** The dictionary has the keys of every talk. *)
Definition covers (all_talks : list Talk.t) (d : playlists_t) : Prop :=
  forall talk k, In talk all_talks -> In k (playlist_keys talk) -> In k (keys d).

(** The ways a run is allowed to end: [sys.exit(2)] under the window's
    bar; an exception other than [KeyError] and mutagen's error for a
    file that is not there. *)
Definition run_exit (args : Args) (c : Z) : Prop := c = 2 /\ tqdm args = GuiTqdm.

Definition run_error (e : str) : Prop :=
  e <> py "KeyError" /\ e <> py "mutagen.MutagenError".

(** What holds of the playlists all along the download. *)
Definition playlists_sound (args : Args) (all_talks : list Talk.t)
    (d : playlists_t) (w : World) : Prop :=
  entries_on_disk args d w /\ (noplaylists args = false -> covers all_talks d).







(** The characters of [u] taken one after the other. *)
Definition take_chars (u : str) (g : re.groups) : re.groups :=
  fold_left (fun g c => re.take_char c g) u g.




End Notions.

(* ================================================================== *)
(** * The fuel of the scanner and of the pattern reader                *)
(* ================================================================== *)

(** [findall] never runs out of fuel: more fuel than the text is long
    gives the same matches, however much more. *)
Lemma findall_from_enough `{PyLib} (dotall : bool) (r : re.regex) :
  forall (fuel1 fuel2 : nat) (s : str),
    (length s < fuel1)%nat -> (length s < fuel2)%nat ->
    re.findall_from dotall fuel1 r s = re.findall_from dotall fuel2 r s.
Proof.
  induction fuel1 as [| fuel1 IH]; intros fuel2 s H1 H2; [lia |].
  destruct fuel2 as [| fuel2]; [lia |]. simpl.
  destruct (re.run dotall r s re.no_groups) as [[gs rest] |].
  - f_equal. destruct (length rest <? length s)%nat eqn:Eshorter.
    + apply Nat.ltb_lt in Eshorter. apply IH; lia.
    + destruct s as [| c s']; [reflexivity |]. simpl in *. apply IH; lia.
  - destruct s as [| c s']; [reflexivity |]. simpl in *. apply IH; lia.
Qed.

(** The patterns of the script are read to their end: twice the fuel
    reads the same expression. *)
Lemma patterns_read_whole :
  Forall (fun pattern : str =>
            re.parse (2 * length pattern) pattern = re.compile pattern)
    [ q "data-lang=`.*?` data-clang=`(.*?)`>(.*?)</a>";
      q "<a[^>]*href=`([^`]*)`[^>]*><div[^>]*><img[^>]*></div><span[^>]*>([A-Z][a-z]* \d{4})</span></a>";
      q "<a[^>]*href=`([^`]*)`[^>]*><div[^>]*><img[^>]*></div><span[^>]*>(\d{4}.\d{4})</span></a>";
      py ".*/(\d{4})(\d{4})\?lang=.*";
      py ".*(\d{4})/(\d{2})\?lang=.*";
      q "<script>window.__INITIAL_STATE__[^`]*`([^`]*)`;</script>";
      q "<a[^>]*href=`([^`]*)`[^>]*>This Page \(MP3\).*?</a>";
      py ".*/(.*\.mp3)\?lang=.*";
      q "{`mediaUrl`:`([^`]*)`,`variant`:`audio`}";
      py ".*/(.*\.mp3)";
      q "<a[^>]*href=`([^`]*)`[^>]*><div[^>]*><p><span[^>]*>([^<]*)</span></p></div></a><ul[^>]*>(.*?)</ul>";
      q "<a[^>]*href=`([^`]*)`[^>]*><div[^>]*><p><span[^>]*>([^<]*)</span></p><p[^>]*>([^<]*)</p></div></a>";
      q "<a[^>]*href=`([^`]*)`[^>]*><div[^>]*><div[^>]*><div[^>]*><h4[^>]*>([^<]*)</h4></div></div></div><hr[^>]*></a>";
      q "<a href=`([^`]*)`[^>]*><div[^>]*><div[^>]*><div[^>]*><div[^>]*><h6[^>]*>[^>]*><h6[^>]*>([^<]*)</h6></div></div><div[^>]*><h4[^>]*>([^<]*)</h4>" ].
Proof.
  repeat (constructor; [vm_compute; reflexivity |]). constructor.
Qed.

(* ================================================================== *)
(** * Duration text                                                    *)
(* ================================================================== *)

Lemma int_of_float_nonneg (x : Q) : (0 <= x)%Q -> int_of_float x = Qfloor x.
Proof.
  destruct x as [a b]. unfold Qle, int_of_float, Qfloor. simpl. intros Ha.
  apply Z.quot_div_nonneg; lia.
Qed.

Lemma Qfloor_div_pos (x : Q) (m : positive) :
  Qfloor (x / (Zpos m # 1)) = Qfloor x / Zpos m.
Proof.
  destruct x as [a b]. unfold Qdiv, Qinv, Qmult, Qfloor. simpl.
  rewrite Z.mul_1_r, Pos2Z.inj_mul, Z.div_div by lia. reflexivity.
Qed.

Lemma int_of_float_mod (x : Q) (m : positive) :
  (0 <= x)%Q ->
  int_of_float (float_mod x (Zpos m # 1)) = Qfloor x mod Zpos m.
Proof.
  intros Hx. unfold float_mod. rewrite Qfloor_div_pos.
  destruct x as [a b]. unfold Qle in Hx. simpl in Hx.
  unfold int_of_float, Qminus, Qplus, Qopp, Qmult, inject_Z, Qfloor. simpl.
  set (k := a / Zpos b / Zpos m).
  rewrite Z.mod_eq by lia. fold k.
  assert (Hk : 0 <= a / Zpos b - Zpos m * k).
  { unfold k. rewrite <- Z.mod_eq by lia. apply Z.mod_pos_bound. lia. }
  rewrite ?Z.mul_1_r, ?Pos.mul_1_r.
  rewrite Z.quot_div_nonneg.
  - rewrite Z.div_add by lia. lia.
  - assert (Zpos b * (a / Zpos b) <= a) by (apply Z.mul_div_le; lia). nia.
  - lia.
Qed.

Lemma Qdiv_pos_nonneg (x : Q) (m : positive) :
  (0 <= x)%Q -> (0 <= x / (Zpos m # 1))%Q.
Proof.
  destruct x as [a b]. unfold Qle, Qdiv, Qinv, Qmult. simpl. lia.
Qed.

Lemma Qfloor_nonneg (x : Q) : (0 <= x)%Q -> 0 <= Qfloor x.
Proof.
  destruct x as [a b]. unfold Qle, Qfloor. simpl. intros.
  apply Z.div_pos; lia.
Qed.

(** The four numbers [get_duration_text] computes, read off the whole
    seconds of the duration. *)
Lemma duration_numbers (d : Q) :
  (0 <= d)%Q ->
  int_of_float (float_mod (d / 60) 60) = (Qfloor d / 60) mod 60
  /\ int_of_float (float_mod (d / (60 * 60)) 24) = (Qfloor d / 3600) mod 24
  /\ int_of_float (float_mod (d / (60 * 60 * 24)) 7) = (Qfloor d / 86400) mod 7
  /\ int_of_float (d / (60 * 60 * 24 * 7)) = Qfloor d / 604800.
Proof.
  intros Hd.
  change (60 * 60)%Q with (3600 # 1).
  change ((3600 # 1) * 24)%Q with (86400 # 1).
  change ((86400 # 1) * 7)%Q with (604800 # 1).
  change 60%Q with (60 # 1). change 24%Q with (24 # 1). change 7%Q with (7 # 1).
  repeat split.
  - rewrite int_of_float_mod by (apply Qdiv_pos_nonneg; exact Hd).
    rewrite Qfloor_div_pos. reflexivity.
  - rewrite int_of_float_mod by (apply Qdiv_pos_nonneg; exact Hd).
    rewrite Qfloor_div_pos. reflexivity.
  - rewrite int_of_float_mod by (apply Qdiv_pos_nonneg; exact Hd).
    rewrite Qfloor_div_pos. reflexivity.
  - rewrite int_of_float_nonneg by (apply Qdiv_pos_nonneg; exact Hd).
    rewrite Qfloor_div_pos. reflexivity.
Qed.

Lemma get_duration_text_eq (d : Q) :
  (0 <= d)%Q ->
  get_duration_text d =
    component (Qfloor d / 604800) "w" ++ component ((Qfloor d / 86400) mod 7) "d"
    ++ component ((Qfloor d / 3600) mod 24) "h"
    ++ component ((Qfloor d / 60) mod 60) "m".
Proof.
  intros Hd. unfold get_duration_text.
  destruct (duration_numbers d Hd) as (-> & -> & -> & ->).
  unfold component.
  destruct (Qfloor d / 604800 =? 0), ((Qfloor d / 86400) mod 7 =? 0),
    ((Qfloor d / 3600) mod 24 =? 0), ((Qfloor d / 60) mod 60 =? 0);
    simpl; rewrite ?app_nil_r, <- ?app_assoc; reflexivity.
Qed.

(** C8.  For a duration of [d >= 0] seconds, let [s] be its whole seconds.
    The text is the weeks, days, hours and minutes of [s], in that order,
    each followed by its letter and each left out when it is zero; the
    seconds that remain ([r], less than a minute) and the fraction of [d]
    do not appear.  So 125 s reads 2m, 3725 s reads 1h2m and 694861 s
    reads 1w1d1h1m. *)
Theorem get_duration_text_components (d : Q) :
  (0 <= d)%Q ->
  (exists w da h m r : Z,
      Qfloor d = (((w * 7 + da) * 24 + h) * 60 + m) * 60 + r
      /\ 0 <= w /\ 0 <= da < 7 /\ 0 <= h < 24 /\ 0 <= m < 60 /\ 0 <= r < 60
      /\ get_duration_text d =
           component w "w" ++ component da "d" ++ component h "h"
           ++ component m "m")
  /\ get_duration_text 125 = py "2m"
  /\ get_duration_text 3725 = py "1h2m"
  /\ get_duration_text 694861 = py "1w1d1h1m".
Proof.
  intros Hd. split; [| repeat split; vm_compute; reflexivity].
  pose proof (Qfloor_nonneg d Hd) as Hs.
  exists (Qfloor d / 604800), ((Qfloor d / 86400) mod 7),
    ((Qfloor d / 3600) mod 24), ((Qfloor d / 60) mod 60), (Qfloor d mod 60).
  split; [| split; [| split; [| split; [| split; [| split]]]]].
  - set (s := Qfloor d) in *.
    pose proof (Z.div_mod s 60 ltac:(lia)).
    pose proof (Z.div_mod (s / 60) 60 ltac:(lia)).
    pose proof (Z.div_mod (s / 3600) 24 ltac:(lia)).
    pose proof (Z.div_mod (s / 86400) 7 ltac:(lia)).
    assert (E1 : s / 3600 = s / 60 / 60) by (rewrite Z.div_div by lia; reflexivity).
    assert (E2 : s / 86400 = s / 3600 / 24) by (rewrite Z.div_div by lia; reflexivity).
    assert (E3 : s / 604800 = s / 86400 / 7) by (rewrite Z.div_div by lia; reflexivity).
    rewrite E3. rewrite E2 in *. rewrite E1 in *. lia.
  - apply Z.div_pos; lia.
  - apply Z.mod_pos_bound; lia.
  - apply Z.mod_pos_bound; lia.
  - apply Z.mod_pos_bound; lia.
  - apply Z.mod_pos_bound; lia.
  - apply get_duration_text_eq; exact Hd.
Qed.

Lemma get_duration_text_components_witness :
  (0 <= 7451 # 2)%Q
  /\ ((exists w da h m r : Z,
         Qfloor (7451 # 2) = (((w * 7 + da) * 24 + h) * 60 + m) * 60 + r
         /\ 0 <= w /\ 0 <= da < 7 /\ 0 <= h < 24 /\ 0 <= m < 60 /\ 0 <= r < 60
         /\ get_duration_text (7451 # 2) =
              component w "w" ++ component da "d" ++ component h "h"
              ++ component m "m")
      /\ get_duration_text 125 = py "2m"
      /\ get_duration_text 3725 = py "1h2m"
      /\ get_duration_text 694861 = py "1w1d1h1m").
Proof.
  split; [unfold Qle; simpl; lia |].
  apply (get_duration_text_components (7451 # 2)). unfold Qle; simpl; lia.
Defined.

Lemma Qfloor_lt_pos (x : Q) (m : positive) :
  (x < Zpos m # 1)%Q -> Qfloor x < Zpos m.
Proof.
  destruct x as [a b]. unfold Qlt, Qfloor. simpl. intros Hlt.
  apply Z.div_lt_upper_bound; lia.
Qed.

(** C10.  A duration of less than a minute has the empty duration text:
    the entry line of such a talk reads [#EXTINF:, title], and the summary
    of a playlist that lasts less than a minute ends after the count. *)
Theorem get_duration_text_under_a_minute (d : Q) :
  (0 <= d)%Q -> (d < 60)%Q ->
  get_duration_text d = []
  /\ (forall (p t : str) (y : option Z),
        m3u [Entry d p t y] =
          py "#EXTM3U" ++ newline ++ newline
          ++ (py "#EXTINF:" ++ py ", " ++ t ++ newline)
          ++ replace_char (ch "/") (py "\") p ++ newline ++ newline)
  /\ (forall (first last : option Z) (count : Z),
        get_playlist_info first last count d =
          (if truthy first && truthy last
           then str_of_year first ++ py "-" ++ str_of_year last ++ py ", "
           else [])
          ++ (if negb (count =? 0) then str_of_Z count ++ py ", " else [])).
Proof.
  intros H0 H60.
  assert (E : get_duration_text d = []).
  { rewrite get_duration_text_eq by exact H0.
    pose proof (Qfloor_nonneg d H0) as Hs.
    pose proof (Qfloor_lt_pos d 60 H60) as Hs'.
    rewrite (Z.div_small (Qfloor d) 604800), (Z.div_small (Qfloor d) 86400),
      (Z.div_small (Qfloor d) 3600), (Z.div_small (Qfloor d) 60) by lia.
    reflexivity. }
  split; [exact E |]. split.
  - intros p t y. unfold m3u. cbn [flat_map duration title path].
    rewrite E, app_nil_r. reflexivity.
  - intros first last count. unfold get_playlist_info. rewrite E.
    destruct (truthy first && truthy last), (negb (count =? 0));
      rewrite ?app_nil_r; reflexivity.
Qed.

Lemma get_duration_text_under_a_minute_witness :
  (0 <= 119 # 2)%Q /\ (119 # 2 < 60)%Q /\ get_duration_text (119 # 2) = [].
Proof.
  split; [unfold Qle; simpl; lia |].
  split; [unfold Qlt; simpl; lia |].
  apply (get_duration_text_under_a_minute (119 # 2));
    [unfold Qle | unfold Qlt]; simpl; lia.
Defined.

(* ================================================================== *)
(** * Title cleaning                                                   *)
(* ================================================================== *)

Lemma rstrip_nil_iff (s : str) :
  rstrip s = [] <-> Forall (fun c => isspace c = true) s.
Proof.
  induction s as [| c s IH]; simpl.
  - split; auto.
  - destruct (rstrip s) eqn:E.
    + destruct (isspace c) eqn:Ec; split; intros Hx.
      * constructor; [exact Ec | apply IH; reflexivity].
      * reflexivity.
      * discriminate.
      * inversion Hx; congruence.
    + split; [discriminate |]. intros Hx.
      inversion Hx as [| ? ? _ Hrest]; subst.
      apply IH in Hrest. discriminate.
Qed.

Lemma rstrip_prefix (s : str) : exists t, s = rstrip s ++ t.
Proof.
  induction s as [| c s [t IH]]; simpl.
  - exists []. reflexivity.
  - destruct (rstrip s) eqn:E.
    + destruct (isspace c).
      * exists (c :: s). reflexivity.
      * exists s. reflexivity.
    + exists t. simpl. f_equal. exact IH.
Qed.

Lemma rstrip_Forall (P : char -> Prop) (s : str) :
  Forall P s -> Forall P (rstrip s).
Proof.
  intros Hs. destruct (rstrip_prefix s) as [t E]. rewrite E in Hs.
  apply Forall_app in Hs. tauto.
Qed.

Lemma rstrip_last (s t : str) (c : char) :
  rstrip s = t ++ [c] -> isspace c = false.
Proof.
  revert t. induction s as [| x s IH]; simpl; intros t.
  - destruct t; discriminate.
  - destruct (rstrip s) as [| y r] eqn:E.
    + destruct (isspace x) eqn:Ex.
      * destruct t; discriminate.
      * destruct t as [| ? [| ? ?]]; simpl; intros Hx; inversion Hx; subst;
          assumption.
    + intros Hx. destruct t as [| z t]; simpl in Hx.
      * discriminate.
      * inversion Hx; subst. apply (IH t). assumption.
Qed.

Lemma rstrip_fixed (s : str) :
  (forall t c, s = t ++ [c] -> isspace c = false) -> rstrip s = s.
Proof.
  induction s as [| x s IH]; simpl; intros Hlast; [reflexivity |].
  assert (Hs : rstrip s = s).
  { apply IH. intros t c ->. apply (Hlast (x :: t) c). reflexivity. }
  rewrite Hs. destruct s.
  - rewrite (Hlast [] x) by reflexivity. reflexivity.
  - reflexivity.
Qed.

Lemma rstrip_idempotent (s : str) : rstrip (rstrip s) = rstrip s.
Proof.
  apply rstrip_fixed. intros t c Hx. apply (rstrip_last s t c Hx).
Qed.

Lemma filter_fixed {A} (f : A -> bool) (l : list A) :
  Forall (fun x => f x = true) l -> List.filter f l = l.
Proof.
  induction 1 as [| x l Hx _ IH]; simpl; [reflexivity |].
  rewrite Hx, IH. reflexivity.
Qed.

Lemma filter_Forall {A} (f : A -> bool) (l : list A) :
  Forall (fun x => f x = true) (List.filter f l).
Proof.
  apply List.Forall_forall. intros x Hx. apply filter_In in Hx. tauto.
Qed.

Section CleanTitle.
Context `{PyLib}.

Lemma kept_not_markup (c : char) :
  kept c = true -> c <> ch "<" /\ c <> ch "&".
Proof.
  intros Hc. split; intros ->; vm_compute in Hc; discriminate.
Qed.

Lemma clean_title_kept (x : str) :
  Forall (fun c => kept c = true) (clean_title x).
Proof.
  unfold clean_title. apply rstrip_Forall. apply (filter_Forall kept).
Qed.

(** C7.  Cleaning a title twice is cleaning it once; a cleaned title is
    made of alphanumeric characters, spaces, hyphens, underscores and
    full stops, and does not end in white space.  (The parser is the
    standard library's: of it the proof uses that a text without [<] and
    [&] goes through unchanged.) *)
Theorem clean_title_idempotent (x : str) :
  parser_passes_plain_text ->
  clean_title (clean_title x) = clean_title x
  /\ Forall (fun c => isalnum c = true \/ In c keepcharacters) (clean_title x)
  /\ (forall (t : str) (c : char), clean_title x = t ++ [c] -> isspace c = false).
Proof.
  intros Hplain. split; [| split].
  - pose proof (clean_title_kept x) as Hk.
    unfold clean_title at 1.
    rewrite Hplain.
    + rewrite filter_fixed by exact Hk.
      unfold clean_title. apply rstrip_idempotent.
    + eapply List.Forall_impl; [| exact Hk]. intros c. apply kept_not_markup.
  - eapply List.Forall_impl; [| exact (clean_title_kept x)].
    intros c Hc. unfold kept in Hc. apply orb_true_iff in Hc.
    destruct Hc as [Hc | Hc]; [left; exact Hc | right].
    apply existsb_exists in Hc. destruct Hc as (k & Hin & Hk).
    apply N.eqb_eq in Hk. subst. exact Hin.
  - intros t c Hx. unfold clean_title in Hx. apply (rstrip_last _ _ _ Hx).
Qed.

End CleanTitle.

Lemma strip_tags_plain :
  @parser_passes_plain_text Sample.lib.
Proof.
  intros s Hs. simpl. induction Hs as [| c s [Hc _] _ IH]; simpl.
  - reflexivity.
  - apply N.eqb_neq in Hc. rewrite Hc. f_equal. exact IH.
Qed.

Lemma clean_title_idempotent_witness :
  let x := q "The <i>Book</i> of Mormon - a gift!  " in
  @clean_title Sample.lib x = py "The Book of Mormon - a gift"
  /\ @clean_title Sample.lib (@clean_title Sample.lib x) = @clean_title Sample.lib x.
Proof.
  split; [vm_compute; reflexivity |].
  apply (@clean_title_idempotent Sample.lib _ strip_tags_plain).
Defined.

(* ================================================================== *)
(** * Audio resolution                                                 *)
(* ================================================================== *)

Section AudioResolver.
Context `{PyLib}.

(** C4.  [get_audio] fetches the page of the talk and answers with what
    [audio_of_html] makes of it:
    - With a download anchor on the page, the answer is decided by the
      anchor alone: the link and the file name read off it, or nothing
      when no file name can be read off it; the page state is not decoded.
    - Without an anchor and without page state, the answer is nothing.
    - Without an anchor and with a page state that decodes, the answer is
      decided by the first audio [mediaUrl] of the decoded text: its link
      and the file name read off it, or nothing when there is no such
      fragment or no file name can be read off the link. *)
Theorem audio_of_html_tiers (link_html : str) :
  (forall (args : Args) (talk : Talk.t) (w w' : World),
      get_html args (LDS_ORG_URL ++ decode (Talk.link talk)) false w
        = (Ret link_html, w') ->
      get_audio args talk w = (audio_of_html link_html, w'))
  /\ (forall anchor : list str,
      re.search false MP3_DOWNLOAD_REGEX link_html = Some anchor ->
      audio_of_html link_html =
        Ret (option_map
               (fun name => Audio.mk (re.group anchor 1) (re.group name 1))
               (re.match_ false MP3_DOWNLOAD_FILENAME_REGEX (re.group anchor 1))))
  /\ (re.search false MP3_DOWNLOAD_REGEX link_html = None ->
      re.search false SCRIPT_BASE64_REGEX link_html = None ->
      audio_of_html link_html = Ret None)
  /\ (forall (blob : list str) (script_data : str),
      re.search false MP3_DOWNLOAD_REGEX link_html = None ->
      re.search false SCRIPT_BASE64_REGEX link_html = Some blob ->
      b64decode_str (re.group blob 1) = Some script_data ->
      audio_of_html link_html =
        Ret (match re.search false MP3_MEDIAURL_REGEX script_data with
             | Some fragment =>
                 option_map
                   (fun name => Audio.mk (re.group fragment 1) (re.group name 1))
                   (re.match_ false MP3_MEDIAURL_FILENAME_REGEX
                      (re.group fragment 1))
             | None => None
             end)).
Proof.
  split.
  { intros args talk w w' Epage. unfold get_audio, bind. rewrite Epage.
    reflexivity. }
  unfold audio_of_html. split; [| split].
  - intros anchor ->.
    destruct (re.match_ false MP3_DOWNLOAD_FILENAME_REGEX (re.group anchor 1));
      reflexivity.
  - intros -> ->. reflexivity.
  - intros blob script_data -> -> ->.
    destruct (re.search false MP3_MEDIAURL_REGEX script_data) as [fragment |];
      [| reflexivity].
    destruct (re.match_ false MP3_MEDIAURL_FILENAME_REGEX (re.group fragment 1));
      reflexivity.
Qed.

End AudioResolver.

Lemma audio_of_html_tiers_witness :
  re.search (H := Sample.lib) false MP3_DOWNLOAD_REGEX Sample.talk_2019_html = None
  /\ audio_of_html (H := Sample.lib) Sample.talk_2019_html =
       Ret (Some (Audio.mk (py "https://media.example/2019-10-1010-holland.mp3")
                    (py "2019-10-1010-holland.mp3")))
  /\ audio_of_html (H := Sample.lib) (Sample.talk_html "2021-04-1010-nelson") =
       Ret (Some (Audio.mk
                    (py "https://media.example/2021-04-1010-nelson.mp3?lang=eng")
                    (py "2021-04-1010-nelson.mp3")))
  /\ audio_of_html (H := Sample.lib) Sample.music_html = Ret None.
Proof.
  split; [vm_compute; reflexivity |].
  split; [| split].
  - destruct (audio_of_html_tiers (H := Sample.lib) Sample.talk_2019_html)
      as (_ & _ & _ & Tier2).
    etransitivity;
      [eapply Tier2; vm_compute; reflexivity | vm_compute; reflexivity].
  - destruct (audio_of_html_tiers (H := Sample.lib)
                (Sample.talk_html "2021-04-1010-nelson")) as (_ & Tier1 & _ & _).
    etransitivity;
      [eapply Tier1; vm_compute; reflexivity | vm_compute; reflexivity].
  - destruct (audio_of_html_tiers (H := Sample.lib) Sample.music_html)
      as (_ & _ & Neither & _).
    apply Neither; vm_compute; reflexivity.
Defined.

(* ================================================================== *)
(** * Writing a playlist                                               *)
(* ================================================================== *)

Lemma remove_playlist_files_gone (file_pattern p : str) (w : World) :
  glob_match file_pattern p = true ->
  fs (snd (remove_playlist_files file_pattern w)) !! p = None.
Proof.
  intros Hp. unfold remove_playlist_files, modify, set_fs. simpl.
  apply map_lookup_filter_None. right. intros f _. simpl. congruence.
Qed.

(** At or above the minimum, or without a year on the first or on the last
    entry, the file is written. *)
Lemma write_playlist_file_written (args : Args) (playlist_path : str)
    (item : entry) (rest : list entry) (w : World) :
  let playlist_data := item :: rest in
  truthy (year item) = false
  \/ truthy (year (List.last playlist_data item)) = false
  \/ speaker_min args <= Z.of_nat (length playlist_data) ->
  let file_path :=
    get_output_dir args ++ py "/" ++ playlist_path ++ py "-("
    ++ get_playlist_info (year item) (year (List.last playlist_data item))
         (Z.of_nat (length playlist_data)) (sum_durations playlist_data)
    ++ py ").m3u" in
  exists w',
    write_playlist_file args playlist_path playlist_data w = (Ret tt, w')
    /\ fs w' !! file_path = Some (File (m3u playlist_data) []).
Proof.
  intros playlist_data Hcase file_path.
  assert (Hgo : negb (truthy (year item))
                || negb (truthy (year (List.last playlist_data item)))
                || (speaker_min args <=? Z.of_nat (length playlist_data)) = true).
  { destruct Hcase as [-> | [-> | Hmin]].
    - reflexivity.
    - apply orb_true_iff. left. apply orb_true_r.
    - apply orb_true_iff. right. apply Z.leb_le. exact Hmin. }
  unfold write_playlist_file, bind, remove_playlist_files, modify.
  subst playlist_data. cbv beta iota zeta in *. rewrite Hgo.
  eexists. split; [reflexivity |]. simpl. apply lookup_insert_eq.
Qed.

(** C1.  What [write_playlist_file] does below the minimum.  Whatever the
    playlist is called (the name of a speaker's playlist, of a topic's, or
    of the playlist of all talks), if its first and last entries carry a
    year and it has fewer entries than [speaker_min], nothing is written:
    the call only removes the files of that name, and none is there
    afterwards. *)
Theorem write_playlist_file_below_minimum (args : Args) (playlist_path : str)
    (item : entry) (rest : list entry) (w : World) :
  let playlist_data := item :: rest in
  let file_pattern := get_output_dir args ++ py "/" ++ playlist_path ++ py "*.m3u" in
  truthy (year item) = true ->
  truthy (year (List.last playlist_data item)) = true ->
  Z.of_nat (length playlist_data) < speaker_min args ->
  write_playlist_file args playlist_path playlist_data w
    = remove_playlist_files file_pattern w
  /\ forall p : str,
       glob_match file_pattern p = true ->
       fs (snd (write_playlist_file args playlist_path playlist_data w)) !! p = None.
Proof.
  intros playlist_data file_pattern Hfirst Hlast Hmin.
  assert (E : write_playlist_file args playlist_path playlist_data w
              = remove_playlist_files file_pattern w).
  { unfold write_playlist_file, bind, remove_playlist_files, modify.
    subst playlist_data file_pattern. cbv beta iota zeta in *.
    rewrite Hfirst, Hlast.
    replace (speaker_min args <=? Z.of_nat (length (item :: rest))) with false
      by (symmetry; apply Z.leb_gt; exact Hmin).
    reflexivity. }
  split; [exact E |].
  intros p Hp. rewrite E. apply remove_playlist_files_gone. exact Hp.
Qed.

(** The playlist of a topic with one talk, at the default minimum of 3,
    with a file of an earlier run on the disk. *)
Lemma write_playlist_file_below_minimum_witness :
  let old := py "/music/GeneralConference (eng)/Topics/GC-T-Faith-(2018-2018, 1, 1m).m3u" in
  let w := set_fs (insert old (File (py "#EXTM3U") [])) (Sample.world []) in
  let data := [Entry 90 (py "../MP3/2018/April/10-Saturday Afternoon Session/2018-04-2020-oaks.mp3")
                 (py "Small and Simple Things") (Some 2018)] in
  fs w !! old = Some (File (py "#EXTM3U") [])
  /\ fs (snd (write_playlist_file Sample.args (py "Topics/GC-T-Faith") data w)) = ∅.
Proof.
  intros old w data. split; [vm_compute; reflexivity |].
  destruct (write_playlist_file_below_minimum Sample.args (py "Topics/GC-T-Faith")
              (Entry 90 (py "../MP3/2018/April/10-Saturday Afternoon Session/2018-04-2020-oaks.mp3")
                 (py "Small and Simple Things") (Some 2018)) [] w) as [E _].
  - reflexivity.
  - reflexivity.
  - vm_compute. reflexivity.
  - fold data in E. rewrite E. vm_compute. reflexivity.
Defined.

(* ================================================================== *)
(** * Reasoning about computations                                     *)
(* ================================================================== *)

Lemma str_eqb_eq (a b : str) : str_eqb a b = true <-> a = b.
Proof.
  revert b. induction a as [| c a IH]; destruct b as [| d b]; simpl;
    try (split; [discriminate | congruence]).
  - tauto.
  - rewrite andb_true_iff, N.eqb_eq, IH. split.
    + intros [-> ->]. reflexivity.
    + intros E. inversion E. tauto.
Qed.

Lemma str_eqb_refl (a : str) : str_eqb a a = true.
Proof. apply str_eqb_eq. reflexivity. Qed.

Lemma bind_Ret {A B} (m : M A) (k : A -> M B) (w w' : World) (b : B) :
  bind m k w = (Ret b, w') ->
  exists a w1, m w = (Ret a, w1) /\ k a w1 = (Ret b, w').
Proof.
  unfold bind. destruct (m w) as [[a | c | e] w1]; intros E;
    try discriminate.
  exists a, w1. split; [reflexivity | exact E].
Qed.

Lemma bind_ret_l {A B} (a : A) (k : A -> M B) (w : World) :
  bind (ret a) k w = k a w.
Proof. reflexivity. Qed.

Lemma bind_assoc {A B C} (m : M A) (f : A -> M B) (k : B -> M C) (w : World) :
  bind (bind m f) k w = bind m (fun a => bind (f a) k) w.
Proof.
  unfold bind. destruct (m w) as [[a | c | e] w1]; reflexivity.
Qed.

Lemma bind_cases {A B} (m : M A) (k : A -> M B) (w w' : World) (o : outcome B) :
  bind m k w = (o, w') ->
  (exists a w1, m w = (Ret a, w1) /\ k a w1 = (o, w'))
  \/ (exists o1, m w = (o1, w') /\ forall a, o1 <> Ret a).
Proof.
  unfold bind. destruct (m w) as [[a | c | e] w1]; intros E.
  - left. exists a, w1. split; [reflexivity | exact E].
  - right. inversion E; subst. exists (Exit c). split; [reflexivity | discriminate].
  - right. inversion E; subst. exists (Raise e). split; [reflexivity | discriminate].
Qed.

Section Yields.
Context {A B : Type}.

Lemma yields_ret (a : A) (P : A -> Prop) : P a -> yields (ret a) P.
Proof. intros Ha w b w' E. inversion E; subst. exact Ha. Qed.

Lemma yields_bind (m : M A) (k : A -> M B) (Q : A -> Prop) (P : B -> Prop) :
  yields m Q -> (forall a, Q a -> yields (k a) P) -> yields (bind m k) P.
Proof.
  intros Hm Hk w b w' E. apply bind_Ret in E.
  destruct E as (a & w1 & Em & Ek). eapply Hk; eauto.
Qed.

Lemma yields_any (m : M A) : yields m (fun _ => True).
Proof. intros w a w' _. exact I. Qed.

Lemma yields_with_tqdm (args : Args) (m : M A) (P : A -> Prop) :
  yields m P -> yields (with_tqdm args m) P.
Proof.
  intros Hm w a w' E. unfold with_tqdm in E. destruct (tqdm args).
  - eapply Hm; eauto.
  - eapply Hm; eauto.
  - destruct (m (set_running true w)) as [o w1] eqn:Em.
    destruct (running w1); [| discriminate].
    inversion E; subst. eapply Hm; eauto.
Qed.

End Yields.

Lemma yields_for_each {X S} (body : X -> S -> M (S * bool)) (P : S -> Prop)
    (xs : list X) :
  (forall x s, In x xs -> P s -> yields (body x s) (fun r => P (fst r))) ->
  forall s, P s -> yields (for_each body xs s) P.
Proof.
  induction xs as [| x xs IH]; intros Hbody s Hs; simpl.
  - apply yields_ret. exact Hs.
  - eapply yields_bind.
    + apply Hbody; [left; reflexivity | exact Hs].
    + intros [s1 stop] Hs1. simpl in *. destruct stop.
      * apply yields_ret. exact Hs1.
      * apply IH; [| exact Hs1]. intros y s2 Hy. apply Hbody. right. exact Hy.
Qed.

Section Respects.
Variable R : World -> World -> Prop.
Hypothesis R_refl : forall w, R w w.
Hypothesis R_trans : forall w1 w2 w3, R w1 w2 -> R w2 w3 -> R w1 w3.

Lemma respects_ret {A} (a : A) : respects R (ret a).
Proof. intros w o w' E. inversion E; subst. apply R_refl. Qed.

Lemma respects_get {A} (f : World -> A) : respects R (get f).
Proof. intros w o w' E. inversion E; subst. apply R_refl. Qed.

Lemma respects_lift {A} (o : outcome A) : respects R (lift o).
Proof. intros w o' w' E. inversion E; subst. apply R_refl. Qed.

Lemma respects_modify (f : World -> World) :
  (forall w, R w (f w)) -> respects R (modify f).
Proof. intros Hf w o w' E. inversion E; subst. apply Hf. Qed.

Lemma respects_bind {A B} (m : M A) (k : A -> M B) :
  respects R m -> (forall a, respects R (k a)) -> respects R (bind m k).
Proof.
  intros Hm Hk w o w' E. apply bind_cases in E.
  destruct E as [(a & w1 & Em & Ek) | (o1 & Em & _)].
  - eapply R_trans; [eapply Hm; eauto | eapply Hk; eauto].
  - eapply Hm; eauto.
Qed.

Lemma respects_for_each {X S} (body : X -> S -> M (S * bool)) (xs : list X) :
  (forall x s, In x xs -> respects R (body x s)) ->
  forall s, respects R (for_each body xs s).
Proof.
  induction xs as [| x xs IH]; intros Hbody s; simpl.
  - apply respects_ret.
  - apply respects_bind.
    + apply Hbody. left. reflexivity.
    + intros [s1 stop]. simpl. destruct stop.
      * apply respects_ret.
      * apply IH. intros y s2 Hy. apply Hbody. right. exact Hy.
Qed.

Lemma respects_with_tqdm {A} (args : Args) (m : M A) :
  (forall w, R w (set_running true w)) ->
  respects R m -> respects R (with_tqdm args m).
Proof.
  intros Hrun Hm w o w' E. unfold with_tqdm in E. destruct (tqdm args).
  - eapply Hm; eauto.
  - eapply Hm; eauto.
  - destruct (m (set_running true w)) as [o1 w1] eqn:Em.
    assert (w1 = w') by (destruct (running w1); inversion E; reflexivity).
    subst. eapply R_trans; [apply Hrun | eapply Hm; eauto].
Qed.

End Respects.

(* ================================================================== *)
(** * The talks of the working set                                     *)
(* ================================================================== *)

Section WorkingSet.
Context `{PyLib}.

Lemma collect_talks_well_formed (args : Args) (all_conferences : list Conference.t)
    (all_talks_by_topic : list TalkByTopic.t) :
  yields (collect_talks args all_conferences all_talks_by_topic)
    (Forall (well_formed_talk all_talks_by_topic)).
Proof.
  unfold collect_talks. apply yields_with_tqdm.
  eapply yields_bind; [apply yields_any | intros _ _].
  apply yields_for_each; [| constructor].
  intros conference all_talks _ Hall.
  eapply yields_bind; [apply yields_any | intros conference_html _].
  eapply yields_bind with (Q := Forall (well_formed_talk all_talks_by_topic)).
  - apply yields_for_each; [| exact Hall].
    intros numbered talks1 _ Htalks1.
    eapply yields_bind; [apply yields_any | intros _ _].
    eapply yields_bind with (Q := Forall (well_formed_talk all_talks_by_topic)).
    + apply yields_for_each; [| exact Htalks1].
      intros talk_info talks2 _ Htalks2.
      eapply yields_bind; [apply yields_any | intros stop _].
      apply yields_ret. simpl.
      destruct ((find (clean_title (nth 1 talk_info [])) (py "Sustaining of") =? -1)
                && negb (startswith (clean_title (nth 1 talk_info []))
                           (py "Church Auditing"))) eqn:Ekeep;
        [| exact Htalks2].
      apply Forall_app. split; [exact Htalks2 |].
      constructor; [| constructor]. split; [reflexivity |].
      simpl. unfold sustaining_or_audit.
      apply andb_true_iff in Ekeep. destruct Ekeep as [-> Hs].
      apply negb_true_iff in Hs. rewrite Hs. reflexivity.
    + intros talks3 Htalks3.
      eapply yields_bind; [apply yields_any | intros stop _].
      apply yields_ret. exact Htalks3.
  - intros talks4 Htalks4.
    eapply yields_bind; [apply yields_any | intros _ _].
    eapply yields_bind; [apply yields_any | intros stop _].
    apply yields_ret. exact Htalks4.
Qed.

Lemma joined_topics_In (all_talks_by_topic : list TalkByTopic.t)
    (title speaker name : str) :
  In name (joined_topics all_talks_by_topic title speaker) <->
  exists r, In r all_talks_by_topic
            /\ TalkByTopic.title r = title
            /\ TalkByTopic.speaker r = speaker
            /\ TalkByTopic.topic r = name.
Proof.
  unfold joined_topics. rewrite in_map_iff. split.
  - intros (r & Hname & Hr). apply filter_In in Hr. destruct Hr as [Hin Hr].
    apply andb_true_iff in Hr. destruct Hr as [Ht Hs].
    apply str_eqb_eq in Ht. apply str_eqb_eq in Hs. exists r. tauto.
  - intros (r & Hin & Ht & Hs & Hname). exists r. split; [exact Hname |].
    apply filter_In. split; [exact Hin |].
    rewrite <- Ht, <- Hs, !str_eqb_refl. reflexivity.
Qed.

Lemma get_all_talks_well_formed (args : Args) (w w' : World)
    (all_talks : list Talk.t) :
  get_all_talks args w = (Ret all_talks, w') ->
  exists all_talks_by_topic,
    Forall (well_formed_talk all_talks_by_topic) all_talks.
Proof.
  intros Hrun. unfold get_all_talks in Hrun.
  apply bind_Ret in Hrun. destruct Hrun as (all_conferences & w0 & _ & Hrun).
  apply bind_Ret in Hrun. destruct Hrun as (all_talks_by_topic & w1 & _ & Hrun).
  exists all_talks_by_topic.
  apply (collect_talks_well_formed _ _ _ _ _ _ Hrun).
Qed.

(** C5.  A run of [get_all_talks] that returns.  The conferences are
    discovered; then the talks by topic are gathered, unless playlists are
    switched off, in which case nothing is fetched and the list is empty;
    then the talks are collected.  The topics of every talk returned are
    the topic names of exactly the records whose title and speaker are the
    talk's own (cleaned) title and speaker, character for character; with
    playlists off they are none. *)
Theorem get_all_talks_topics (args : Args) (w w' : World) (all_talks : list Talk.t) :
  get_all_talks args w = (Ret all_talks, w') ->
  exists (all_conferences : list Conference.t)
         (all_talks_by_topic : list TalkByTopic.t) (w0 w1 : World),
    get_all_conferences args w = (Ret all_conferences, w0)
    /\ (if noplaylists args
        then all_talks_by_topic = [] /\ w1 = w0
        else get_all_talks_by_topic args w0 = (Ret all_talks_by_topic, w1))
    /\ collect_talks args all_conferences all_talks_by_topic w1 = (Ret all_talks, w')
    /\ (forall T : Talk.t,
          In T all_talks ->
          forall name : str,
            In name (Talk.topics T) <->
            exists r : TalkByTopic.t,
              In r all_talks_by_topic
              /\ TalkByTopic.title r = Talk.title T
              /\ TalkByTopic.speaker r = Talk.speaker T
              /\ TalkByTopic.topic r = name)
    /\ (noplaylists args = true ->
        forall T : Talk.t, In T all_talks -> Talk.topics T = []).
Proof.
  intros Hrun. unfold get_all_talks in Hrun.
  apply bind_Ret in Hrun. destruct Hrun as (all_conferences & w0 & Hconf & Hrun).
  apply bind_Ret in Hrun. destruct Hrun as (all_talks_by_topic & w1 & Htopics & Hrun).
  exists all_conferences, all_talks_by_topic, w0, w1.
  pose proof (collect_talks_well_formed _ _ _ _ _ _ Hrun) as Hwf.
  rewrite List.Forall_forall in Hwf.
  split; [exact Hconf |]. split; [| split; [exact Hrun | split]].
  - destruct (noplaylists args); [| exact Htopics].
    inversion Htopics; subst. split; reflexivity.
  - intros T HT name. destruct (Hwf T HT) as [-> _]. apply joined_topics_In.
  - intros Hoff T HT. destruct (Hwf T HT) as [-> _].
    rewrite Hoff in Htopics. inversion Htopics; subst. reflexivity.
Qed.

End WorkingSet.

Lemma get_all_talks_topics_witness :
  exists (all_talks : list Talk.t) (w' : World),
    get_all_talks (H := Sample.lib) Sample.args (Sample.world []) = (Ret all_talks, w')
    /\ List.map (fun T => (Talk.title T, Talk.topics T)) all_talks =
         [ (py "Small and Simple Things", [py "Faith"]);
           (py "The Message", []);
           (py "Welcome Message", []) ]
    /\ forall T : Talk.t,
         In T all_talks ->
         forall name : str,
           In name (Talk.topics T) ->
           exists r : TalkByTopic.t,
             TalkByTopic.title r = Talk.title T
             /\ TalkByTopic.speaker r = Talk.speaker T
             /\ TalkByTopic.topic r = name.
Proof.
  destruct (get_all_talks (H := Sample.lib) Sample.args (Sample.world []))
    as [o w'] eqn:Erun.
  assert (Eo : exists all_talks, o = Ret all_talks
            /\ List.map (fun T => (Talk.title T, Talk.topics T)) all_talks =
               [ (py "Small and Simple Things", [py "Faith"]);
                 (py "The Message", []);
                 (py "Welcome Message", []) ]).
  { apply (f_equal fst) in Erun. simpl in Erun. rewrite <- Erun.
    vm_compute. eexists. split; reflexivity. }
  destruct Eo as (all_talks & -> & Etalks).
  exists all_talks, w'. split; [reflexivity |]. split; [exact Etalks |].
  destruct (get_all_talks_topics (H := Sample.lib) _ _ _ _ Erun)
    as (cs & tbts & w0 & w1 & _ & _ & _ & Hjoin & _).
  intros T HT name Hname. apply (Hjoin T HT name) in Hname.
  destruct Hname as (r & _ & Hr). exists r. exact Hr.
Defined.

(* ================================================================== *)
(** * Conference discovery                                             *)
(* ================================================================== *)

Lemma StronglySorted_snoc {A} (R : A -> A -> Prop) (l : list A) (x : A) :
  StronglySorted R l -> Forall (fun y => R y x) l -> StronglySorted R (l ++ [x]).
Proof.
  induction 1 as [| y l Hl IH Hy]; intros Hx; simpl.
  - constructor; constructor.
  - inversion Hx as [| ? ? Hyx Hlx]; subst. constructor.
    + apply IH. exact Hlx.
    + apply Forall_app. split; [exact Hy | constructor; [exact Hyx | constructor]].
Qed.

Lemma StronglySorted_rev {A} (R : A -> A -> Prop) (l : list A) :
  StronglySorted R l -> StronglySorted (fun a b => R b a) (rev l).
Proof.
  induction 1 as [| y l Hl IH Hy]; simpl.
  - constructor.
  - apply StronglySorted_snoc; [exact IH |].
    apply List.Forall_forall. intros z Hz. apply in_rev in Hz.
    rewrite List.Forall_forall in Hy. apply Hy. exact Hz.
Qed.

Lemma for_in_cons {X S} (body : X -> S -> M S) (x : X) (xs : list X) (s : S)
    (w : World) :
  for_in body (x :: xs) s w = bind (body x s) (fun s' => for_in body xs s') w.
Proof.
  unfold for_in. simpl. unfold bind.
  destruct (body x s w) as [[s' | c | e] w']; reflexivity.
Qed.

Lemma yields_for_in {X S} (body : X -> S -> M S) (P : S -> Prop) (xs : list X) :
  (forall x s, In x xs -> P s -> yields (body x s) P) ->
  forall s, P s -> yields (for_in body xs s) P.
Proof.
  intros Hbody s Hs. unfold for_in. apply yields_for_each; [| exact Hs].
  intros x s1 Hx Hs1. eapply yields_bind; [apply (Hbody x s1 Hx Hs1) |].
  intros s2 Hs2. apply yields_ret. exact Hs2.
Qed.

(** Computations that always hand over a value. *)
Lemma for_each_returns {X S} (body : X -> S -> M (S * bool)) (xs : list X) :
  (forall x s w, exists r w', body x s w = (Ret r, w')) ->
  forall s w, exists s' w', for_each body xs s w = (Ret s', w').
Proof.
  intros Hbody. induction xs as [| x xs IH]; intros s w; simpl.
  - eexists _, _. reflexivity.
  - unfold bind. destruct (Hbody x s w) as ([s1 stop] & w1 & ->). simpl.
    destruct stop; [eexists _, _; reflexivity | apply IH].
Qed.

Section Discovery.
Context `{PyLib}.

Lemma get_html_returns (args : Args) (url : str) (nocache : bool) (w : World) :
  exists html w', get_html args url nocache w = (Ret html, w').
Proof.
  unfold get_html, bind, get_from_cache, urlopen_html, add_to_cache, bind, modify,
    get, ret.
  destruct nocache; simpl.
  - destruct (web _ _); eexists _, _; reflexivity.
  - destruct (option_map content _) as [[| c cs] |];
      try (eexists _, _; reflexivity);
      destruct (web _ _); eexists _, _; reflexivity.
Qed.

Lemma get_conferences_in_range (args : Args) (conferences_html : str) :
  Forall (in_requested_range args) (get_conferences args conferences_html).
Proof.
  unfold get_conferences. apply List.Forall_forall. intros c Hc.
  apply in_flat_map in Hc. destruct Hc as (conference & _ & Hc).
  destruct (re.match_ false CONFERENCE_LINK_YEAR_MONTH_REGEX (nth 0 conference []))
    as [m |]; [| destruct Hc].
  destruct ((int_of_str (re.group m 1) <? start args)
            || (int_of_str (re.group m 1) >? end_ args)) eqn:Eout;
    [destruct Hc |].
  destruct Hc as [<- | []]. unfold in_requested_range. simpl.
  apply orb_false_iff in Eout. destruct Eout as [Hlo Hhi].
  apply Z.ltb_ge in Hlo. rewrite Z.gtb_ltb in Hhi. apply Z.ltb_ge in Hhi. lia.
Qed.

Lemma get_range_conferences_in_range (args : Args) (conferences_html : str) :
  yields (get_range_conferences args conferences_html)
    (Forall (in_requested_range args)).
Proof.
  unfold get_range_conferences. apply yields_for_in; [| constructor].
  intros conference_group result _ Hresult. unfold scan_group.
  destruct (re.match_ false CONFERENCE_GROUPS_RANGE_REGEX _) as [m |];
    [| apply yields_ret; exact Hresult].
  destruct (_ || _); [apply yields_ret; exact Hresult |].
  eapply yields_bind; [apply yields_any | intros html _].
  destruct html; apply yields_ret; [exact Hresult |].
  apply Forall_app. split; [exact Hresult | apply get_conferences_in_range].
Qed.

Lemma get_range_conferences_returns (args : Args) (conferences_html : str)
    (w : World) :
  exists ranged w', get_range_conferences args conferences_html w = (Ret ranged, w').
Proof.
  unfold get_range_conferences, for_in. apply for_each_returns.
  intros conference_group result w1. unfold scan_group, bind.
  destruct (re.match_ false CONFERENCE_GROUPS_RANGE_REGEX _) as [m |];
    [| eexists _, _; reflexivity].
  destruct (_ || _); [eexists _, _; reflexivity |].
  unfold bind.
  destruct (get_html_returns args
              (LDS_ORG_URL ++ decode (nth 0 conference_group [])) false w1)
    as (html & w2 & ->).
  destruct html; eexists _, _; reflexivity.
Qed.

Lemma flat_map_filter {A B} (f : A -> list B) (keep : B -> bool) (l : list A) :
  flat_map (fun x => List.filter keep (f x)) l = List.filter keep (flat_map f l).
Proof.
  induction l as [| x l IH]; [reflexivity |].
  change (List.filter keep (f x) ++ flat_map (fun x => List.filter keep (f x)) l
          = List.filter keep (f x ++ flat_map f l)).
  rewrite List.filter_app, IH. reflexivity.
Qed.

Lemma get_conferences_listed (args : Args) (html : str) :
  get_conferences args html
  = List.filter (requested args) (listed_conferences html).
Proof.
  unfold get_conferences, listed_conferences. cbv zeta.
  rewrite <- flat_map_filter. apply flat_map_ext. intros conference.
  destruct (re.match_ false CONFERENCE_LINK_YEAR_MONTH_REGEX (nth 0 conference []))
    as [m |]; [| reflexivity].
  unfold requested. cbn [List.filter Conference.year].
  destruct ((int_of_str (re.group m 1) <? start args)
            || (int_of_str (re.group m 1) >? end_ args)); reflexivity.
Qed.

Lemma get_conferences_nil (args : Args) : get_conferences args [] = [].
Proof. reflexivity. Qed.

(** What the two passes gather is what the documents list, the years
    that are not asked for left out. *)
Lemma gathered_listed (args : Args) (index : str) (pages : list str) :
  get_conferences args index ++ flat_map (get_conferences args) pages
  = List.filter (requested args)
      (listed_conferences index ++ flat_map listed_conferences pages).
Proof.
  rewrite List.filter_app, <- flat_map_filter, get_conferences_listed. f_equal.
  apply flat_map_ext. intros page. apply get_conferences_listed.
Qed.

Lemma StronglySorted_filter {A} (R : A -> A -> Prop) (keep : A -> bool) (l : list A) :
  StronglySorted R l -> StronglySorted R (List.filter keep l).
Proof.
  induction 1 as [| x l Hl IH Hx]; [constructor |].
  cbn [List.filter]. destruct (keep x); [| exact IH].
  constructor; [exact IH |].
  apply List.Forall_forall. intros y Hy. apply filter_In in Hy.
  rewrite List.Forall_forall in Hx. apply Hx. tauto.
Qed.

(** The loop of [get_range_conferences] fetches the pages of the groups
    that overlap the requested years, in order, and gathers from each the
    conferences of the requested years. *)
Lemma get_range_conferences_pages (args : Args) (groups : list (list str)) :
  forall (result : list Conference.t) (w : World),
    for_in (scan_group args) groups result w
    = (Ret (result
            ++ flat_map (get_conferences args) (fst (group_pages args groups w))),
       snd (group_pages args groups w)).
Proof.
  induction groups as [| g groups IH]; intros result w.
  - cbn [group_pages fst snd flat_map]. rewrite app_nil_r. reflexivity.
  - rewrite for_in_cons. unfold scan_group at 1. cbn [group_pages].
    unfold overlaps.
    destruct (re.match_ false CONFERENCE_GROUPS_RANGE_REGEX (nth 0 g []))
      as [m |]; [| rewrite bind_ret_l; apply IH].
    cbv zeta.
    destruct ((int_of_str (re.group m 2) <? start args)
              || (int_of_str (re.group m 1) >? end_ args));
      cbn [negb]; [rewrite bind_ret_l; apply IH |].
    rewrite bind_assoc. unfold bind at 1.
    destruct (get_html_returns args (LDS_ORG_URL ++ decode (nth 0 g [])) false w)
      as (page & w1 & Epage).
    rewrite Epage.
    destruct (group_pages args groups w1) as [pages w'] eqn:Epages.
    cbn [fst snd flat_map].
    destruct page as [| c page]; rewrite bind_ret_l, IH, Epages; cbn [fst snd].
    + rewrite get_conferences_nil. reflexivity.
    + rewrite app_assoc. reflexivity.
Qed.

Lemma oldest_first_head (args : Args) (l : list Conference.t) :
  oldest_first l ->
  Forall (in_requested_range args) l ->
  (exists c, In c l /\ Conference.year c = start args) ->
  exists c0 rest, l = c0 :: rest /\ Conference.year c0 = start args.
Proof.
  intros Hsorted Hrange (c & Hc & Hyear).
  destruct l as [| c0 rest]; [destruct Hc |].
  exists c0, rest. split; [reflexivity |].
  inversion Hrange as [| ? ? Hc0 _]; subst. unfold in_requested_range in Hc0.
  destruct Hc as [-> | Hc]; [exact Hyear |].
  inversion Hsorted as [| ? ? _ Hall]; subst.
  rewrite List.Forall_forall in Hall. specialize (Hall c Hc).
  unfold earlier in Hall. lia.
Qed.

(** C6, as the code has it.  [get_all_conferences] always returns: the
    index is fetched; [get_range_conferences] fetches the page of every
    group whose years overlap the requested ones, in the order of the
    index; the conferences of the requested years listed by the index
    itself are followed by those listed by these pages, page after page,
    and the whole is reversed.  Every year returned lies in the requested
    range.  The premise of the order is on the documents: when what the
    index lists itself, followed by what the pages fetched list, runs from
    newest to oldest (so every conference the index lists itself is newer
    than every conference of a group), the result runs strictly from
    oldest to newest by year and month; and its first year is the first
    requested year provided that year is not after the last requested
    year and one of these documents lists a conference of it. *)
Theorem get_all_conferences_order (args : Args) (w : World) :
  exists (index : str) (w1 : World) (pages : list str) (w' : World),
    get_html args (ALL_CONFERENCES_URL ++ py "?lang=" ++ lang args)
      (nocleanup args) w = (Ret index, w1)
    /\ group_pages args (re.findall true CONFERENCE_GROUPS_REGEX index) w1
       = (pages, w')
    /\ get_range_conferences args index w1
       = (Ret (flat_map (get_conferences args) pages), w')
    /\ get_all_conferences args w
       = (Ret (rev (get_conferences args index
                    ++ flat_map (get_conferences args) pages)), w')
    /\ Forall (in_requested_range args)
         (rev (get_conferences args index ++ flat_map (get_conferences args) pages))
    /\ (newest_first (listed_conferences index ++ flat_map listed_conferences pages) ->
        oldest_first
          (rev (get_conferences args index ++ flat_map (get_conferences args) pages))
        /\ (forall c : Conference.t,
              In c (listed_conferences index ++ flat_map listed_conferences pages) ->
              Conference.year c = start args ->
              start args <= end_ args ->
              exists c0 rest,
                rev (get_conferences args index
                     ++ flat_map (get_conferences args) pages) = c0 :: rest
                /\ Conference.year c0 = start args)).
Proof.
  destruct (get_html_returns args (ALL_CONFERENCES_URL ++ py "?lang=" ++ lang args)
              (nocleanup args) w) as (index & w1 & Eindex).
  destruct (group_pages args (re.findall true CONFERENCE_GROUPS_REGEX index) w1)
    as [pages w'] eqn:Epages.
  assert (Eranged : get_range_conferences args index w1
                    = (Ret (flat_map (get_conferences args) pages), w')).
  { unfold get_range_conferences. cbv zeta.
    rewrite get_range_conferences_pages, Epages. reflexivity. }
  exists index, w1, pages, w'.
  assert (Hrange : Forall (in_requested_range args)
                     (rev (get_conferences args index
                           ++ flat_map (get_conferences args) pages))).
  { apply Forall_rev. apply Forall_app. split.
    - apply get_conferences_in_range.
    - eapply get_range_conferences_in_range. exact Eranged. }
  split; [exact Eindex |]. split; [exact Epages |]. split; [exact Eranged |].
  split; [| split].
  - unfold get_all_conferences, bind. rewrite Eindex, Eranged. reflexivity.
  - exact Hrange.
  - intros Hnewest.
    assert (Hsorted : oldest_first
                        (rev (get_conferences args index
                              ++ flat_map (get_conferences args) pages))).
    { apply StronglySorted_rev. rewrite gathered_listed.
      apply StronglySorted_filter. exact Hnewest. }
    split; [exact Hsorted |].
    intros c Hc Hyear Horder.
    apply (oldest_first_head args); [exact Hsorted | exact Hrange |].
    exists c. split; [| exact Hyear].
    apply in_rev. rewrite rev_involutive, gathered_listed.
    apply filter_In. split; [exact Hc |].
    unfold requested. apply negb_true_iff, orb_false_iff.
    rewrite Z.gtb_ltb. split; apply Z.ltb_ge; lia.
Qed.

End Discovery.

(** The sample site, asked for 2018 to 2021: the index lists April 2021
    itself and the group 2010-2019, whose page lists October 2019 and April
    2018. *)
Lemma get_all_conferences_order_witness :
  let args := Sample.settings 2018 LibTqdm false false in
  List.map year_month
    (listed_conferences (H := Sample.lib) Sample.index_html
     ++ flat_map (listed_conferences (H := Sample.lib)) [Sample.group_html])
  = [(2021, 4); (2019, 10); (2018, 4)]
  /\ exists (cs : list Conference.t) (w' : World),
       get_all_conferences (H := Sample.lib) args (Sample.world []) = (Ret cs, w')
       /\ List.map year_month cs = [(2018, 4); (2019, 10); (2021, 4)]
       /\ oldest_first cs
       /\ exists c0 rest, cs = c0 :: rest /\ Conference.year c0 = start args.
Proof.
  intros args. split; [vm_compute; reflexivity |].
  destruct (get_all_conferences_order (H := Sample.lib) args (Sample.world []))
    as (index & w1 & pages & w' & Eindex & Epages & _ & Eall & _ & Horder).
  pose proof (f_equal fst Eindex) as Ei. cbn [fst] in Ei.
  match type of Ei with
  | ?l = _ => assert (Ei' : l = Ret Sample.index_html) by (vm_compute; reflexivity)
  end.
  rewrite Ei' in Ei. injection Ei as <-. clear Ei'.
  pose proof (f_equal snd Eindex) as Ew. cbn [snd] in Ew. subst w1.
  pose proof (f_equal fst Epages) as Ep. cbn [fst] in Ep.
  match type of Ep with
  | ?l = _ => assert (Ep' : l = [Sample.group_html]) by (vm_compute; reflexivity)
  end.
  rewrite Ep' in Ep. subst pages. clear Ep'.
  assert (Hnewest : newest_first
                      (listed_conferences (H := Sample.lib) Sample.index_html
                       ++ flat_map (listed_conferences (H := Sample.lib))
                            [Sample.group_html])).
  { vm_compute. repeat (constructor; try (unfold earlier; simpl; lia)). }
  destruct (Horder Hnewest) as [Hsorted Hhead].
  assert (Ecs : List.map year_month
                  (rev (get_conferences (H := Sample.lib) args Sample.index_html
                        ++ flat_map (get_conferences (H := Sample.lib) args)
                             [Sample.group_html]))
                = [(2018, 4); (2019, 10); (2021, 4)])
    by (vm_compute; reflexivity).
  assert (Hc : exists c,
             In c (listed_conferences (H := Sample.lib) Sample.index_html
                   ++ flat_map (listed_conferences (H := Sample.lib))
                        [Sample.group_html])
             /\ Conference.year c = 2018).
  { vm_compute. eexists. split; [right; right; left; reflexivity | reflexivity]. }
  destruct Hc as (c & Hc & Hyear).
  eexists _, w'. split; [exact Eall |]. split; [exact Ecs |].
  split; [exact Hsorted |].
  apply (Hhead c Hc); [exact Hyear |].
  vm_compute. intros E. discriminate E.
Defined.

(** C6, as the claim has it, fails on the sample site asked for 2015 to
    2021: the index lists April 2021 itself and the group 2010-2019, whose
    page lists October 2019 and April 2018, all from newest to oldest; the
    first conference returned is of 2018, not of 2015. *)
Lemma get_all_conferences_first_year_counterexample :
  let run := get_all_conferences (H := Sample.lib) Sample.args (Sample.world []) in
  List.map year_month (get_conferences (H := Sample.lib) Sample.args Sample.index_html)
    = [(2021, 4)]
  /\ List.map (fun g => nth 1 g [])
       (re.findall (H := Sample.lib) true CONFERENCE_GROUPS_REGEX Sample.index_html)
     = [py "2010-2019"]
  /\ start Sample.args = 2015 /\ end_ Sample.args = 2021
  /\ option_map (List.map year_month) (returned run)
     = Some [(2018, 4); (2019, 10); (2021, 4)]
  /\ (forall cs, returned run = Some cs -> newest_first (rev cs))
  /\ ~ (exists c0 rest,
          returned run = Some (c0 :: rest)
          /\ Conference.year c0 = start Sample.args).
Proof.
  intros run.
  assert (Erun : exists c1 c2 c3,
             returned run = Some [c1; c2; c3]
             /\ List.map year_month [c1; c2; c3] = [(2018, 4); (2019, 10); (2021, 4)]).
  { vm_compute. eexists _, _, _. split; reflexivity. }
  destruct Erun as (c1 & c2 & c3 & Erun & Eym).
  injection Eym as Y1 M1 Y2 M2 Y3 M3.
  split; [vm_compute; reflexivity |]. split; [vm_compute; reflexivity |].
  split; [reflexivity |]. split; [reflexivity |].
  split; [| split].
  - rewrite Erun. simpl. unfold year_month. congruence.
  - intros cs Ecs. rewrite Erun in Ecs. injection Ecs as <-. simpl.
    repeat (constructor; try (unfold earlier; lia)).
  - intros (c0 & rest & E & Hyear). rewrite Erun in E. injection E as <- _.
    rewrite Y1 in Hyear. discriminate.
Qed.

(* ================================================================== *)
(** * Cache and site                                                   *)
(* ================================================================== *)

Lemma bypassed_refl (w : World) : bypassed w w.
Proof.
  split; [reflexivity |]. exists []. rewrite app_nil_r. split; [reflexivity | constructor].
Qed.

Lemma bypassed_trans (w1 w2 w3 : World) :
  bypassed w1 w2 -> bypassed w2 w3 -> bypassed w1 w3.
Proof.
  intros [Hfs1 (l1 & Hl1 & Hc1)] [Hfs2 (l2 & Hl2 & Hc2)]. split.
  - congruence.
  - exists (l1 ++ l2). split.
    + rewrite Hl2, Hl1, app_assoc. reflexivity.
    + apply Forall_app. split; assumption.
Qed.

Lemma bypassed_set_running (b : bool) (w : World) : bypassed w (set_running b w).
Proof.
  split; [reflexivity |]. exists []. simpl. rewrite app_nil_r.
  split; [reflexivity | constructor].
Qed.

Lemma bypassed_check_events : respects bypassed _check_events.
Proof.
  intros w o w' E. unfold _check_events in E.
  destruct (clicks w) as [| [|] rest]; inversion E; subst;
    (split; [reflexivity |]; exists []; simpl; rewrite app_nil_r;
     split; [reflexivity | constructor]).
Qed.

Lemma bypassed_ret {A} (a : A) : respects bypassed (ret a).
Proof. apply respects_ret. exact bypassed_refl. Qed.

Lemma bypassed_bind {A B} (m : M A) (k : A -> M B) :
  respects bypassed m -> (forall a, respects bypassed (k a)) ->
  respects bypassed (bind m k).
Proof. apply respects_bind. exact bypassed_trans. Qed.

Lemma bypassed_for_each {X S} (body : X -> S -> M (S * bool)) (xs : list X) (s : S) :
  (forall x s, respects bypassed (body x s)) ->
  respects bypassed (for_each body xs s).
Proof.
  intros Hbody. apply respects_for_each;
    [exact bypassed_refl | exact bypassed_trans | intros; apply Hbody].
Qed.

Lemma bypassed_with_tqdm {A} (args : Args) (m : M A) :
  respects bypassed m -> respects bypassed (with_tqdm args m).
Proof.
  apply respects_with_tqdm; [exact bypassed_trans | apply bypassed_set_running].
Qed.

Lemma bypassed_set_description_str (args : Args) (desc : str) :
  respects bypassed (set_description_str args desc).
Proof.
  unfold set_description_str.
  destruct (tqdm args); first [apply bypassed_check_events | apply bypassed_ret].
Qed.

Lemma bypassed_update (args : Args) (n : Z) : respects bypassed (update args n).
Proof.
  unfold update.
  destruct (tqdm args); first [apply bypassed_check_events | apply bypassed_ret].
Qed.

Lemma bypassed_write (args : Args) (s : str) : respects bypassed (write args s).
Proof. apply bypassed_ret. Qed.

Lemma bypassed_stopped (args : Args) : respects bypassed (stopped args).
Proof.
  unfold stopped. destruct (tqdm args); try apply bypassed_ret.
  apply respects_get. exact bypassed_refl.
Qed.

Create HintDb bypass.
#[export] Hint Resolve bypassed_ret bypassed_bind bypassed_for_each
  bypassed_with_tqdm bypassed_set_description_str bypassed_update
  bypassed_write bypassed_stopped : bypass.

(** Goes through the binds and loops of a computation that leaves the
    cache alone. *)
Ltac bypass :=
  repeat first
    [ match goal with |- forall _, _ => intro end
    | solve [auto 1 with bypass]
    | apply bypassed_bind
    | apply bypassed_with_tqdm
    | apply bypassed_for_each ].

Lemma web_add_log (e : event) (w : World) : web (add_log e w) = web w.
Proof. reflexivity. Qed.

Lemma fs_add_log (e : event) (w : World) : fs (add_log e w) = fs w.
Proof. reflexivity. Qed.

Section Cache.
Context `{PyLib}.

(** [get_html] with [nocache]: one request, and the answer of the site
    (the empty text when the request fails) whatever the cache holds. *)
Lemma get_html_nocache (args : Args) (url : str) (w : World) :
  get_html args url true w =
    (Ret (default [] (web w (html_unescape url))),
     add_log (HttpGet (html_unescape url)) w).
Proof.
  unfold get_html, bind, urlopen_html, bind, modify, get, ret.
  cbv beta. cbn [negb]. rewrite ?web_add_log.
  destruct (web w (html_unescape url)); reflexivity.
Qed.

(** [get_html] through the cache: a cached page that is not empty is the
    answer and the site is not asked; otherwise the site is asked and its
    answer stored. *)
Lemma get_html_cached (args : Args) (url : str) (w : World) :
  get_html args url false w =
    match option_map content (fs w !! cache_path args url) with
    | Some (c :: cs) =>
        (Ret (c :: cs), add_log (CacheRead (cache_path args url)) w)
    | _ =>
        match web w (html_unescape url) with
        | Some html =>
            (Ret html,
             add_log (CacheWrite (cache_path args url))
               (set_fs (insert (cache_path args url) (File html []))
                  (add_log (HttpGet (html_unescape url))
                     (add_log (CacheRead (cache_path args url)) w))))
        | None =>
            (Ret [],
             add_log (HttpGet (html_unescape url))
               (add_log (CacheRead (cache_path args url)) w))
        end
    end.
Proof.
  unfold get_html, bind, get_from_cache, urlopen_html, add_to_cache, bind, modify,
    get, ret, cache_path.
  cbv beta. cbn [negb]. rewrite ?fs_add_log.
  destruct (option_map content _) as [[| c cs] |];
    cbv beta iota; rewrite ?web_add_log; try reflexivity;
    destruct (web w (html_unescape url)); reflexivity.
Qed.

Lemma bypassed_get_html (args : Args) (url : str) :
  respects bypassed (get_html args url true).
Proof.
  intros w o w' E. rewrite get_html_nocache in E. inversion E; subst.
  split; [reflexivity |]. exists [HttpGet (html_unescape url)].
  split; [reflexivity |]. constructor; [reflexivity | constructor].
Qed.

Lemma bypassed_get_all_talks_by_topic (args : Args) :
  nocleanup args = true -> respects bypassed (get_all_talks_by_topic args).
Proof.
  intros Hkeep. unfold get_all_talks_by_topic, get_all_topics. rewrite Hkeep.
  pose proof bypassed_get_html as Hget.
  bypass; apply Hget.
Qed.

Lemma bypassed_collect_talks (args : Args) (all_conferences : list Conference.t)
    (all_talks_by_topic : list TalkByTopic.t) :
  nocleanup args = true ->
  respects bypassed (collect_talks args all_conferences all_talks_by_topic).
Proof.
  intros Hkeep. unfold collect_talks. rewrite Hkeep.
  pose proof bypassed_get_html as Hget.
  bypass; apply Hget.
Qed.

(** C9.  With [nocleanup] set:
    - [get_all_languages_map] and [get_all_topics] each make one request
      and leave the cache alone;
    - [get_all_conferences] requests the index, cache left alone, before it
      goes through the groups;
    - reading the conferences ([collect_talks]) and the topics
      ([get_all_talks_by_topic]) only makes requests: no cache file is
      read, none is written.
    And whatever the flag, [get_audio] looks for the talk's page in the
    cache first: a cached page that is not empty is used and the site is
    not asked; otherwise the site is asked and its answer is stored. *)
Theorem nocleanup_bypasses_cache (args : Args) :
  nocleanup args = true ->
  (forall w, exists languages,
      get_all_languages_map args w =
        (Ret languages, add_log (HttpGet (html_unescape (LDS_ORG_URL ++ py "/languages"))) w))
  /\ (forall w, exists topics,
      get_all_topics args w =
        (Ret topics,
         add_log (HttpGet (html_unescape (ALL_TOPICS_URL ++ py "?lang=" ++ lang args))) w))
  /\ (forall w,
      let url := html_unescape (ALL_CONFERENCES_URL ++ py "?lang=" ++ lang args) in
      get_all_conferences args w =
        bind (get_range_conferences args (default [] (web w url)))
          (fun ranged =>
             ret (rev (get_conferences args (default [] (web w url)) ++ ranged)))
          (add_log (HttpGet url) w))
  /\ (forall all_conferences all_talks_by_topic,
      respects bypassed (collect_talks args all_conferences all_talks_by_topic))
  /\ respects bypassed (get_all_talks_by_topic args)
  /\ (forall (any : Args) (talk : Talk.t) (w : World),
      let url := LDS_ORG_URL ++ decode (Talk.link talk) in
      let cached := cache_path any url in
      get_audio any talk w =
        match option_map content (fs w !! cached) with
        | Some (c :: cs) => (audio_of_html (c :: cs), add_log (CacheRead cached) w)
        | _ =>
            match web w (html_unescape url) with
            | Some html =>
                (audio_of_html html,
                 add_log (CacheWrite cached)
                   (set_fs (insert cached (File html []))
                      (add_log (HttpGet (html_unescape url))
                         (add_log (CacheRead cached) w))))
            | None =>
                (audio_of_html [],
                 add_log (HttpGet (html_unescape url))
                   (add_log (CacheRead cached) w))
            end
        end).
Proof.
  intros Hkeep. split; [| split; [| split; [| split; [| split]]]].
  - intros w. unfold get_all_languages_map, bind. rewrite Hkeep, get_html_nocache.
    eexists. reflexivity.
  - intros w. unfold get_all_topics, bind. rewrite Hkeep, get_html_nocache.
    eexists. reflexivity.
  - intros w url. unfold get_all_conferences. rewrite Hkeep.
    unfold bind at 1. rewrite get_html_nocache. reflexivity.
  - intros all_conferences all_talks_by_topic.
    apply bypassed_collect_talks. exact Hkeep.
  - apply bypassed_get_all_talks_by_topic. exact Hkeep.
  - intros any talk w url cached. unfold get_audio, bind.
    rewrite get_html_cached. fold url. fold cached.
    destruct (option_map content (fs w !! cached)) as [[| c cs] |];
      try reflexivity;
      destruct (web w (html_unescape url)); reflexivity.
Qed.

End Cache.


(** The sample site read with [nocleanup]: the topics are fetched and the
    disk stays empty; the page of a talk is fetched and cached, and read
    from the cache the next time. *)
Lemma nocleanup_bypasses_cache_witness :
  let args := Sample.settings 2015 LibTqdm true false in
  let w := Sample.world [] in
  let talk :=
    Talk.mk (Session.mk (Conference.mk [] [] 2021 4) [] [] 10)
      (py "/study/general-conference/2021/04/11nelson?lang=eng")
      (py "Welcome Message") (py "Russell M. Nelson") [] in
  nocleanup args = true
  /\ bypassed w (snd (get_all_talks_by_topic (H := Sample.lib) args w))
  /\ log (snd (get_all_talks_by_topic (H := Sample.lib) args w)) =
       [HttpGet (ALL_TOPICS_URL ++ py "?lang=eng");
        HttpGet (LDS_ORG_URL ++ py "/study/general-conference/topics/faith?lang=eng")]
  /\ log (snd (get_audio (H := Sample.lib) args talk
                 (snd (get_audio (H := Sample.lib) args talk w)))) =
       [CacheRead (cache_path (H := Sample.lib) args (LDS_ORG_URL ++ Talk.link talk));
        HttpGet (LDS_ORG_URL ++ Talk.link talk);
        CacheWrite (cache_path (H := Sample.lib) args (LDS_ORG_URL ++ Talk.link talk));
        CacheRead (cache_path (H := Sample.lib) args (LDS_ORG_URL ++ Talk.link talk))].
Proof.
  intros args w talk.
  destruct (nocleanup_bypasses_cache (H := Sample.lib) args eq_refl)
    as (_ & _ & _ & _ & Htopics & Haudio).
  split; [reflexivity |]. split; [| split].
  - apply (Htopics w (fst (get_all_talks_by_topic (H := Sample.lib) args w))).
    apply surjective_pairing.
  - vm_compute. reflexivity.
  - rewrite !Haudio. vm_compute. reflexivity.
Defined.

(* ================================================================== *)
(** * Cancellation                                                     *)
(* ================================================================== *)

Lemma polled_refl (w : World) : polled w w.
Proof. exists []. split; reflexivity. Qed.

Lemma polled_trans (w1 w2 w3 : World) : polled w1 w2 -> polled w2 w3 -> polled w1 w3.
Proof.
  intros (s1 & Hc1 & Hr1) (s2 & Hc2 & Hr2). exists (s1 ++ s2). split.
  - rewrite Hc1, Hc2, app_assoc. reflexivity.
  - rewrite Hr2, Hr1, existsb_app.
    destruct (existsb (fun c => c) s1), (existsb (fun c => c) s2); reflexivity.
Qed.

Lemma polled_ret {A} (a : A) : respects polled (ret a).
Proof. apply respects_ret. exact polled_refl. Qed.

Lemma polled_get {A} (f : World -> A) : respects polled (get f).
Proof. apply respects_get. exact polled_refl. Qed.

Lemma polled_lift {A} (o : outcome A) : respects polled (lift o).
Proof. apply respects_lift. exact polled_refl. Qed.

Lemma polled_raise {A} (what : string) : respects polled (raise (A := A) what).
Proof. intros w o w' E. inversion E; subst. apply polled_refl. Qed.

Lemma polled_modify (f : World -> World) :
  (forall w, clicks (f w) = clicks w /\ running (f w) = running w) ->
  respects polled (modify f).
Proof.
  intros Hf. apply respects_modify. intros w. destruct (Hf w) as [Hc Hr].
  exists []. split; [rewrite Hc | rewrite Hr]; reflexivity.
Qed.

Lemma polled_bind {A B} (m : M A) (k : A -> M B) :
  respects polled m -> (forall a, respects polled (k a)) ->
  respects polled (bind m k).
Proof. apply respects_bind. exact polled_trans. Qed.

Lemma polled_for_each {X S} (body : X -> S -> M (S * bool)) (xs : list X) (s : S) :
  (forall x s, respects polled (body x s)) ->
  respects polled (for_each body xs s).
Proof.
  intros Hbody. apply respects_for_each;
    [exact polled_refl | exact polled_trans | intros; apply Hbody].
Qed.

Lemma polled_for_in {X S} (body : X -> S -> M S) (xs : list X) (s : S) :
  (forall x s, respects polled (body x s)) ->
  respects polled (for_in body xs s).
Proof.
  intros Hbody. unfold for_in. apply polled_for_each. intros x s1.
  apply polled_bind; [apply Hbody | intros s2; apply polled_ret].
Qed.

Lemma polled_check_events : respects polled _check_events.
Proof.
  intros w o w' E. unfold _check_events in E.
  destruct (clicks w) as [| c rest] eqn:Ec; inversion E; subst.
  - apply polled_refl.
  - exists [c]. split; [exact Ec |]. destruct c; reflexivity.
Qed.

(** Goes through a computation that touches the window by polls only. *)
Ltac polls :=
  repeat first
    [ match goal with |- forall _, _ => intro end
    | apply polled_ret
    | apply polled_get
    | apply polled_lift
    | apply polled_raise
    | apply polled_check_events
    | apply polled_modify; intro; split; reflexivity
    | apply polled_bind
    | apply polled_for_each
    | apply polled_for_in
    | match goal with
      | |- respects polled (match ?x with _ => _ end) => destruct x
      end ].

Lemma with_tqdm_stopped {A} (args : Args) (body : M A) (w w' : World)
    (o : outcome A) :
  tqdm args = GuiTqdm ->
  with_tqdm args body w = (o, w') ->
  running w' = false ->
  o = Exit 2.
Proof.
  intros Hgui E Hstop. unfold with_tqdm in E. rewrite Hgui in E.
  destruct (body (set_running true w)) as [o1 w1].
  destruct (running w1) eqn:Erun; inversion E; subst; congruence.
Qed.

Lemma run_returned {A} (m : M A) (w : World) (a : A) :
  returned (m w) = Some a -> m w = (Ret a, snd (m w)).
Proof.
  unfold returned. destruct (m w) as [[a' | c | e] w']; simpl; congruence.
Qed.

Section Cancellation.
Context `{PyLib}.

Lemma download_talk_stop (args : Args) (talk : Talk.t) (playlists playlists' : playlists_t)
    (stop : bool) (w w' : World) :
  tqdm args = GuiTqdm ->
  download_talk args talk playlists w = (Ret (playlists', stop), w') ->
  stop = negb (running w').
Proof.
  intros Hgui E. unfold download_talk in E.
  apply bind_Ret in E. destruct E as (? & w1 & _ & E).
  apply bind_Ret in E. destruct E as (audio & w2 & _ & E).
  apply bind_Ret in E. destruct E as (playlists1 & w3 & _ & E).
  apply bind_Ret in E. destruct E as (? & w4 & _ & E).
  apply bind_Ret in E. destruct E as (stop' & w5 & Estop & E).
  unfold stopped in Estop. rewrite Hgui in Estop.
  inversion Estop; subst. inversion E; subst. reflexivity.
Qed.

(** A turn of the download loop that goes through, step by step. *)
Lemma download_talk_carried_through (args : Args) (talk : Talk.t)
    (playlists playlists' : playlists_t) (stop : bool) (wa wb : World) :
  download_talk args talk playlists wa = (Ret (playlists', stop), wb) ->
  carried_through args talk playlists playlists' wa.
Proof.
  intros E. unfold download_talk in E.
  apply bind_Ret in E. destruct E as ([] & w0 & Edesc & E).
  apply bind_Ret in E. destruct E as (audio & w1 & Eaudio & E).
  apply bind_Ret in E. destruct E as (playlists1 & w5 & Ecarry & E).
  apply bind_Ret in E. destruct E as (? & w6 & _ & E).
  apply bind_Ret in E. destruct E as (stop' & w7 & _ & E).
  inversion E; subst playlists1 stop' w7. clear E.
  exists audio, w0, w1. split; [exact Edesc |]. split; [exact Eaudio |].
  destruct audio as [audio |]; [| inversion Ecarry; reflexivity].
  cbv zeta in Ecarry. fold (audio_path args talk audio) in Ecarry.
  apply bind_Ret in Ecarry. destruct Ecarry as (downloaded & w2 & Edown & Ecarry).
  exists downloaded, w2. split; [exact Edown |].
  destruct downloaded; [| inversion Ecarry; reflexivity].
  apply bind_Ret in Ecarry. destruct Ecarry as ([] & w3 & Estamp & Ecarry).
  exists w3. split; [exact Estamp |].
  destruct (noplaylists args); simpl in Ecarry.
  - inversion Ecarry; reflexivity.
  - exists w5. exact Ecarry.
Qed.

Lemma polled_download_talk (args : Args) (talk : Talk.t) (playlists : playlists_t) :
  respects polled (download_talk args talk playlists).
Proof.
  unfold download_talk, set_description_str, update, stopped, get_audio, get_html,
    get_from_cache, urlopen_html, add_to_cache, download_audio, isfile,
    write_mp3_to_disk, write_exception, stamp, update_playlists, MP3, in_place.
  polls.
Qed.

(** Whether the download block is left with the bar running is decided by
    the polls made in it. *)
Lemma download_talks_polls (args : Args) (all_talks : list Talk.t)
    (playlists : playlists_t) (w w' : World) (o : outcome playlists_t) :
  tqdm args = GuiTqdm ->
  download_talks args all_talks playlists w = (o, w') ->
  exists seen : list bool,
    clicks w = seen ++ clicks w'
    /\ (running w' = false <-> In true seen).
Proof.
  intros Hgui E. unfold download_talks, with_tqdm in E. rewrite Hgui in E.
  destruct (bind _ _ (set_running true w)) as [o1 w1] eqn:Ebody.
  assert (Hpolled : polled (set_running true w) w1).
  { revert Ebody. apply polled_bind.
    - unfold write. apply polled_ret.
    - intros _. apply polled_for_each. intros talk d.
      apply polled_download_talk. }
  assert (w1 = w') by (destruct (running w1); inversion E; reflexivity).
  subst w1. destruct Hpolled as (seen & Hclicks & Hrunning).
  exists seen. split; [exact Hclicks |]. simpl in Hrunning. rewrite Hrunning.
  destruct (existsb (fun c => c) seen) eqn:Eseen.
  - split; [intros _ | reflexivity].
    apply existsb_exists in Eseen. destruct Eseen as ([|] & Hin & Hc);
      [exact Hin | discriminate].
  - split; [discriminate |]. intros Hin.
    assert (Hex : existsb (fun c => c) seen = true)
      by (apply existsb_exists; exists true; split; [exact Hin | reflexivity]).
    congruence.
Qed.

(** C3, as the code has it.  Under the window's progress bar, let the
    talks be gathered and let Cancel be the answer to one of the polls
    made in the download block ([seen] are the answers to those polls).
    Then the block ends in [sys.exit(2)], and so does
    [download_all_content], in the world the block left: the playlists are
    not written and the cache is not cleaned.  Within the block, the talk
    at whose polls the bar stopped is carried through and no talk after it
    is touched; carried through, the talk is in the playlists exactly when
    it has a recording, the recording is on the disk or could be fetched,
    and playlists are wanted: otherwise the playlists are as they were. *)
Theorem cancelled_download_exits (args : Args) (w w1 w2 : World)
    (all_talks : list Talk.t) (o : outcome playlists_t) (seen : list bool) :
  tqdm args = GuiTqdm ->
  get_all_talks args w = (Ret all_talks, w1) ->
  download_talks args all_talks (initial_playlists args all_talks) w1 = (o, w2) ->
  clicks w1 = seen ++ clicks w2 ->
  In true seen ->
  o = Exit 2
  /\ running w2 = false
  /\ download_all_content args w = (Exit 2, w2)
  /\ (forall (talk : Talk.t) (rest : list Talk.t) (playlists playlists' : playlists_t)
             (stop : bool) (wa wb : World),
        download_talk args talk playlists wa = (Ret (playlists', stop), wb) ->
        running wb = false ->
        for_each (download_talk args) (talk :: rest) playlists wa
          = (Ret playlists', wb))
  /\ (forall (talk : Talk.t) (playlists playlists' : playlists_t)
             (stop : bool) (wa wb : World),
        download_talk args talk playlists wa = (Ret (playlists', stop), wb) ->
        carried_through args talk playlists playlists' wa).
Proof.
  intros Hgui Htalks Hblock Hclicks Hcancel.
  assert (Hstopped : running w2 = false).
  { destruct (download_talks_polls args all_talks _ w1 w2 o Hgui Hblock)
      as (seen' & Hclicks' & Hiff).
    rewrite Hclicks in Hclicks'. apply app_inv_tail in Hclicks'. subst seen'.
    apply Hiff. exact Hcancel. }
  assert (Ho : o = Exit 2)
    by (apply (with_tqdm_stopped args _ w1 w2 o Hgui Hblock Hstopped)).
  subst o. split; [reflexivity |]. split; [exact Hstopped |].
  split; [| split].
  - unfold download_all_content, bind. rewrite Htalks.
    fold (initial_playlists args all_talks). rewrite Hblock. reflexivity.
  - intros talk rest playlists playlists' stop wa wb Etalk Hwb.
    pose proof (download_talk_stop args talk playlists playlists' stop wa wb
                  Hgui Etalk) as Hstop.
    rewrite Hwb in Hstop. simpl in Hstop. subst stop.
    simpl. unfold bind. rewrite Etalk. reflexivity.
  - intros talk playlists playlists' stop wa wb.
    apply download_talk_carried_through.
Qed.

End Cancellation.

(* ================================================================== *)
(** * Sustainings and audit reports                                    *)
(* ================================================================== *)

Lemma has_key_lookup (k : str) (d : playlists_t) :
  has_key k d = true <-> exists v, lookup_key k d = Some v.
Proof.
  unfold has_key. induction d as [| [k' v] d IH]; simpl.
  - split; [discriminate | intros [v Hv]; discriminate].
  - destruct (str_eqb k k'); simpl.
    + split; [intros _; exists v; reflexivity | reflexivity].
    + exact IH.
Qed.

Lemma lookup_change_key_other (k k' : str) (f : list entry -> list entry)
    (d : playlists_t) :
  k' <> k -> lookup_key k' (change_key k f d) = lookup_key k' d.
Proof.
  intros Hne. induction d as [| [k0 v] d IH]; simpl; [reflexivity |].
  destruct (str_eqb k k0) eqn:Ek; simpl.
  - apply str_eqb_eq in Ek. subst k0.
    destruct (str_eqb k' k) eqn:Ek'; [| reflexivity].
    apply str_eqb_eq in Ek'. contradiction.
  - rewrite IH. reflexivity.
Qed.

Lemma lookup_change_key_same (k : str) (f : list entry -> list entry)
    (d : playlists_t) :
  lookup_key k (change_key k f d) = option_map f (lookup_key k d).
Proof.
  induction d as [| [k0 v] d IH]; simpl; [reflexivity |].
  destruct (str_eqb k k0) eqn:Ek; simpl; rewrite Ek; [reflexivity | exact IH].
Qed.

Lemma change_key_no_sustaining (k : str) (f : list entry -> list entry)
    (d : playlists_t) :
  (forall v, Forall (fun item => sustaining_or_audit (title item) = false) v ->
             Forall (fun item => sustaining_or_audit (title item) = false) (f v)) ->
  no_sustaining d -> no_sustaining (change_key k f d).
Proof.
  intros Hf. unfold no_sustaining.
  induction 1 as [| [k0 v] d Hv Hd IH]; simpl; [constructor |].
  destruct (str_eqb k k0).
  - constructor; [apply Hf; exact Hv | exact Hd].
  - constructor; [exact Hv | exact IH].
Qed.

Lemma in_place_Ret (k : str) (f : list entry -> list entry) (d d' : playlists_t)
    (w w' : World) :
  in_place k f d w = (Ret d', w') ->
  d' = change_key k f d /\ has_key k d = true /\ w' = w.
Proof.
  unfold in_place. destruct (has_key k d); intros E; inversion E; subst.
  repeat split.
Qed.

Lemma speakers_not_topics (speaker topic : str) :
  py "Speakers/GC-S-" ++ speaker <> py "Topics/GC-T-" ++ topic.
Proof.
  intros E. apply (f_equal (hd 0%N)) in E. vm_compute in E. discriminate.
Qed.

Lemma speakers_not_all (speaker : str) :
  py "Speakers/GC-S-" ++ speaker <> py "Conferences/GC-All".
Proof.
  intros E. apply (f_equal (hd 0%N)) in E. vm_compute in E. discriminate.
Qed.

(** The loop of [update_playlists] over the topics of a talk. *)
Lemma topics_loop (item : entry) (topics : list str) :
  forall (d d' : playlists_t) (w w' : World),
    for_in (fun topic playlists =>
              in_place (py "Topics/GC-T-" ++ topic) (cons item) playlists)
      topics d w = (Ret d', w') ->
    (forall speaker,
        lookup_key (py "Speakers/GC-S-" ++ speaker) d'
        = lookup_key (py "Speakers/GC-S-" ++ speaker) d)
    /\ (forall k items,
          lookup_key k d = Some items -> In item items ->
          exists items', lookup_key k d' = Some items' /\ In item items')
    /\ (forall topic,
          In topic topics ->
          exists items,
            lookup_key (py "Topics/GC-T-" ++ topic) d' = Some items
            /\ In item items).
Proof.
  induction topics as [| t topics IH]; intros d d' w w' E.
  - inversion E; subst. split; [reflexivity |]. split.
    + intros k items Hk Hin. exists items. split; assumption.
    + intros topic [].
  - rewrite for_in_cons in E. apply bind_Ret in E.
    destruct E as (d1 & w1 & Estep & E).
    apply in_place_Ret in Estep. destruct Estep as (-> & Hkey & ->).
    destruct (IH _ _ _ _ E) as (Hspeakers & Hkeeps & Htopics).
    assert (Hstep : forall k items,
               lookup_key k d = Some items -> In item items ->
               exists items',
                 lookup_key k (change_key (py "Topics/GC-T-" ++ t) (cons item) d)
                 = Some items' /\ In item items').
    { intros k items Hk Hin.
      destruct (str_eqb k (py "Topics/GC-T-" ++ t)) eqn:Ek.
      - apply str_eqb_eq in Ek. subst k. rewrite lookup_change_key_same, Hk.
        exists (item :: items). split; [reflexivity | right; exact Hin].
      - rewrite lookup_change_key_other.
        + exists items. split; assumption.
        + intros ->. rewrite str_eqb_refl in Ek. discriminate. }
    split; [| split].
    + intros speaker. rewrite Hspeakers.
      apply lookup_change_key_other. apply speakers_not_topics.
    + intros k items Hk Hin.
      destruct (Hstep k items Hk Hin) as (items1 & Hk1 & Hin1).
      apply (Hkeeps k items1 Hk1 Hin1).
    + intros topic [<- | Hin]; [| apply Htopics; exact Hin].
      apply has_key_lookup in Hkey. destruct Hkey as [items Hitems].
      apply (Hkeeps (py "Topics/GC-T-" ++ t) (item :: items)).
      * rewrite lookup_change_key_same, Hitems. reflexivity.
      * left. reflexivity.
Qed.

Lemma setdefault_all_empty (k : str) (d : playlists_t) :
  Forall (fun kv => snd kv = []) d -> Forall (fun kv => snd kv = []) (setdefault k d).
Proof.
  intros Hd. unfold setdefault. destruct (has_key k d); [exact Hd |].
  apply Forall_app. split; [exact Hd | constructor; [reflexivity | constructor]].
Qed.

Lemma fold_left_invariant {A B} (P : A -> Prop) (f : A -> B -> A) (l : list B) :
  (forall a b, P a -> P (f a b)) -> forall a, P a -> P (fold_left f l a).
Proof.
  intros Hf. induction l as [| b l IH]; intros a Ha; simpl; [exact Ha |].
  apply IH. apply Hf. exact Ha.
Qed.

Lemma create_playlists_all_empty (args : Args) (all_talks : list Talk.t) :
  Forall (fun kv => snd kv = []) (create_playlists args all_talks).
Proof.
  unfold create_playlists.
  apply (fold_left_invariant (Forall (fun kv : str * list entry => snd kv = [])));
    [| constructor].
  intros d talk Hd.
  apply (fold_left_invariant (Forall (fun kv : str * list entry => snd kv = []))).
  - intros d' topic Hd'. apply setdefault_all_empty. exact Hd'.
  - apply setdefault_all_empty. apply setdefault_all_empty. exact Hd.
Qed.

Lemma initial_playlists_no_sustaining (args : Args) (all_talks : list Talk.t) :
  no_sustaining (initial_playlists args all_talks).
Proof.
  unfold initial_playlists, no_sustaining.
  destruct (negb (noplaylists args)); [| constructor].
  eapply List.Forall_impl; [| apply create_playlists_all_empty].
  intros kv ->. constructor.
Qed.

Lemma in_place_no_sustaining (k : str) (f : list entry -> list entry)
    (d : playlists_t) :
  (forall v, Forall (fun item => sustaining_or_audit (title item) = false) v ->
             Forall (fun item => sustaining_or_audit (title item) = false) (f v)) ->
  no_sustaining d -> yields (in_place k f d) no_sustaining.
Proof.
  intros Hf Hd w d' w' E. apply in_place_Ret in E. destruct E as (-> & _ & _).
  apply change_key_no_sustaining; assumption.
Qed.

Section Sustaining.
Context `{PyLib}.

Lemma update_playlists_no_sustaining (args : Args) (playlists : playlists_t)
    (talk : Talk.t) (audio : Audio.t) :
  sustaining_or_audit (Talk.title talk) = false ->
  no_sustaining playlists ->
  yields (update_playlists args playlists talk audio) no_sustaining.
Proof.
  intros Htalk Hd. unfold update_playlists.
  eapply yields_bind; [apply yields_any | intros seconds _].
  eapply yields_bind.
  - apply in_place_no_sustaining; [| exact Hd].
    intros v Hv. apply Forall_app. split; [exact Hv |].
    constructor; [exact Htalk | constructor].
  - intros d1 Hd1. eapply yields_bind.
    + apply yields_for_in; [| exact Hd1].
      intros topic d2 _ Hd2. apply in_place_no_sustaining; [| exact Hd2].
      intros v Hv. constructor; [exact Htalk | exact Hv].
    + intros d3 Hd3.
      destruct (negb (find (Talk.title talk) (py "Sustaining of") =? -1)
                || startswith (Talk.title talk) (py "Church Auditing")).
      * apply yields_ret. exact Hd3.
      * apply in_place_no_sustaining; [| exact Hd3].
        intros v Hv. constructor; [exact Htalk | exact Hv].
Qed.

Lemma download_talk_no_sustaining (args : Args) (talk : Talk.t)
    (playlists : playlists_t) :
  sustaining_or_audit (Talk.title talk) = false ->
  no_sustaining playlists ->
  yields (download_talk args talk playlists) (fun r => no_sustaining (fst r)).
Proof.
  intros Htalk Hd. unfold download_talk.
  eapply yields_bind; [apply yields_any | intros _ _].
  eapply yields_bind; [apply yields_any | intros audio _].
  eapply yields_bind with (Q := no_sustaining).
  - destruct audio as [audio |]; [| apply yields_ret; exact Hd].
    eapply yields_bind; [apply yields_any | intros downloaded _].
    destruct downloaded; [| apply yields_ret; exact Hd].
    eapply yields_bind; [apply yields_any | intros _ _].
    destruct (negb (noplaylists args)); [| apply yields_ret; exact Hd].
    apply update_playlists_no_sustaining; assumption.
  - intros d1 Hd1.
    eapply yields_bind; [apply yields_any | intros _ _].
    eapply yields_bind; [apply yields_any | intros stop _].
    apply yields_ret. exact Hd1.
Qed.

Lemma download_talks_no_sustaining (args : Args) (all_talks : list Talk.t)
    (playlists : playlists_t) :
  Forall (fun talk => sustaining_or_audit (Talk.title talk) = false) all_talks ->
  no_sustaining playlists ->
  yields (download_talks args all_talks playlists) no_sustaining.
Proof.
  intros Htalks Hd. unfold download_talks. apply yields_with_tqdm.
  eapply yields_bind; [apply yields_any | intros _ _].
  apply yields_for_each; [| exact Hd].
  intros talk d1 Hin Hd1. apply download_talk_no_sustaining; [| exact Hd1].
  rewrite List.Forall_forall in Htalks. apply Htalks. exact Hin.
Qed.

(** [update_playlists] alone, on a sustaining or an audit report: the
    speakers' playlists stay as they are, and the playlist of each of the
    talk's topics gets the talk. *)
Lemma update_playlists_sustaining (args : Args) (playlists playlists' : playlists_t)
    (talk : Talk.t) (audio : Audio.t) (w w' : World) :
  sustaining_or_audit (Talk.title talk) = true ->
  update_playlists args playlists talk audio w = (Ret playlists', w') ->
  (forall speaker,
      lookup_key (py "Speakers/GC-S-" ++ speaker) playlists'
      = lookup_key (py "Speakers/GC-S-" ++ speaker) playlists)
  /\ (forall topic,
        In topic (Talk.topics talk) ->
        exists items item,
          lookup_key (py "Topics/GC-T-" ++ topic) playlists' = Some items
          /\ In item items /\ title item = Talk.title talk).
Proof.
  intros Htalk E. unfold update_playlists in E.
  apply bind_Ret in E. destruct E as (seconds & w1 & _ & E).
  apply bind_Ret in E. destruct E as (d1 & w2 & Eall & E).
  apply bind_Ret in E. destruct E as (d2 & w3 & Etopics & E).
  unfold sustaining_or_audit in Htalk. rewrite Htalk in E.
  inversion E; subst. clear E.
  apply in_place_Ret in Eall. destruct Eall as (-> & _ & ->).
  apply topics_loop in Etopics. destruct Etopics as (Hspeakers & _ & Htopics).
  split.
  - intros speaker. rewrite Hspeakers.
    apply lookup_change_key_other. apply speakers_not_all.
  - intros topic Hin. destruct (Htopics topic Hin) as (items & Hitems & Hitem).
    eexists items, _. split; [exact Hitems |]. split; [exact Hitem | reflexivity].
Qed.

(** C2, as the code has it.  In a run that gathers the talks and goes
    through the download block: no talk of the working set is a sustaining
    or an audit report, and no entry of any playlist, be it the playlist
    of all talks, of a speaker or of a topic, is one: the playlists are
    built from the working set only.  The test in [update_playlists]
    itself concerns the speaker's playlist alone: handed such a talk, it
    leaves the speakers' playlists as they are and adds the talk to the
    playlist of each of its topics. *)
Theorem sustaining_in_no_playlist (args : Args) (w w1 w2 : World)
    (all_talks : list Talk.t) (playlists : playlists_t) :
  get_all_talks args w = (Ret all_talks, w1) ->
  download_talks args all_talks (initial_playlists args all_talks) w1
    = (Ret playlists, w2) ->
  Forall (fun talk => sustaining_or_audit (Talk.title talk) = false) all_talks
  /\ (forall (name : str) (items : list entry) (item : entry),
        lookup_key name playlists = Some items -> In item items ->
        sustaining_or_audit (title item) = false)
  /\ (forall (talk : Talk.t) (audio : Audio.t) (before after : playlists_t)
             (wa wb : World),
        sustaining_or_audit (Talk.title talk) = true ->
        update_playlists args before talk audio wa = (Ret after, wb) ->
        (forall speaker,
            lookup_key (py "Speakers/GC-S-" ++ speaker) after
            = lookup_key (py "Speakers/GC-S-" ++ speaker) before)
        /\ (forall topic,
              In topic (Talk.topics talk) ->
              exists items item,
                lookup_key (py "Topics/GC-T-" ++ topic) after = Some items
                /\ In item items /\ title item = Talk.title talk)).
Proof.
  intros Htalks Hblock.
  assert (Hset : Forall (fun talk => sustaining_or_audit (Talk.title talk) = false)
                   all_talks).
  { destruct (get_all_talks_well_formed args w w1 all_talks Htalks) as [tbts Hwf].
    eapply List.Forall_impl; [| exact Hwf]. intros talk [_ Htalk]. exact Htalk. }
  split; [exact Hset |]. split.
  - pose proof (download_talks_no_sustaining args all_talks _ Hset
                  (initial_playlists_no_sustaining args all_talks) _ _ _ Hblock)
      as Hclean.
    intros name items item Hname Hitem.
    unfold no_sustaining in Hclean. rewrite List.Forall_forall in Hclean.
    assert (Hkv : exists k, In (k, items) playlists).
    { clear Hclean Hblock. induction playlists as [| [k v] d IH];
        [discriminate |].
      simpl in Hname. destruct (str_eqb name k).
      - inversion Hname; subst. exists k. left. reflexivity.
      - destruct (IH Hname) as [k' Hk']. exists k'. right. exact Hk'. }
    destruct Hkv as [k Hkv]. specialize (Hclean _ Hkv). simpl in Hclean.
    rewrite List.Forall_forall in Hclean. apply Hclean. exact Hitem.
  - intros talk audio before after wa wb.
    apply update_playlists_sustaining.
Qed.

End Sustaining.

(* ================================================================== *)
(** * Runs on the sample site                                          *)
(* ================================================================== *)

(** A run to the end of the download block, with the sample settings. *)
Lemma sustaining_in_no_playlist_witness :
  let args := Sample.args in
  let gathered := get_all_talks (H := Sample.lib) args (Sample.world []) in
  let all_talks := default [] (returned gathered) in
  let block :=
    download_talks (H := Sample.lib) args all_talks
      (initial_playlists args all_talks) (snd gathered) in
  option_map (List.map (fun kv => (fst kv, List.map title (snd kv)))) (returned block)
  = Some [ (py "Conferences/GC-All",
            [py "Small and Simple Things"; py "The Message"; py "Welcome Message"]);
           (py "Speakers/GC-S-Dallin H. Oaks", [py "Small and Simple Things"]);
           (py "Topics/GC-T-Faith", [py "Small and Simple Things"]);
           (py "Speakers/GC-S-Jeffrey R. Holland", [py "The Message"]);
           (py "Speakers/GC-S-Russell M. Nelson", [py "Welcome Message"]) ]
  /\ forall (name : str) (items : list entry) (item : entry),
       lookup_key name (default [] (returned block)) = Some items ->
       In item items ->
       sustaining_or_audit (title item) = false.
Proof.
  intros args gathered all_talks block.
  split; [vm_compute; reflexivity |].
  assert (Hgathered : gathered = (Ret all_talks, snd gathered)).
  { apply run_returned. vm_compute. reflexivity. }
  assert (Hblock : block = (Ret (default [] (returned block)), snd block)).
  { apply run_returned. vm_compute. reflexivity. }
  apply (sustaining_in_no_playlist (H := Sample.lib) args (Sample.world [])
           (snd gathered) (snd block) all_talks (default [] (returned block))
           Hgathered Hblock).
Defined.

(** C2, as the claim has it, fails on the sample site.  The page of April
    2021 lists the talk Sustaining of General Authorities by Dallin H.
    Oaks; the page of the topic Faith lists it too, so it carries that
    topic; its page has a download anchor.  After the download block the
    playlist of Faith holds one talk, and it is another one. *)
Lemma sustaining_topic_counterexample :
  let args := Sample.args in
  let w := Sample.world [] in
  let title_ := py "Sustaining of General Authorities" in
  let speaker := py "Dallin H. Oaks" in
  let gathered := get_all_talks (H := Sample.lib) args w in
  let all_talks := default [] (returned gathered) in
  let block :=
    download_talks (H := Sample.lib) args all_talks
      (initial_playlists args all_talks) (snd gathered) in
  In [py "/study/general-conference/2021/04/21oaks?lang=eng"; title_; speaker]
    (re.findall (H := Sample.lib) true SESSION_TALKS_REGEX Sample.conference_2021_04)
  /\ clean_title (H := Sample.lib) title_ = title_
  /\ sustaining_or_audit title_ = true
  /\ option_map (fun tbts => joined_topics tbts title_ speaker)
       (returned (get_all_talks_by_topic (H := Sample.lib) args w))
     = Some [py "Faith"]
  /\ audio_of_html (H := Sample.lib) (Sample.talk_html "2021-04-1020-oaks")
     = Ret (Some (Audio.mk (py "https://media.example/2021-04-1020-oaks.mp3?lang=eng")
                    (py "2021-04-1020-oaks.mp3")))
  /\ option_map (List.map Talk.title) (returned gathered)
     = Some [py "Small and Simple Things"; py "The Message"; py "Welcome Message"]
  /\ option_map (fun playlists =>
                   option_map (List.map title)
                     (lookup_key (py "Topics/GC-T-Faith") playlists))
       (returned block)
     = Some (Some [py "Small and Simple Things"]).
Proof.
  vm_compute.
  split; [right; left; reflexivity |].
  repeat split; reflexivity.
Qed.

(** A run under the window's bar in which Cancel is seen at the first
    poll of the download block (the eight polls before it belong to the
    gathering of topics and talks). *)
Lemma cancelled_download_exits_witness :
  let args := Sample.settings 2015 GuiTqdm false false in
  let w := Sample.world (repeat false 8 ++ [true]) in
  let gathered := get_all_talks (H := Sample.lib) args w in
  let all_talks := default [] (returned gathered) in
  let block :=
    download_talks (H := Sample.lib) args all_talks
      (initial_playlists args all_talks) (snd gathered) in
  tqdm args = GuiTqdm
  /\ clicks (snd gathered) = [true] ++ clicks (snd block)
  /\ running (snd block) = false
  /\ download_all_content (H := Sample.lib) args w = (Exit 2, snd block).
Proof.
  intros args w gathered all_talks block.
  split; [reflexivity |]. split; [vm_compute; reflexivity |].
  assert (Hgathered : gathered = (Ret all_talks, snd gathered)).
  { apply run_returned. vm_compute. reflexivity. }
  destruct (cancelled_download_exits (H := Sample.lib) args w (snd gathered)
              (snd block) all_talks (fst block) [true])
    as (_ & Hstopped & Hexit & _).
  - reflexivity.
  - exact Hgathered.
  - apply surjective_pairing.
  - vm_compute. reflexivity.
  - left. reflexivity.
  - split; assumption.
Defined.

(** C3, as the claim has it, fails on that run.  Playlists are wanted;
    Cancel is seen during the first talk of the download block; that talk
    is carried through (its file is on the disk, and it is in the playlist
    of all talks, of its speaker and of its topic when the loop breaks);
    the run ends with status 2, and no playlist file is on the disk. *)
Lemma cancelled_download_counterexample :
  let args := Sample.settings 2015 GuiTqdm false false in
  let w := Sample.world (repeat false 8 ++ [true]) in
  let gathered := get_all_talks (H := Sample.lib) args w in
  let all_talks := default [] (returned gathered) in
  let loop :=
    for_each (download_talk (H := Sample.lib) args) all_talks
      (initial_playlists args all_talks) (set_running true (snd gathered)) in
  let done := download_all_content (H := Sample.lib) args w in
  noplaylists args = false
  /\ option_map (List.map Talk.title) (returned gathered)
     = Some [py "Small and Simple Things"; py "The Message"; py "Welcome Message"]
  /\ running (snd gathered) = true
  /\ option_map (List.map (fun kv => (fst kv, List.map title (snd kv)))) (returned loop)
     = Some [ (py "Conferences/GC-All", [py "Small and Simple Things"]);
              (py "Speakers/GC-S-Dallin H. Oaks", [py "Small and Simple Things"]);
              (py "Topics/GC-T-Faith", [py "Small and Simple Things"]);
              (py "Speakers/GC-S-Jeffrey R. Holland", []);
              (py "Speakers/GC-S-Russell M. Nelson", []) ]
  /\ running (snd loop) = false
  /\ fst done = Exit 2
  /\ List.filter (fun p => endswith p (py ".m3u"))
       (List.map fst (map_to_list (fs (snd done)))) = []
  /\ List.filter (fun p => endswith p (py ".mp3"))
       (List.map fst (map_to_list (fs (snd done))))
     = [py "/music/GeneralConference (eng)/MP3/2018/April/10-Saturday Afternoon Session/2018-04-2020-oaks.mp3"].
Proof.
  vm_compute. repeat split; reflexivity.
Qed.

(* ================================================================== *)
(** * The arguments of the command line, and more on the cache     *)
(* ================================================================== *)

Arguments py : simpl never.

Section Years.
Context `{PyLib}.

Lemma with_years_self (args : Args) : args = with_years args (start args) (end_ args).
Proof. destruct args. reflexivity. Qed.

(** Names the value of the outermost [let] of a hypothesis, without
    unfolding it into the body. *)
Ltac name_let E a Ea :=
  match type of E with
  | context C [let x := ?v in @?k x] =>
      pose (a := v);
      let t := context C [k a] in
      change t in E; cbv beta in E;
      assert (Ea : a = v) by reflexivity;
      clearbody a
  end.

Lemma validate_args_Ret (args args' : Args) (m : gmap str str) (w w' : World) :
  validate_args args w = (Ret (args', m), w') ->
  get_all_languages_map args w = (Ret m, w')
  /\ is_Some (m !! lang args)
  /\ exists s e, args' = with_years args s e
     /\ s <= e
     /\ min_year args <= s
     /\ (min_year args <= max_year args -> e <= max_year args)
     /\ (min_year args <= start args -> start args <= end_ args ->
         end_ args <= max_year args -> s = start args /\ e = end_ args).
Proof.
  intros E. cbv delta [validate_args] in E. cbv beta in E. apply bind_Ret in E.
  destruct E as (lang_map & w1 & Emap & E). cbv beta in E.
  destruct (lang_map !! lang args) as [name |] eqn:Elang; [| discriminate].
  name_let E a1 E1. name_let E a2 E2. name_let E a3 E3. name_let E a4 E4.
  name_let E a5 E5.
  inversion E; subst lang_map w1 args'; clear E.
  split; [exact Emap |]. split; [eexists; exact Elang |].
  assert (H1 : exists s, a1 = with_years args s (end_ args)
                         /\ s = if start args >? max_year args then max_year args
                                else start args).
  { subst a1. destruct (start args >? max_year args); eexists; (split; [| reflexivity]).
    - reflexivity.
    - apply with_years_self. }
  clear E1. destruct H1 as (s1 & -> & Hs1).
  assert (H2 : exists s, a2 = with_years args s (end_ args)
                         /\ s = if s1 <? min_year args then min_year args else s1).
  { subst a2. simpl. destruct (s1 <? min_year args); (eexists; split; [| reflexivity]); reflexivity. }
  clear E2. destruct H2 as (s2 & -> & Hs2).
  assert (H3 : exists e, a3 = with_years args s2 e
                         /\ e = if end_ args >? max_year args then max_year args
                                else end_ args).
  { subst a3. simpl. destruct (end_ args >? max_year args); (eexists; split; [| reflexivity]); reflexivity. }
  clear E3. destruct H3 as (e3 & -> & He3).
  assert (H4 : exists e, a4 = with_years args s2 e
                         /\ e = if e3 <? min_year args then min_year args else e3).
  { subst a4. simpl. destruct (e3 <? min_year args); (eexists; split; [| reflexivity]); reflexivity. }
  clear E4. destruct H4 as (e4 & -> & He4).
  assert (H5 : exists s e, a5 = with_years args s e
                           /\ (s, e) = if s2 >? e4 then (e4, s2) else (s2, e4)).
  { subst a5. simpl. destruct (s2 >? e4); (eexists _, _; split; [| reflexivity]); reflexivity. }
  clear E5. destruct H5 as (s5 & e5 & -> & Hse).
  exists s5, e5. split; [reflexivity |].
  rewrite !Z.gtb_ltb in *.
  destruct (max_year args <? start args) eqn:C1,
           (s1 <? min_year args) eqn:C2,
           (max_year args <? end_ args) eqn:C3,
           (e3 <? min_year args) eqn:C4,
           (e4 <? s2) eqn:C5;
    inversion Hse; subst;
    repeat match goal with
           | H : (_ <? _) = true |- _ => apply Z.ltb_lt in H
           | H : (_ <? _) = false |- _ => apply Z.ltb_ge in H
           end; lia.
Qed.

(** What [validate_args] leaves of the range of years. *)
Theorem validate_args_range (args args' : Args) (lang_map : gmap str str)
    (w w' : World) :
  validate_args args w = (Ret (args', lang_map), w') ->
  start args' <= end_ args'
  /\ min_year args <= start args'
  /\ (min_year args <= max_year args -> end_ args' <= max_year args)
  /\ (min_year args <= start args -> start args <= end_ args ->
      end_ args <= max_year args -> args' = args)
  /\ args' = with_years args (start args') (end_ args')
  /\ is_Some (lang_map !! lang args').
Proof.
  intros E. apply validate_args_Ret in E.
  destruct E as (_ & Hlang & s & e & -> & Hse & Hmin & Hmax & Hsame).
  simpl. split; [exact Hse |]. split; [exact Hmin |]. split; [exact Hmax |].
  split; [| split; [reflexivity | exact Hlang]].
  intros H1 H2 H3. destruct (Hsame H1 H2 H3) as [-> ->].
  symmetry. apply with_years_self.
Qed.

End Years.

(** Asked for the years from 1960 on, [validate_args] answers with the
    years from 1971 on. *)
Lemma validate_args_range_witness :
  let args := Sample.settings 1960 LibTqdm false false in
  let run := validate_args (H := Sample.lib) args Sample.world_with_languages in
  exists (args' : Args) (lang_map : gmap str str),
    returned run = Some (args', lang_map)
    /\ start args' = 1971 /\ end_ args' = 2021
    /\ start args' <= end_ args'
    /\ min_year args <= start args'
    /\ is_Some (lang_map !! lang args').
Proof.
  intros args run.
  assert (Hyears : option_map (fun r => (start (fst r), end_ (fst r))) (returned run)
                   = Some (1971, 2021)) by (vm_compute; reflexivity).
  destruct (returned run) as [[args' lang_map] |] eqn:E; [| discriminate Hyears].
  injection Hyears as Hstart Hend.
  destruct (validate_args_range (H := Sample.lib) args args' lang_map
              Sample.world_with_languages (snd run) (run_returned _ _ _ E))
    as (Horder & Hmin & _ & _ & _ & Hlang).
  exists args', lang_map.
  split; [reflexivity |]. split; [exact Hstart |]. split; [exact Hend |].
  split; [exact Horder |]. split; [exact Hmin | exact Hlang].
Defined.

Lemma startswith_app (p s : str) : startswith (p ++ s) p = true.
Proof.
  induction p as [| c p IH]; simpl; [destruct s; reflexivity |].
  rewrite N.eqb_refl. exact IH.
Qed.

Section CacheMore.
Context `{PyLib}.



(** [get_html] changes no file but the cache file of the page, and that
    one only by storing the page it returns. *)
Theorem get_html_frame (args : Args) (url : str) (nocache : bool) (w w' : World)
    (o : outcome str) :
  get_html args url nocache w = (o, w') ->
  (forall p, p <> cache_path args url -> fs w' !! p = fs w !! p)
  /\ (fs w' = fs w
      \/ exists html, o = Ret html /\ nocache = false
                      /\ web w (html_unescape url) = Some html
                      /\ fs w' !! cache_path args url = Some (File html []))
  /\ web w' = web w /\ media w' = media w.
Proof.
  intros E. destruct nocache.
  - rewrite get_html_nocache in E. inversion E; subst.
    split; [reflexivity |]. split; [left; reflexivity | split; reflexivity].
  - rewrite get_html_cached in E.
    destruct (option_map content (fs w !! cache_path args url)) as [[| c cs] |];
      try (inversion E; subst;
           split; [reflexivity |]; split; [left; reflexivity | split; reflexivity]);
      (destruct (web w (html_unescape url)) as [html |] eqn:Eweb; inversion E; subst;
       [| split; [reflexivity |]; split; [left; reflexivity | split; reflexivity]];
       split; [intros p Hp; simpl; apply lookup_insert_ne; congruence |];
       split; [| split; reflexivity];
       right; exists html; simpl; rewrite lookup_insert_eq; repeat split).
Qed.

(** When the request fails and the cache has nothing to offer (no file,
    an empty file, or [nocache]), [get_html] answers with the empty text
    and stores nothing. *)
Theorem get_html_request_fails (args : Args) (url : str) (nocache : bool) (w : World) :
  web w (html_unescape url) = None ->
  (nocache = false ->
   option_map content (fs w !! cache_path args url) = None
   \/ option_map content (fs w !! cache_path args url) = Some []) ->
  exists w', get_html args url nocache w = (Ret [], w') /\ fs w' = fs w.
Proof.
  intros Hweb Hcache. destruct nocache.
  - rewrite get_html_nocache, Hweb. eexists. split; reflexivity.
  - rewrite get_html_cached, Hweb.
    destruct (Hcache eq_refl) as [-> | ->]; eexists; split; reflexivity.
Qed.

(** After [remove_cached_files] the cache answers for no page, and the
    files outside the cache directory of the language are as they were. *)
Theorem remove_cached_files_clears (args : Args) (w : World) :
  exists w',
    remove_cached_files args w = (Ret tt, w')
    /\ (forall url w2 cached,
          get_from_cache args url w' = (Ret cached, w2) -> cached = None)
    /\ (forall p,
          startswith p (cache_home args ++ py "/" ++ lang args ++ py "/") = false ->
          fs w' !! p = fs w !! p)
    /\ (forall p,
          startswith p (cache_home args ++ py "/" ++ lang args ++ py "/") = true ->
          fs w' !! p = None).
Proof.
  eexists. split; [reflexivity |]. simpl. split; [| split].
  - intros url w2 cached E.
    unfold get_from_cache, bind, modify, get in E. cbv beta zeta in E.
    inversion E; subst; clear E. simpl.
    rewrite map_lookup_filter_None_2; [reflexivity |].
    right. intros f _. simpl. unfold get_cache_filename.
    rewrite !app_assoc. rewrite <- (app_assoc _ (py "/") (lang args)).
    rewrite <- (app_assoc (cache_home args)).
    rewrite <- !app_assoc. 
    replace (cache_home args ++ py "/" ++ lang args ++ py "/" ++
             quote_plus (html_unescape url))
      with ((cache_home args ++ py "/" ++ lang args ++ py "/") ++
            quote_plus (html_unescape url))
      by (rewrite <- !app_assoc; reflexivity).
    rewrite startswith_app. discriminate.
  - intros p Hp. destruct (fs w !! p) as [f |] eqn:Ef.
    + apply map_lookup_filter_Some_2; [exact Ef | exact Hp].
    + apply map_lookup_filter_None_2. left. exact Ef.
  - intros p Hp. apply map_lookup_filter_None_2. right. intros f _. simpl. congruence.
Qed.

(** With the languages page out of reach (the request fails and no copy of
    it is cached), [validate_args] ends in [sys.exit(1)], whatever the
    language asked for. *)
Theorem validate_args_unreachable (args : Args) (w : World) :
  let url := LDS_ORG_URL ++ py "/languages" in
  web w (html_unescape url) = None ->
  (nocleanup args = false ->
   option_map content (fs w !! cache_path args url) = None
   \/ option_map content (fs w !! cache_path args url) = Some []) ->
  exists w', validate_args args w = (Exit 1, w') /\ fs w' = fs w.
Proof.
  intros url Hweb Hcache.
  assert (Ehtml : exists w',
             get_html args url (nocleanup args) w = (Ret [], w') /\ fs w' = fs w).
  { destruct (nocleanup args).
    - rewrite get_html_nocache, Hweb. eexists. split; reflexivity.
    - rewrite get_html_cached, Hweb.
      destruct (Hcache eq_refl) as [-> | ->]; eexists; split; reflexivity. }
  destruct Ehtml as (w' & Ehtml & Hfs).
  exists w'. split; [| exact Hfs].
  cbv delta [validate_args]. cbv beta. unfold bind at 1.
  unfold get_all_languages_map, bind. fold url. rewrite Ehtml.
  reflexivity.
Qed.

End CacheMore.


Lemma get_html_frame_witness :
  let url := ALL_CONFERENCES_URL ++ py "?lang=eng" in
  let w := Sample.world [] in
  let run := get_html (H := Sample.lib) Sample.args url false w in
  fs (snd run) !! cache_path (H := Sample.lib) Sample.args url
  = Some (File Sample.index_html [])
  /\ (forall p, p <> cache_path (H := Sample.lib) Sample.args url ->
        fs (snd run) !! p = fs w !! p)
  /\ web (snd run) = web w /\ media (snd run) = media w.
Proof.
  intros url w run.
  destruct (get_html_frame (H := Sample.lib) Sample.args url false w (snd run) (fst run)
              (surjective_pairing run)) as (Hother & _ & Hweb & Hmedia).
  split; [vm_compute; reflexivity |].
  split; [exact Hother |]. split; [exact Hweb | exact Hmedia].
Defined.

(** A page the sample site does not have. *)
Lemma get_html_request_fails_witness :
  exists w',
    get_html (H := Sample.lib) Sample.args (py "https://nowhere.example/") true
      (Sample.world []) = (Ret [], w')
    /\ fs w' = fs (Sample.world []).
Proof.
  apply (get_html_request_fails (H := Sample.lib)).
  - vm_compute. reflexivity.
  - intros E. discriminate E.
Defined.

(** On the sample site, which has no page of the languages. *)
Lemma validate_args_unreachable_witness :
  exists w',
    validate_args (H := Sample.lib) Sample.args (Sample.world []) = (Exit 1, w')
    /\ fs w' = fs (Sample.world []).
Proof.
  apply (validate_args_unreachable (H := Sample.lib) Sample.args (Sample.world [])).
  - vm_compute. reflexivity.
  - intros _. left. reflexivity.
Defined.

(* ================================================================== *)
(** * The dictionary of playlists                                  *)
(* ================================================================== *)

Lemma has_key_In (k : str) (d : playlists_t) : has_key k d = true <-> In k (keys d).
Proof.
  unfold has_key, keys. rewrite existsb_exists, in_map_iff. split.
  - intros (kv & Hin & Hk). apply str_eqb_eq in Hk. exists kv. split; [congruence | exact Hin].
  - intros (kv & Hk & Hin). exists kv. split; [exact Hin |]. apply str_eqb_eq. congruence.
Qed.

Lemma In_keys_setdefault (k k' : str) (d : playlists_t) :
  In k' (keys (setdefault k d)) <-> k' = k \/ In k' (keys d).
Proof.
  unfold setdefault. destruct (has_key k d) eqn:Ek.
  - apply has_key_In in Ek. split; [tauto |]. intros [-> | Hin]; assumption.
  - unfold keys. rewrite List.map_app, List.in_app_iff. simpl. split.
    + intros [Hin | [<- | []]]; tauto.
    + intros [-> | Hin]; tauto.
Qed.

Lemma NoDup_keys_setdefault (k : str) (d : playlists_t) :
  NoDup (keys d) -> NoDup (keys (setdefault k d)).
Proof.
  intros Hd. unfold setdefault. destruct (has_key k d) eqn:Ek; [exact Hd |].
  unfold keys. rewrite List.map_app. simpl.
  apply NoDup_app. split; [exact Hd |]. split.
  - intros x Hx Hk. apply list_elem_of_In in Hx. apply list_elem_of_In in Hk.
    destruct Hk as [<- | []]. apply has_key_In in Hx. congruence.
  - apply NoDup_singleton.
Qed.

Lemma fold_setdefault_topics (topics : list str) :
  forall (d : playlists_t),
    let d' := fold_left
                (fun playlists topic => setdefault (py "Topics/GC-T-" ++ topic) playlists)
                topics d in
    (NoDup (keys d) -> NoDup (keys d'))
    /\ forall k, In k (keys d') <->
                 In k (keys d) \/ In k (List.map (fun topic => py "Topics/GC-T-" ++ topic) topics).
Proof.
  induction topics as [| t topics IH]; intros d; simpl.
  - split; [tauto |]. intros k. tauto.
  - destruct (IH (setdefault (py "Topics/GC-T-" ++ t) d)) as [Hnd Hin].
    split.
    + intros Hd. apply Hnd. apply NoDup_keys_setdefault. exact Hd.
    + intros k. rewrite Hin, In_keys_setdefault. split.
      * intros [[-> | Hk] | Hk]; tauto.
      * intros [Hk | [<- | Hk]]; tauto.
Qed.

Lemma fold_create_playlists (args : Args) (all_talks : list Talk.t) :
  forall d : playlists_t,
    let d' :=
      fold_left
        (fun playlists talk =>
           let playlists := setdefault (py "Conferences/GC-All") playlists in
           let playlists :=
             setdefault (py "Speakers/GC-S-" ++ Talk.speaker talk) playlists in
           fold_left
             (fun playlists topic => setdefault (py "Topics/GC-T-" ++ topic) playlists)
             (Talk.topics talk) playlists)
        all_talks d in
    (NoDup (keys d) -> NoDup (keys d'))
    /\ forall k, In k (keys d') <->
                 In k (keys d)
                 \/ exists talk, In talk all_talks /\ In k (playlist_keys talk).
Proof.
  induction all_talks as [| talk all_talks IH]; intros d; simpl.
  - split; [tauto |]. intros k. split; [tauto |]. intros [Hk | (talk & [] & _)]. exact Hk.
  - match goal with
    | |- context [fold_left ?f all_talks ?d1] =>
        destruct (IH d1) as [Hnd Hin]
    end.
    destruct (fold_setdefault_topics (Talk.topics talk)
                (setdefault (py "Speakers/GC-S-" ++ Talk.speaker talk)
                   (setdefault (py "Conferences/GC-All") d))) as [Hnd1 Hin1].
    split.
    + intros Hd. apply Hnd. apply Hnd1.
      apply NoDup_keys_setdefault, NoDup_keys_setdefault. exact Hd.
    + intros k. rewrite Hin, Hin1, !In_keys_setdefault. unfold playlist_keys. simpl.
      split.
      * intros [[[-> | [-> | Hk]] | Hk] | (talk' & Htalk' & Hk)].
        -- right. exists talk. split; [left; reflexivity |]. right. left. reflexivity.
        -- right. exists talk. split; [left; reflexivity |]. left. reflexivity.
        -- left. exact Hk.
        -- right. exists talk. split; [left; reflexivity |]. right. right. exact Hk.
        -- right. exists talk'. split; [right; exact Htalk' | exact Hk].
      * intros [Hk | (talk' & [<- | Htalk'] & Hk)].
        -- left. left. right. right. exact Hk.
        -- destruct Hk as [<- | [<- | Hk]]; left.
           ++ left. right. left. reflexivity.
           ++ left. left. reflexivity.
           ++ right. exact Hk.
        -- right. exists talk'. split; assumption.
Qed.

(** The dictionary [create_playlists] returns has, without repetition,
    the key of the playlist of all talks, of every speaker and of every
    topic of the talks given, and no other; every playlist is empty. *)
Theorem create_playlists_keys (args : Args) (all_talks : list Talk.t) :
  NoDup (keys (create_playlists args all_talks))
  /\ (forall k : str,
        In k (keys (create_playlists args all_talks)) <->
        exists talk, In talk all_talks /\ In k (playlist_keys talk))
  /\ Forall (fun kv => snd kv = []) (create_playlists args all_talks).
Proof.
  destruct (fold_create_playlists args all_talks []) as [Hnd Hin].
  split; [apply Hnd; constructor |]. split.
  - intros k. unfold create_playlists. rewrite Hin. simpl. tauto.
  - apply create_playlists_all_empty.
Qed.

Lemma keys_change_key (k : str) (f : list entry -> list entry) (d : playlists_t) :
  keys (change_key k f d) = keys d.
Proof.
  unfold keys. induction d as [| [k' v] d IH]; simpl; [reflexivity |].
  destruct (str_eqb k k'); simpl; [reflexivity | rewrite IH; reflexivity].
Qed.

Lemma lookup_change_key (k k' : str) (f : list entry -> list entry) (d : playlists_t) :
  lookup_key k' (change_key k f d)
  = if str_eqb k' k then option_map f (lookup_key k' d) else lookup_key k' d.
Proof.
  destruct (str_eqb k' k) eqn:Ek.
  - apply str_eqb_eq in Ek. subst k'. apply lookup_change_key_same.
  - apply lookup_change_key_other. intros ->. rewrite str_eqb_refl in Ek. discriminate.
Qed.

Lemma repeat_shift {A} (x : A) (n : nat) (l : list A) :
  repeat x n ++ x :: l = x :: repeat x n ++ l.
Proof.
  induction n as [| n IH]; simpl; [reflexivity |]. rewrite IH. reflexivity.
Qed.

Lemma in_place_run (k : str) (f : list entry -> list entry) (d : playlists_t)
    (w : World) :
  in_place k f d w
  = if has_key k d then (Ret (change_key k f d), w) else (Raise (py "KeyError"), w).
Proof. unfold in_place. destruct (has_key k d); reflexivity. Qed.

Lemma topic_count_cons (k t : str) (topics : list str) :
  topic_count k (t :: topics)
  = if str_eqb k (py "Topics/GC-T-" ++ t) then S (topic_count k topics)
    else topic_count k topics.
Proof.
  unfold topic_count. cbn [List.filter]. destruct (str_eqb _ _); reflexivity.
Qed.

(** The loop of [update_playlists] over the topics of a talk, when it
    goes through: each playlist gets the entry in front as many times as
    the topic is listed. *)
Lemma topics_loop_returned (item : entry) (topics : list str) :
  forall (d d' : playlists_t) (w w' : World),
    for_in (fun topic playlists =>
              in_place (py "Topics/GC-T-" ++ topic) (cons item) playlists)
      topics d w = (Ret d', w') ->
    w' = w
    /\ keys d' = keys d
    /\ forall k, lookup_key k d'
                 = option_map (app (repeat item (topic_count k topics)))
                     (lookup_key k d).
Proof.
  induction topics as [| t topics IH]; intros d d' w w' E.
  - inversion E; subst. split; [reflexivity |]. split; [reflexivity |].
    intros k. simpl. destruct (lookup_key k d'); reflexivity.
  - rewrite for_in_cons in E. apply bind_Ret in E.
    destruct E as (d1 & w1 & Estep & E).
    apply in_place_Ret in Estep. destruct Estep as (-> & Hkey & ->).
    destruct (IH _ _ _ _ E) as (-> & Hkeys & Hlookup).
    split; [reflexivity |]. split; [rewrite Hkeys; apply keys_change_key |].
    intros k. rewrite Hlookup, lookup_change_key, topic_count_cons.
    destruct (str_eqb k (py "Topics/GC-T-" ++ t)); [| reflexivity].
    destruct (lookup_key k d) as [items |]; [| reflexivity].
    cbn [option_map repeat]. f_equal. apply repeat_shift.
Qed.

(** The loop goes through when the dictionary has the key of every topic. *)
Lemma topics_loop_total (item : entry) (topics : list str) :
  forall (d : playlists_t) (w : World),
    (forall t, In t topics -> In (py "Topics/GC-T-" ++ t) (keys d)) ->
    exists d',
      for_in (fun topic playlists =>
                in_place (py "Topics/GC-T-" ++ topic) (cons item) playlists)
        topics d w = (Ret d', w).
Proof.
  induction topics as [| t topics IH]; intros d w Hkeys.
  - exists d. reflexivity.
  - rewrite for_in_cons. unfold bind. rewrite in_place_run.
    assert (Ht : has_key (py "Topics/GC-T-" ++ t) d = true)
      by (apply has_key_In, Hkeys; left; reflexivity).
    rewrite Ht. apply IH. intros t' Ht'. rewrite keys_change_key.
    apply Hkeys. right. exact Ht'.
Qed.

Lemma all_not_topics (topic : str) :
  py "Conferences/GC-All" <> py "Topics/GC-T-" ++ topic.
Proof.
  intros E. apply (f_equal (hd 0%N)) in E. vm_compute in E. discriminate.
Qed.

Lemma topic_count_other (k : str) (topics : list str) :
  (forall topic, k <> py "Topics/GC-T-" ++ topic) -> topic_count k topics = 0%nat.
Proof.
  intros Hk. induction topics as [| t topics IH]; [reflexivity |].
  rewrite topic_count_cons.
  destruct (str_eqb k (py "Topics/GC-T-" ++ t)) eqn:Ek; [| exact IH].
  apply str_eqb_eq in Ek. destruct (Hk t Ek).
Qed.

Lemma topic_count_not_in (k : str) (topics : list str) :
  ~ In k (List.map (fun topic => py "Topics/GC-T-" ++ topic) topics) ->
  topic_count k topics = 0%nat.
Proof.
  induction topics as [| t topics IH]; intros Hk; [reflexivity |].
  rewrite topic_count_cons.
  destruct (str_eqb k (py "Topics/GC-T-" ++ t)) eqn:Ek.
  - apply str_eqb_eq in Ek. exfalso. apply Hk. left. symmetry. exact Ek.
  - apply IH. intros Ht. apply Hk. right. exact Ht.
Qed.

Section Update.
Context `{PyLib}.

Lemma MP3_world (file_path : str) (w w' : World) (o : outcome Q) :
  MP3 file_path w = (o, w') -> w' = w.
Proof.
  unfold MP3, bind, get, raise, ret. destruct (fs w !! file_path) as [f |].
  - destruct (mp3_length (content f)); intros E; inversion E; reflexivity.
  - intros E; inversion E; reflexivity.
Qed.

(** Where [update_playlists] puts the entry of a talk, when it goes
    through: at the end of the playlist of all talks, in front of the
    playlist of each of its topics (once for every time the topic is
    listed), and, unless the talk is a sustaining or an audit report, in
    front of the playlist of its speaker.  The keys of the dictionary and
    every other playlist stay as they are, and so does the world. *)
Theorem update_playlists_order (args : Args) (d d' : playlists_t) (talk : Talk.t)
    (audio : Audio.t) (w w' : World) :
  update_playlists args d talk audio w = (Ret d', w') ->
  exists seconds : Q,
    let item := playlist_item args talk audio seconds in
    MP3 (get_output_dir args ++ py "/" ++ get_relative_path args (Talk.session talk)
         ++ py "/" ++ Audio.file audio) w = (Ret seconds, w)
    /\ w' = w
    /\ keys d' = keys d
    /\ lookup_key (py "Conferences/GC-All") d'
       = option_map (fun items => items ++ [item]) (lookup_key (py "Conferences/GC-All") d)
    /\ (forall topic,
          lookup_key (py "Topics/GC-T-" ++ topic) d'
          = option_map
              (app (repeat item (topic_count (py "Topics/GC-T-" ++ topic)
                                   (Talk.topics talk))))
              (lookup_key (py "Topics/GC-T-" ++ topic) d))
    /\ lookup_key (py "Speakers/GC-S-" ++ Talk.speaker talk) d'
       = option_map
           (fun items =>
              if sustaining_or_audit (Talk.title talk) then items else item :: items)
           (lookup_key (py "Speakers/GC-S-" ++ Talk.speaker talk) d)
    /\ (forall k,
          ~ In k (playlist_keys talk) -> lookup_key k d' = lookup_key k d).
Proof.
  intros E. unfold update_playlists in E.
  apply bind_Ret in E. destruct E as (seconds & w1 & Eseconds & E).
  pose proof (MP3_world _ _ _ _ Eseconds) as ->.
  apply bind_Ret in E. destruct E as (d1 & w2 & Eall & E).
  apply in_place_Ret in Eall. destruct Eall as (-> & Hall & ->).
  apply bind_Ret in E. destruct E as (d2 & w3 & Etopics & E).
  apply topics_loop_returned in Etopics. destruct Etopics as (-> & Hkeys2 & Hlookup2).
  fold (sustaining_or_audit (Talk.title talk)) in E.
  exists seconds. intros item. fold (playlist_item args talk audio seconds) in *.
  fold item in E, Hlookup2.
  assert (Hd2 : forall k,
             lookup_key k d2
             = option_map
                 (fun items =>
                    repeat item (topic_count k (Talk.topics talk))
                    ++ (if str_eqb k (py "Conferences/GC-All")
                        then items ++ [item] else items))
                 (lookup_key k d)).
  { intros k. rewrite Hlookup2, lookup_change_key.
    destruct (str_eqb k (py "Conferences/GC-All")), (lookup_key k d); reflexivity. }
  assert (Hd' : w' = w /\ keys d' = keys d
                /\ forall k,
                     lookup_key k d'
                     = option_map
                         (fun items =>
                            (if str_eqb k (py "Speakers/GC-S-" ++ Talk.speaker talk)
                                && negb (sustaining_or_audit (Talk.title talk))
                             then [item] else [])
                            ++ repeat item (topic_count k (Talk.topics talk))
                            ++ (if str_eqb k (py "Conferences/GC-All")
                                then items ++ [item] else items))
                         (lookup_key k d)).
  { destruct (sustaining_or_audit (Talk.title talk)).
    - inversion E; subst. split; [reflexivity |].
      split; [rewrite Hkeys2; apply keys_change_key |].
      intros k. rewrite Hd2, andb_false_r. reflexivity.
    - apply in_place_Ret in E. destruct E as (-> & _ & ->). split; [reflexivity |].
      split; [rewrite keys_change_key, Hkeys2; apply keys_change_key |].
      intros k. rewrite lookup_change_key, Hd2, andb_true_r.
      destruct (str_eqb k (py "Speakers/GC-S-" ++ Talk.speaker talk)),
        (lookup_key k d); reflexivity. }
  destruct Hd' as (Hw & Hkeys & Hlookup).
  split; [exact Eseconds |]. split; [exact Hw |]. split; [exact Hkeys |].
  split; [| split; [| split]].
  - rewrite Hlookup, str_eqb_refl.
    rewrite topic_count_other by apply all_not_topics.
    replace (str_eqb (py "Conferences/GC-All")
               (py "Speakers/GC-S-" ++ Talk.speaker talk)) with false; [reflexivity |].
    symmetry. destruct (str_eqb _ _) eqn:Ek; [| reflexivity].
    apply str_eqb_eq in Ek. symmetry in Ek. destruct (speakers_not_all _ Ek).
  - intros topic. rewrite Hlookup.
    replace (str_eqb (py "Topics/GC-T-" ++ topic)
               (py "Speakers/GC-S-" ++ Talk.speaker talk)) with false.
    + replace (str_eqb (py "Topics/GC-T-" ++ topic) (py "Conferences/GC-All"))
        with false; [reflexivity |].
      symmetry. destruct (str_eqb _ _) eqn:Ek; [| reflexivity].
      apply str_eqb_eq in Ek. symmetry in Ek. destruct (all_not_topics _ Ek).
    + symmetry. destruct (str_eqb _ _) eqn:Ek; [| reflexivity].
      apply str_eqb_eq in Ek. symmetry in Ek. destruct (speakers_not_topics _ _ Ek).
  - rewrite Hlookup, str_eqb_refl.
    rewrite topic_count_other
      by (intros topic; apply speakers_not_topics).
    replace (str_eqb (py "Speakers/GC-S-" ++ Talk.speaker talk)
               (py "Conferences/GC-All")) with false.
    + destruct (sustaining_or_audit (Talk.title talk)),
        (lookup_key (py "Speakers/GC-S-" ++ Talk.speaker talk) d); reflexivity.
    + symmetry. destruct (str_eqb _ _) eqn:Ek; [| reflexivity].
      apply str_eqb_eq in Ek. destruct (speakers_not_all _ Ek).
  - intros k Hk. rewrite Hlookup. unfold playlist_keys in Hk. simpl in Hk.
    replace (str_eqb k (py "Speakers/GC-S-" ++ Talk.speaker talk)) with false.
    + replace (str_eqb k (py "Conferences/GC-All")) with false.
      * replace (topic_count k (Talk.topics talk)) with 0%nat;
          [destruct (lookup_key k d); reflexivity |].
        symmetry. apply topic_count_not_in. intros Ht. apply Hk. right. right. exact Ht.
      * symmetry. destruct (str_eqb _ _) eqn:Ek; [| reflexivity].
        apply str_eqb_eq in Ek. exfalso. apply Hk. left. symmetry. exact Ek.
    + symmetry. destruct (str_eqb _ _) eqn:Ek; [| reflexivity].
      apply str_eqb_eq in Ek. exfalso. apply Hk. right. left. symmetry. exact Ek.
Qed.

End Update.

(** The talk is put into the playlists [create_playlists] makes for it. *)
Lemma update_playlists_order_witness :
  let d := create_playlists Sample.args [Sample.small_talk] in
  let run := update_playlists (H := Sample.lib) Sample.args d Sample.small_talk Sample.small_audio
               Sample.world_with_recording in
  exists d' : playlists_t,
    returned run = Some d'
    /\ keys d' = keys d
    /\ List.map (fun k => option_map (List.map title) (lookup_key k d'))
         [py "Conferences/GC-All"; py "Speakers/GC-S-Dallin H. Oaks";
          py "Topics/GC-T-Faith"]
       = repeat (Some [py "Small and Simple Things"]) 3
    /\ forall k, ~ In k (playlist_keys Sample.small_talk) -> lookup_key k d' = lookup_key k d.
Proof.
  intros d run.
  assert (Hall : option_map (fun d' =>
                   List.map (fun k => option_map (List.map title) (lookup_key k d'))
                     [py "Conferences/GC-All"; py "Speakers/GC-S-Dallin H. Oaks";
                      py "Topics/GC-T-Faith"])
                   (returned run)
                 = Some (repeat (Some [py "Small and Simple Things"]) 3))
    by (vm_compute; reflexivity).
  destruct (returned run) as [d' |] eqn:E; [| discriminate Hall].
  apply (inj Some) in Hall. cbn beta in Hall. rename Hall into Htitles.
  destruct (update_playlists_order (H := Sample.lib) Sample.args d d' Sample.small_talk
              Sample.small_audio Sample.world_with_recording (snd run) (run_returned _ _ _ E))
    as (seconds & Hrest).
  cbv zeta in Hrest. destruct Hrest as (_ & _ & Hkeys & _ & _ & _ & Hother).
  exists d'. split; [reflexivity |]. split; [exact Hkeys |].
  split; [exact Htitles | exact Hother].
Defined.

(* ================================================================== *)
(** * What a run keeps, and how it ends                            *)
(* ================================================================== *)

Section Triples.
Context {A B : Type}.
Variables (X : Z -> Prop) (E : str -> Prop).

Lemma triple_ret (P : World -> Prop) (a : A) (Q : A -> World -> Prop) :
  (forall w, P w -> Q a w) -> triple P (ret a) Q X E.
Proof. intros HQ w o w' Hw Erun. inversion Erun; subst. apply HQ. exact Hw. Qed.

Lemma triple_get (P : World -> Prop) (f : World -> A) (Q : A -> World -> Prop) :
  (forall w, P w -> Q (f w) w) -> triple P (get f) Q X E.
Proof. intros HQ w o w' Hw Erun. inversion Erun; subst. apply HQ. exact Hw. Qed.

Lemma triple_modify (P : World -> Prop) (f : World -> World)
    (Q : unit -> World -> Prop) :
  (forall w, P w -> Q tt (f w)) -> triple P (modify f) Q X E.
Proof. intros HQ w o w' Hw Erun. inversion Erun; subst. apply HQ. exact Hw. Qed.

Lemma triple_bind (P : World -> Prop) (m : M A) (k : A -> M B)
    (R : A -> World -> Prop) (Q : B -> World -> Prop) :
  triple P m R X E -> (forall a, triple (R a) (k a) Q X E) ->
  triple P (bind m k) Q X E.
Proof.
  intros Hm Hk w o w' Hw Erun. unfold bind in Erun.
  destruct (m w) as [[a | c | e] w1] eqn:Em.
  - apply (Hk a w1 o w'); [| exact Erun]. apply (Hm w (Ret a) w1 Hw Em).
  - inversion Erun; subst. apply (Hm w (Exit c) w' Hw Em).
  - inversion Erun; subst. apply (Hm w (Raise e) w' Hw Em).
Qed.

Lemma triple_weaken (P P' : World -> Prop) (m : M A) (Q Q' : A -> World -> Prop) :
  triple P' m Q' X E ->
  (forall w, P w -> P' w) -> (forall a w, Q' a w -> Q a w) ->
  triple P m Q X E.
Proof.
  intros Hm HP HQ w o w' Hw Erun. specialize (Hm w o w' (HP w Hw) Erun).
  destruct o; [apply HQ; exact Hm | exact Hm | exact Hm].
Qed.

Lemma triple_with_tqdm (args : Args) (P P' : World -> Prop) (m : M A)
    (Q : A -> World -> Prop) :
  (tqdm args = GuiTqdm -> X 2) ->
  (forall w, P w -> P' w) ->
  (forall w, P w -> P' (set_running true w)) ->
  triple P' m Q X E ->
  triple P (with_tqdm args m) Q X E.
Proof.
  intros HX HP Hrun Hm w o w' Hw Erun. unfold with_tqdm in Erun.
  destruct (tqdm args) eqn:Ebar.
  - apply (Hm w o w' (HP w Hw) Erun).
  - apply (Hm w o w' (HP w Hw) Erun).
  - destruct (m (set_running true w)) as [o1 w1] eqn:Em.
    destruct (running w1).
    + inversion Erun; subst. apply (Hm _ _ _ (Hrun w Hw) Em).
    + inversion Erun; subst. apply HX. reflexivity.
Qed.

End Triples.

Lemma triple_for_each {Y S} (X : Z -> Prop) (E : str -> Prop)
    (I : S -> World -> Prop) (body : Y -> S -> M (S * bool)) (xs : list Y) :
  (forall x s, In x xs -> triple (I s) (body x s) (fun r w => I (fst r) w) X E) ->
  forall s, triple (I s) (for_each body xs s) I X E.
Proof.
  induction xs as [| x xs IH]; intros Hbody s; simpl.
  - apply triple_ret. auto.
  - eapply triple_bind.
    + apply Hbody. left. reflexivity.
    + intros [s1 stop]. simpl. destruct stop.
      * apply triple_ret. auto.
      * apply IH. intros y s2 Hy. apply Hbody. right. exact Hy.
Qed.

Lemma triple_for_in {Y S} (X : Z -> Prop) (E : str -> Prop)
    (I : S -> World -> Prop) (body : Y -> S -> M S) (xs : list Y) :
  (forall x s, In x xs -> triple (I s) (body x s) I X E) ->
  forall s, triple (I s) (for_in body xs s) I X E.
Proof.
  intros Hbody s. unfold for_in. apply triple_for_each. intros x s1 Hx.
  eapply triple_bind; [apply Hbody; exact Hx |].
  intros s2. apply triple_ret. auto.
Qed.

(** ** Computations that only hand over values *)

Section Calm.
Variables (X : Z -> Prop) (E : str -> Prop).

Lemma calm_ret {A} (a : A) : calm X E (ret a).
Proof. apply triple_ret. auto. Qed.

Lemma calm_get {A} (f : World -> A) : calm X E (get f).
Proof. apply triple_get. auto. Qed.

Lemma calm_modify (f : World -> World) : calm X E (modify f).
Proof. apply triple_modify. auto. Qed.

Lemma calm_lift_Ret {A} (a : A) : calm X E (lift (Ret a)).
Proof. intros w o w' _ Erun. inversion Erun; subst. exact I. Qed.

Lemma calm_bind {A B} (m : M A) (k : A -> M B) :
  calm X E m -> (forall a, calm X E (k a)) -> calm X E (bind m k).
Proof. intros Hm Hk. eapply triple_bind; [exact Hm | exact Hk]. Qed.

Lemma calm_for_each {Y S} (body : Y -> S -> M (S * bool)) (xs : list Y) (s : S) :
  (forall x s, calm X E (body x s)) -> calm X E (for_each body xs s).
Proof.
  intros Hbody. apply (triple_for_each X E (fun _ _ => True)).
  intros x s1 _. apply Hbody.
Qed.

Lemma calm_for_in {Y S} (body : Y -> S -> M S) (xs : list Y) (s : S) :
  (forall x s, calm X E (body x s)) -> calm X E (for_in body xs s).
Proof.
  intros Hbody. apply (triple_for_in X E (fun _ _ => True)).
  intros x s1 _. apply Hbody.
Qed.

Lemma calm_check_events : calm X E _check_events.
Proof.
  intros w o w' _ Erun. unfold _check_events in Erun.
  destruct (clicks w); inversion Erun; exact I.
Qed.

Lemma calm_with_tqdm {A} (args : Args) (m : M A) :
  (tqdm args = GuiTqdm -> X 2) -> calm X E m -> calm X E (with_tqdm args m).
Proof.
  intros HX Hm.
  apply (triple_with_tqdm X E args (fun _ => True) (fun _ => True)); auto.
Qed.

End Calm.

(** Goes through a computation that neither exits nor raises but where a
    bar is left. *)
Ltac calms :=
  repeat first
    [ match goal with |- forall _, _ => intro end
    | apply calm_ret
    | apply calm_get
    | apply calm_modify
    | apply calm_lift_Ret
    | apply calm_check_events
    | apply calm_bind
    | apply calm_for_each
    | apply calm_for_in
    | apply calm_with_tqdm; [assumption |]
    | match goal with
      | |- calm _ _ (match ?x with _ => _ end) => destruct x
      end ].

Section Ends.
Context `{PyLib}.

Lemma calm_get_html (X : Z -> Prop) (E : str -> Prop) (args : Args) (url : str)
    (nocache : bool) :
  calm X E (get_html args url nocache).
Proof.
  unfold get_html, get_from_cache, urlopen_html, add_to_cache. calms.
Qed.

Lemma calm_get_all_talks (X : Z -> Prop) (E : str -> Prop) (args : Args) :
  (tqdm args = GuiTqdm -> X 2) -> calm X E (get_all_talks args).
Proof.
  intros HX. pose proof (calm_get_html X E args) as Hhtml.
  unfold get_all_talks, get_all_conferences, get_range_conferences, scan_group,
    get_all_talks_by_topic, get_all_topics, collect_talks,
    set_description_str, update, stopped, write.
  calms; apply Hhtml.
Qed.

Lemma calm_write_playlists (X : Z -> Prop) (E : str -> Prop) (args : Args)
    (playlists : playlists_t) :
  (tqdm args = GuiTqdm -> X 2) -> calm X E (write_playlists args playlists).
Proof.
  intros HX.
  unfold write_playlists, write_playlist_file, remove_playlist_files,
    set_description_str, update, stopped, write.
  calms.
Qed.

End Ends.

(** ** Files kept *)

Lemma keeps_refl (w : World) : keeps w w.
Proof. intros p f Hf. exists f. split; [exact Hf | reflexivity]. Qed.

Lemma keeps_trans (w1 w2 w3 : World) : keeps w1 w2 -> keeps w2 w3 -> keeps w1 w3.
Proof.
  intros H12 H23 p f Hf.
  destruct (H12 p f Hf) as (f2 & Hf2 & Hc2).
  destruct (H23 p f2 Hf2) as (f3 & Hf3 & Hc3).
  exists f3. split; [exact Hf3 |]. intros Hne.
  rewrite Hc3; [apply Hc2; exact Hne |]. rewrite Hc2; exact Hne.
Qed.

Lemma keeps_same_fs (w w' : World) : fs w' = fs w -> keeps w w'.
Proof. intros Hfs p f Hf. exists f. rewrite Hfs. split; [exact Hf | reflexivity]. Qed.

Lemma keeps_ret {A} (a : A) : respects keeps (ret a).
Proof. apply respects_ret. exact keeps_refl. Qed.

Lemma keeps_get {A} (f : World -> A) : respects keeps (get f).
Proof. apply respects_get. exact keeps_refl. Qed.

Lemma keeps_lift {A} (o : outcome A) : respects keeps (lift o).
Proof. apply respects_lift. exact keeps_refl. Qed.

Lemma keeps_raise {A} (what : string) : respects keeps (raise (A := A) what).
Proof. intros w o w' E. inversion E; subst. apply keeps_refl. Qed.

Lemma keeps_bind {A B} (m : M A) (k : A -> M B) :
  respects keeps m -> (forall a, respects keeps (k a)) -> respects keeps (bind m k).
Proof. apply respects_bind. exact keeps_trans. Qed.

Lemma keeps_for_each {Y S} (body : Y -> S -> M (S * bool)) (xs : list Y) (s : S) :
  (forall x s, respects keeps (body x s)) -> respects keeps (for_each body xs s).
Proof.
  intros Hbody. apply respects_for_each;
    [exact keeps_refl | exact keeps_trans | intros; apply Hbody].
Qed.

Lemma keeps_for_in {Y S} (body : Y -> S -> M S) (xs : list Y) (s : S) :
  (forall x s, respects keeps (body x s)) -> respects keeps (for_in body xs s).
Proof.
  intros Hbody. unfold for_in. apply keeps_for_each. intros x s1.
  apply keeps_bind; [apply Hbody | intros s2; apply keeps_ret].
Qed.

Lemma keeps_with_tqdm {A} (args : Args) (m : M A) :
  respects keeps m -> respects keeps (with_tqdm args m).
Proof.
  apply respects_with_tqdm; [exact keeps_trans |].
  intros w. apply keeps_same_fs. reflexivity.
Qed.

Lemma keeps_check_events : respects keeps _check_events.
Proof.
  intros w o w' E. unfold _check_events in E.
  destruct (clicks w) as [| [|] rest]; inversion E; subst;
    apply keeps_same_fs; reflexivity.
Qed.

Lemma keeps_log (e : event) : respects keeps (modify (add_log e)).
Proof. apply respects_modify. intros w. apply keeps_same_fs. reflexivity. Qed.

(** Goes through a computation that keeps the files. *)
Ltac keeping :=
  repeat first
    [ match goal with |- forall _, _ => intro end
    | solve [auto 1]
    | apply keeps_ret
    | apply keeps_get
    | apply keeps_lift
    | apply keeps_raise
    | apply keeps_check_events
    | apply keeps_log
    | apply keeps_bind
    | apply keeps_for_each
    | apply keeps_for_in
    | apply keeps_with_tqdm
    | match goal with
      | |- respects keeps (match ?x with _ => _ end) => destruct x
      end ].

Section Keeps.
Context `{PyLib}.

Lemma keeps_get_html (args : Args) (url : str) (nocache : bool) :
  respects keeps (get_html args url nocache).
Proof.
  intros w o w' E. destruct nocache.
  - rewrite get_html_nocache in E. inversion E; subst.
    apply keeps_same_fs. reflexivity.
  - rewrite get_html_cached in E.
    destruct (option_map content (fs w !! cache_path args url)) as [[| c cs] |] eqn:Ec;
      try (inversion E; subst; apply keeps_same_fs; reflexivity);
      (destruct (web w (html_unescape url)) as [html |];
       inversion E; subst; [| apply keeps_same_fs; reflexivity]);
      intros p f Hf; simpl;
      (destruct (decide (p = cache_path args url)) as [-> | Hp];
       [ rewrite lookup_insert_eq; eexists; split; [reflexivity |];
         rewrite Hf in Ec; simpl in Ec
       | rewrite lookup_insert_ne by congruence;
         exists f; split; [exact Hf | reflexivity] ]).
    + inversion Ec as [Hc]. rewrite Hc. intros []. reflexivity.
    + discriminate.
Qed.

Lemma keeps_download_audio (args : Args) (file_path : str) (audio : Audio.t) :
  respects keeps (download_audio args file_path audio).
Proof.
  intros w o w' E. unfold download_audio, isfile, write_mp3_to_disk,
    write_exception, raise, bind, get, modify, ret in E.
  destruct (fs w !! file_path) as [f |] eqn:Ef; simpl in E.
  - inversion E; subst. apply keeps_refl.
  - destruct (media w (Audio.link audio)) as [data |];
      [| destruct (tqdm args); inversion E; subst; apply keeps_refl].
    inversion E; subst.
    intros p f Hf. simpl.
    assert (Hp : p <> file_path) by congruence.
    rewrite lookup_insert_ne by congruence.
    exists f. split; [exact Hf | reflexivity].
Qed.

Lemma keeps_alter_tags (g : list (str * str) -> list (str * str)) (file_path : str) :
  respects keeps
    (modify (set_fs (alter (fun f => File (content f) (g (id3 f))) file_path))).
Proof.
  apply respects_modify. intros w p f Hf. simpl.
  destruct (decide (p = file_path)) as [-> | Hp].
  - rewrite lookup_alter_eq, Hf. simpl. eexists. split; reflexivity.
  - rewrite lookup_alter_ne by congruence. exists f. split; [exact Hf | reflexivity].
Qed.

Lemma keeps_stamp (args : Args) (talk : Talk.t) (file_path : str) :
  respects keeps (stamp args talk file_path).
Proof.
  unfold stamp. apply keeps_bind.
  - unfold MP3. keeping.
  - intros _. cbv zeta.
    apply (keeps_alter_tags
             (fun tags =>
                set_tag (py "title") (Talk.title talk)
                  (set_tag (py "composer") the_church
                     (set_tag (py "organization") the_church
                        (set_tag (py "albumartist") the_church
                           (set_tag (py "album") _ tags)))))).
Qed.

Lemma keeps_update_playlists (args : Args) (d : playlists_t) (talk : Talk.t)
    (audio : Audio.t) :
  respects keeps (update_playlists args d talk audio).
Proof. unfold update_playlists, MP3, in_place. keeping. Qed.

Lemma keeps_download_talk (args : Args) (talk : Talk.t) (d : playlists_t) :
  respects keeps (download_talk args talk d).
Proof.
  pose proof keeps_get_html as Hhtml. pose proof keeps_download_audio as Haudio.
  pose proof keeps_stamp as Hstamp. pose proof keeps_update_playlists as Hupdate.
  unfold download_talk, get_audio, set_description_str, update, stopped.
  cbv zeta. keeping; auto.
Qed.

Lemma keeps_download_talks (args : Args) (all_talks : list Talk.t) (d : playlists_t) :
  respects keeps (download_talks args all_talks d).
Proof.
  pose proof keeps_download_talk as Htalk.
  unfold download_talks, write. keeping; auto.
Qed.

Lemma keeps_get_all_talks (args : Args) : respects keeps (get_all_talks args).
Proof.
  pose proof keeps_get_html as Hhtml.
  unfold get_all_talks, get_all_conferences, get_range_conferences, scan_group,
    get_all_talks_by_topic, get_all_topics, collect_talks,
    set_description_str, update, stopped, write.
  keeping; auto.
Qed.

(** Gathering the talks and downloading them removes no file, and
    changes no file that is not empty but for its tags: pages are added
    to the cache (or fill an empty cache file) and audio files are added. *)
Theorem download_keeps_files (args : Args) (all_talks : list Talk.t)
    (d : playlists_t) (w w' : World) (p : str) (f : file) :
  fs w !! p = Some f ->
  (forall o, get_all_talks args w = (o, w') ->
     exists f', fs w' !! p = Some f' /\ (content f <> [] -> content f' = content f))
  /\ (forall o, download_talks args all_talks d w = (o, w') ->
        exists f', fs w' !! p = Some f'
                   /\ (content f <> [] -> content f' = content f)).
Proof.
  intros Hf. split; intros o E.
  - apply (keeps_get_all_talks args w o w' E p f Hf).
  - apply (keeps_download_talks args all_talks d w o w' E p f Hf).
Qed.

End Keeps.

(** The cached index outlives the gathering of the talks and the
    download. *)
Lemma download_keeps_files_witness :
  let args := Sample.args in
  let url := ALL_CONFERENCES_URL ++ py "?lang=eng" in
  let w := snd (get_html (H := Sample.lib) args url false (Sample.world [])) in
  let p := cache_path (H := Sample.lib) args url in
  let w' := snd (get_all_talks (H := Sample.lib) args w) in
  fs w !! p = Some (File Sample.index_html [])
  /\ exists f', fs w' !! p = Some f' /\ content f' = Sample.index_html.
Proof.
  intros args url w p w'.
  assert (Hf : fs w !! p = Some (File Sample.index_html []))
    by (vm_compute; reflexivity).
  split; [exact Hf |].
  destruct (download_keeps_files (H := Sample.lib) args [] [] w w' p
              (File Sample.index_html []) Hf) as [Hgather _].
  destruct (Hgather (fst (get_all_talks (H := Sample.lib) args w))
              (surjective_pairing _)) as (f' & Hf' & Hcontent).
  exists f'. split; [exact Hf' |]. apply Hcontent.
  intros E. vm_compute in E. discriminate E.
Defined.

(** ** Playlists and the files they point at *)

Lemma bind_run_Ret {A B} (m : M A) (k : A -> M B) (w w1 : World) (a : A) :
  m w = (Ret a, w1) -> bind m k w = k a w1.
Proof. intros E. unfold bind. rewrite E. reflexivity. Qed.

Lemma bind_run_Raise {A B} (m : M A) (k : A -> M B) (w w1 : World) (e : str) :
  m w = (Raise e, w1) -> bind m k w = (Raise e, w1).
Proof. intros E. unfold bind. rewrite E. reflexivity. Qed.

Lemma change_key_Forall (P : entry -> Prop) (k : str) (f : list entry -> list entry)
    (d : playlists_t) :
  (forall v, Forall P v -> Forall P (f v)) ->
  Forall (fun kv => Forall P (snd kv)) d ->
  Forall (fun kv => Forall P (snd kv)) (change_key k f d).
Proof.
  intros Hf. induction 1 as [| [k0 v] d Hv Hd IH]; simpl; [constructor |].
  destruct (str_eqb k k0).
  - constructor; [apply Hf; exact Hv | exact Hd].
  - constructor; [exact Hv | exact IH].
Qed.

Lemma entries_on_disk_keeps (args : Args) (d : playlists_t) (w w' : World) :
  keeps w w' -> entries_on_disk args d w -> entries_on_disk args d w'.
Proof.
  intros Hk Hd. unfold entries_on_disk in *.
  eapply List.Forall_impl; [| exact Hd]. intros kv Hkv.
  eapply List.Forall_impl; [| exact Hkv]. intros item (rel & Hpath & [f Hf]).
  exists rel. split; [exact Hpath |].
  destruct (Hk _ _ Hf) as (f' & Hf' & _). exists f'. exact Hf'.
Qed.

Lemma is_Some_keeps (p : str) (w w' : World) :
  keeps w w' -> is_Some (fs w !! p) -> is_Some (fs w' !! p).
Proof. intros Hk [f Hf]. destruct (Hk _ _ Hf) as (f' & Hf' & _). exists f'. exact Hf'. Qed.

Section Playlists.
Context `{PyLib}.

Lemma MP3_on_file (file_path : str) (w : World) :
  is_Some (fs w !! file_path) ->
  (exists seconds, MP3 file_path w = (Ret seconds, w))
  \/ MP3 file_path w = (Raise (py "mutagen.mp3.HeaderNotFoundError"), w).
Proof.
  intros [f Hf]. unfold MP3, bind, get, ret, raise. rewrite Hf.
  destruct (mp3_length (content f)) as [seconds |].
  - left. exists seconds. reflexivity.
  - right. reflexivity.
Qed.

(** With the keys of the talk in the dictionary and the file on the disk,
    [update_playlists] goes through, unless mutagen cannot read the file. *)
Lemma update_playlists_covered (args : Args) (d : playlists_t) (talk : Talk.t)
    (audio : Audio.t) (w : World) :
  (forall k, In k (playlist_keys talk) -> In k (keys d)) ->
  is_Some (fs w !! (get_output_dir args ++ py "/"
                    ++ get_relative_path args (Talk.session talk) ++ py "/"
                    ++ Audio.file audio)) ->
  (exists d', update_playlists args d talk audio w = (Ret d', w) /\ keys d' = keys d)
  \/ update_playlists args d talk audio w
     = (Raise (py "mutagen.mp3.HeaderNotFoundError"), w).
Proof.
  intros Hkeys Hfile. unfold update_playlists.
  destruct (MP3_on_file _ w Hfile) as [[seconds Eseconds] | Eraise];
    [| right; apply bind_run_Raise; exact Eraise].
  left. rewrite (bind_run_Ret _ _ _ _ _ Eseconds).
  set (item := Entry seconds _ _ _).
  unfold bind at 1. rewrite in_place_run.
  assert (Hall : has_key (py "Conferences/GC-All") d = true)
    by (apply has_key_In, Hkeys; left; reflexivity).
  rewrite Hall.
  destruct (topics_loop_total item (Talk.topics talk)
              (change_key (py "Conferences/GC-All") (fun l => l ++ [item]) d) w)
    as [d2 Eloop].
  { intros t Ht. rewrite keys_change_key. apply Hkeys. right. right.
    apply in_map_iff. exists t. split; [reflexivity | exact Ht]. }
  pose proof (topics_loop_returned _ _ _ _ _ _ Eloop) as (_ & Hkeys2 & _).
  rewrite keys_change_key in Hkeys2.
  rewrite (bind_run_Ret _ _ _ _ _ Eloop).
  destruct (negb (find (Talk.title talk) (py "Sustaining of") =? -1)
            || startswith (Talk.title talk) (py "Church Auditing")).
  - exists d2. split; [reflexivity | exact Hkeys2].
  - rewrite in_place_run.
    assert (Hspeaker : has_key (py "Speakers/GC-S-" ++ Talk.speaker talk) d2 = true).
    { apply has_key_In. rewrite Hkeys2. apply Hkeys. right. left. reflexivity. }
    rewrite Hspeaker. eexists. split; [reflexivity |].
    rewrite keys_change_key. exact Hkeys2.
Qed.

Lemma in_place_Forall (P : entry -> Prop) (k : str) (f : list entry -> list entry)
    (d : playlists_t) :
  (forall v, Forall P v -> Forall P (f v)) ->
  Forall (fun kv => Forall P (snd kv)) d ->
  yields (in_place k f d) (Forall (fun kv => Forall P (snd kv))).
Proof.
  intros Hf Hd w d' w' E. apply in_place_Ret in E. destruct E as (-> & _ & _).
  apply change_key_Forall; assumption.
Qed.

(** The entries [update_playlists] adds are the talk's. *)
Lemma update_playlists_Forall (P : entry -> Prop) (args : Args) (d : playlists_t)
    (talk : Talk.t) (audio : Audio.t) :
  (forall seconds, P (playlist_item args talk audio seconds)) ->
  Forall (fun kv => Forall P (snd kv)) d ->
  yields (update_playlists args d talk audio)
    (Forall (fun kv => Forall P (snd kv))).
Proof.
  intros Hitem Hd. unfold update_playlists.
  eapply yields_bind; [apply yields_any | intros seconds _].
  specialize (Hitem seconds). unfold playlist_item in Hitem.
  eapply yields_bind.
  - apply in_place_Forall; [| exact Hd].
    intros v Hv. apply Forall_app. split; [exact Hv |].
    constructor; [exact Hitem | constructor].
  - intros d1 Hd1. eapply yields_bind.
    + apply yields_for_in; [| exact Hd1].
      intros topic d2 _ Hd2. apply in_place_Forall; [| exact Hd2].
      intros v Hv. constructor; [exact Hitem | exact Hv].
    + intros d3 Hd3.
      destruct (negb (find (Talk.title talk) (py "Sustaining of") =? -1)
                || startswith (Talk.title talk) (py "Church Auditing")).
      * apply yields_ret. exact Hd3.
      * apply in_place_Forall; [| exact Hd3].
        intros v Hv. constructor; [exact Hitem | exact Hv].
Qed.

End Playlists.

(** ** How a run can end *)

Lemma run_error_header : run_error (py "mutagen.mp3.HeaderNotFoundError").
Proof. split; intros E; vm_compute in E; discriminate. Qed.

Lemma run_error_type : run_error (py "TypeError").
Proof. split; intros E; vm_compute in E; discriminate. Qed.

Lemma run_error_binascii : run_error (py "binascii.Error").
Proof. split; intros E; vm_compute in E; discriminate. Qed.

Lemma triple_keeps {A} (X : Z -> Prop) (E : str -> Prop) (P : World -> Prop)
    (m : M A) :
  (forall w w', keeps w w' -> P w -> P w') ->
  calm X E m -> respects keeps m ->
  triple P m (fun _ => P) X E.
Proof.
  intros Hstable Hcalm Hkeeps w o w' Hw Erun.
  pose proof (Hcalm w o w' I Erun) as Ho.
  destruct o; [| exact Ho | exact Ho].
  apply (Hstable w w'); [apply (Hkeeps w _ w' Erun) | exact Hw].
Qed.

Section Run.
Context `{PyLib}.
Variables (args : Args) (all_talks : list Talk.t).

Let X := run_exit args.
Let E := run_error.
Let Inv := playlists_sound args all_talks.

Lemma playlists_sound_keeps (d : playlists_t) (w w' : World) :
  keeps w w' -> Inv d w -> Inv d w'.
Proof.
  intros Hk [Hd Hc]. split; [| exact Hc].
  apply (entries_on_disk_keeps args d w w' Hk Hd).
Qed.

Lemma audio_of_html_outcome (link_html : str) :
  match audio_of_html link_html with
  | Ret _ => True
  | Exit _ => False
  | Raise e => e = py "binascii.Error"
  end.
Proof.
  unfold audio_of_html.
  destruct (re.search false MP3_DOWNLOAD_REGEX link_html) as [mp3_link |].
  - destruct (re.match_ false MP3_DOWNLOAD_FILENAME_REGEX _); exact I.
  - destruct (re.search false SCRIPT_BASE64_REGEX link_html) as [blob |];
      [| exact I].
    destruct (b64decode_str _) as [script_data |]; [| reflexivity].
    destruct (re.search false MP3_MEDIAURL_REGEX script_data) as [fragment |];
      [| exact I].
    destruct (re.match_ false MP3_MEDIAURL_FILENAME_REGEX _); exact I.
Qed.

Lemma calm_get_audio (talk : Talk.t) : calm X E (get_audio args talk).
Proof.
  unfold get_audio. apply calm_bind; [apply calm_get_html |].
  intros link_html w o w' _ Erun. inversion Erun; subst.
  pose proof (audio_of_html_outcome link_html) as Ho.
  destruct (audio_of_html link_html); [exact I | destruct Ho |].
  subst. apply run_error_binascii.
Qed.

Lemma keeps_get_audio (talk : Talk.t) : respects keeps (get_audio args talk).
Proof.
  unfold get_audio. apply keeps_bind; [apply keeps_get_html |].
  intros link_html. apply keeps_lift.
Qed.

Lemma calm_bar_step (m : M unit) :
  m = _check_events \/ m = ret tt -> calm X E m /\ respects keeps m.
Proof.
  intros [-> | ->]; split;
    first [apply calm_check_events | apply calm_ret
          | apply keeps_check_events | apply keeps_ret].
Qed.

Lemma triple_set_description_str (d : playlists_t) (desc : str) :
  triple (Inv d) (set_description_str args desc) (fun _ => Inv d) X E.
Proof.
  apply triple_keeps; [apply playlists_sound_keeps | |];
    apply calm_bar_step; unfold set_description_str;
    destruct (tqdm args); auto.
Qed.

Lemma triple_update (d : playlists_t) (n : Z) :
  triple (Inv d) (update args n) (fun _ => Inv d) X E.
Proof.
  apply triple_keeps; [apply playlists_sound_keeps | |];
    apply calm_bar_step; unfold update; destruct (tqdm args); auto.
Qed.

Lemma triple_stopped (d : playlists_t) :
  triple (Inv d) (stopped args) (fun _ => Inv d) X E.
Proof.
  apply triple_keeps; [apply playlists_sound_keeps | |];
    unfold stopped; destruct (tqdm args);
    first [apply calm_ret | apply calm_get | apply keeps_ret | apply keeps_get].
Qed.

Lemma triple_download_audio (d : playlists_t) (file_path : str) (audio : Audio.t) :
  triple (Inv d) (download_audio args file_path audio)
    (fun downloaded w =>
       Inv d w /\ (downloaded = true -> is_Some (fs w !! file_path)))
    X E.
Proof.
  intros w o w' Hw Erun.
  pose proof (keeps_download_audio args file_path audio w o w' Erun) as Hk.
  unfold download_audio, isfile, write_mp3_to_disk, write_exception, raise,
    bind, get, modify, ret in Erun.
  destruct (fs w !! file_path) as [f |] eqn:Ef; simpl in Erun.
  - inversion Erun; subst. split; [exact Hw |]. intros _. exists f. exact Ef.
  - destruct (media w (Audio.link audio)) as [data |].
    + inversion Erun; subst.
      split; [apply (playlists_sound_keeps d w _ Hk Hw) |].
      intros _. simpl. rewrite lookup_insert_eq. eexists. reflexivity.
    + destruct (tqdm args); inversion Erun; subst;
        first [apply run_error_type | split; [exact Hw | discriminate]].
Qed.

Lemma triple_stamp (d : playlists_t) (talk : Talk.t) (file_path : str) :
  triple (fun w => Inv d w /\ is_Some (fs w !! file_path))
    (stamp args talk file_path)
    (fun _ w => Inv d w /\ is_Some (fs w !! file_path))
    X E.
Proof.
  intros w o w' [Hw Hfile] Erun.
  pose proof (keeps_stamp args talk file_path w o w' Erun) as Hk.
  unfold stamp in Erun.
  destruct (MP3_on_file file_path w Hfile) as [[seconds Eseconds] | Eraise].
  - rewrite (bind_run_Ret _ _ _ _ _ Eseconds) in Erun. cbv zeta in Erun.
    inversion Erun; subst. split.
    + apply (playlists_sound_keeps d w _ Hk Hw).
    + apply (is_Some_keeps file_path w _ Hk Hfile).
  - rewrite (bind_run_Raise _ _ _ _ _ Eraise) in Erun. inversion Erun; subst.
    apply run_error_header.
Qed.

Lemma triple_update_playlists (d : playlists_t) (talk : Talk.t) (audio : Audio.t) :
  In talk all_talks ->
  noplaylists args = false ->
  triple
    (fun w =>
       Inv d w
       /\ is_Some (fs w !! (get_output_dir args ++ py "/"
                            ++ get_relative_path args (Talk.session talk) ++ py "/"
                            ++ Audio.file audio)))
    (update_playlists args d talk audio)
    Inv X E.
Proof.
  intros Htalk Hon w o w' [[Hd Hc] Hfile] Erun.
  specialize (Hc Hon).
  destruct (update_playlists_covered args d talk audio w
              (fun k Hk => Hc talk k Htalk Hk) Hfile)
    as [(d' & Ed' & Hkeys) | Eraise].
  - rewrite Ed' in Erun. inversion Erun; subst. split.
    + apply (update_playlists_Forall (on_disk args w') args d talk audio)
        with (w := w') (w' := w'); [| exact Hd | exact Ed'].
      intros seconds. eexists. split; [reflexivity |].
      exact Hfile.
    + intros _ talk' k Htalk' Hk. rewrite Hkeys. apply (Hc talk' k Htalk' Hk).
  - rewrite Eraise in Erun. inversion Erun; subst. apply run_error_header.
Qed.

Lemma triple_download_talk (talk : Talk.t) (d : playlists_t) :
  In talk all_talks ->
  triple (Inv d) (download_talk args talk d) (fun r w => Inv (fst r) w) X E.
Proof.
  intros Htalk. unfold download_talk.
  eapply triple_bind; [apply triple_set_description_str | intros ?].
  eapply triple_bind.
  { apply triple_keeps;
      [apply playlists_sound_keeps | apply calm_get_audio | apply keeps_get_audio]. }
  intros audio.
  eapply triple_bind with (R := Inv).
  - destruct audio as [audio |]; [| apply triple_ret; auto].
    cbv zeta. eapply triple_bind; [apply triple_download_audio |].
    intros downloaded. destruct downloaded.
    + eapply triple_bind.
      * eapply triple_weaken;
          [apply (triple_stamp d) | | intros u w0 Hw0; exact Hw0].
        intros w0 [Hw0 Hfile]. split; [exact Hw0 | apply Hfile; reflexivity].
      * intros ?. destruct (noplaylists args) eqn:Eoff; simpl.
        -- apply triple_ret. tauto.
        -- apply triple_update_playlists; assumption.
    + apply triple_ret. tauto.
  - intros d1. eapply triple_bind; [apply triple_update | intros ?].
    eapply triple_bind; [apply triple_stopped | intros stop].
    apply triple_ret. auto.
Qed.

Lemma triple_download_talks (d : playlists_t) :
  triple (Inv d) (download_talks args all_talks d) Inv X E.
Proof.
  unfold download_talks.
  apply (triple_with_tqdm X E args (Inv d) (Inv d)).
  - intros Hgui. split; [reflexivity | exact Hgui].
  - auto.
  - intros w Hw. apply (playlists_sound_keeps d w); [| exact Hw].
    apply keeps_same_fs. reflexivity.
  - eapply triple_bind with (R := fun _ => Inv d);
      [apply triple_ret; intros w Hw; exact Hw | intros ?].
    apply triple_for_each. intros talk d1 Htalk.
    apply triple_download_talk. exact Htalk.
Qed.

Lemma initial_playlists_sound (w : World) :
  Inv (initial_playlists args all_talks) w.
Proof.
  split.
  - unfold entries_on_disk, initial_playlists.
    destruct (negb (noplaylists args)); [| constructor].
    eapply List.Forall_impl; [| apply create_playlists_all_empty].
    intros kv ->. constructor.
  - intros Hon talk k Htalk Hk. unfold initial_playlists. rewrite Hon. simpl.
    destruct (fold_create_playlists args all_talks []) as [_ Hin].
    unfold create_playlists. apply Hin. right. exists talk. split; assumption.
Qed.

End Run.

Section Outcome.
Context `{PyLib}.

Lemma triple_download_all_content (args : Args) :
  calm (run_exit args) run_error (download_all_content args).
Proof.
  assert (HX : tqdm args = GuiTqdm -> run_exit args 2)
    by (intros Hgui; split; [reflexivity | exact Hgui]).
  unfold download_all_content.
  apply calm_bind; [apply calm_get_all_talks; exact HX |].
  intros all_talks. cbv zeta. fold (initial_playlists args all_talks).
  apply calm_bind.
  - eapply triple_weaken; [apply (triple_download_talks args all_talks) | | auto].
    intros w _. apply initial_playlists_sound.
  - intros d. apply calm_bind.
    + destruct (negb (noplaylists args)); [| apply calm_ret].
      apply calm_write_playlists. exact HX.
    + intros ?. destruct (negb (nocleanup args)); [| apply calm_ret].
      unfold remove_cached_files. apply calm_modify.
Qed.

(** [download_all_content] ends in [sys.exit] only under the window's
    bar, and then with status 2. *)
Theorem download_all_content_exit (args : Args) (w : World) :
  match fst (download_all_content args w) with
  | Exit c => c = 2 /\ tqdm args = GuiTqdm
  | _ => True
  end.
Proof.
  pose proof (triple_download_all_content args w
                (fst (download_all_content args w))
                (snd (download_all_content args w)) I
                (surjective_pairing _)) as Ho.
  destruct (fst (download_all_content args w)); [exact I | exact Ho | exact I].
Qed.

(** Neither a [KeyError] nor the error mutagen raises for a file that is
    not there ends [download_all_content]: the playlists are updated under
    keys that [create_playlists] made, and the file tagged and measured is
    one that [download_audio] found or stored. *)
Theorem download_all_content_errors (args : Args) (w : World) :
  match fst (download_all_content args w) with
  | Raise e => e <> py "KeyError" /\ e <> py "mutagen.MutagenError"
  | _ => True
  end.
Proof.
  pose proof (triple_download_all_content args w
                (fst (download_all_content args w))
                (snd (download_all_content args w)) I
                (surjective_pairing _)) as Ho.
  destruct (fst (download_all_content args w)); [exact I | exact I | exact Ho].
Qed.

(** After the download block, every entry of every playlist points at a
    file that is on the disk: its path is [../] followed by the path of
    the file below the output directory. *)
Theorem playlist_entries_on_disk (args : Args) (all_talks : list Talk.t)
    (d : playlists_t) (w w' : World) :
  download_talks args all_talks (initial_playlists args all_talks) w = (Ret d, w') ->
  forall (k : str) (items : list entry) (item : entry),
    lookup_key k d = Some items -> In item items ->
    exists rel,
      path item = py "../" ++ rel
      /\ is_Some (fs w' !! (get_output_dir args ++ py "/" ++ rel)).
Proof.
  intros Erun k items item Hk Hitem.
  pose proof (triple_download_talks args all_talks _ w (Ret d) w'
                (initial_playlists_sound args all_talks w) Erun) as [Hd _].
  unfold entries_on_disk in Hd. rewrite List.Forall_forall in Hd.
  assert (Hkv : exists k', In (k', items) d).
  { clear Hd Erun. induction d as [| [k0 v] d IH]; [discriminate |].
    simpl in Hk. destruct (str_eqb k k0).
    - inversion Hk; subst. exists k0. left. reflexivity.
    - destruct (IH Hk) as [k' Hk']. exists k'. right. exact Hk'. }
  destruct Hkv as [k' Hkv]. specialize (Hd _ Hkv). simpl in Hd.
  rewrite List.Forall_forall in Hd. apply (Hd item Hitem).
Qed.

End Outcome.

(** After the download on the sample site, the first entry of the
    playlist of all talks points at a file on the disk. *)
Lemma playlist_entries_on_disk_witness :
  let args := Sample.args in
  let gathered := get_all_talks (H := Sample.lib) args (Sample.world []) in
  let all_talks := default [] (returned gathered) in
  let run := download_talks (H := Sample.lib) args all_talks
               (initial_playlists args all_talks) (snd gathered) in
  exists (d : playlists_t) (items : list entry) (item : entry) (rel : str),
    returned run = Some d
    /\ lookup_key (py "Conferences/GC-All") d = Some (item :: items)
    /\ path item = py "../" ++ rel
    /\ is_Some (fs (snd run) !! (get_output_dir args ++ py "/" ++ rel)).
Proof.
  intros args gathered all_talks run.
  assert (Hall : option_map (fun d =>
                   match lookup_key (py "Conferences/GC-All") d with
                   | Some (_ :: _) => true
                   | _ => false
                   end) (returned run) = Some true)
    by (vm_compute; reflexivity).
  destruct (returned run) as [d |] eqn:E; [| discriminate Hall].
  injection Hall as Hall.
  destruct (lookup_key (py "Conferences/GC-All") d) as [[| item items] |] eqn:Ek;
    try discriminate Hall.
  destruct (playlist_entries_on_disk (H := Sample.lib) args all_talks d
              (snd gathered) (snd run) (run_returned _ _ _ E)
              (py "Conferences/GC-All") (item :: items) item Ek
              (or_introl eq_refl)) as (rel & Hpath & Hfile).
  exists d, items, item, rel.
  split; [reflexivity |]. split; [exact Ek |]. split; [exact Hpath | exact Hfile].
Defined.

(* ================================================================== *)
(** * Playlist files                                               *)
(* ================================================================== *)

(** ** Decimal numerals *)









(** ** Matching names *)












Section Writing.
Context `{PyLib}.


End Writing.

Section Written.
Context `{PyLib}.





End Written.



(* ================================================================== *)
(** * The file name of a recording                                 *)
(* ================================================================== *)



Lemma take_chars_app (u v : str) (g : re.groups) :
  take_chars (u ++ v) g = take_chars v (take_chars u g).
Proof. unfold take_chars. apply fold_left_app. Qed.

Section RunInv.
Context `{PyLib}.
Variable dotall : bool.











End RunInv.

Section FileName.
Context `{PyLib}.








End FileName.

